(** * Coral Spectrum: a shallow embedding of the component base classes

    The development follows the JavaScript sources:

    - [BaseOverlay.js]   : the overlay stack ([OverlayManager]), the shared
                           backdrop and the [aria-hidden] bookkeeping;
    - [BaseComponent.js] : attribute reflection, content zones, global
                           listeners, the event map ([delegateEvents]), [set]
                           and the enumerated [tracking] property;
    - [BaseButton.js], [QuickActionsItem.js] : enumerated properties and the
                           class layering, with [Decorator];
    - [BaseLabellable]   : the reaction to [aria-label] and
                           [aria-labelledby];
    - [Playground.js]    : the sharing query ([_compress], [_uncompress],
                           [share], [read]), the setters, the debounced
                           events and [connectedCallback];
    - [LazyCollection]   : [_initialise].

    DOM elements are object references; they are modelled as natural numbers
    and the mutable objects live in finite maps indexed by these references.
    JavaScript numbers that hold z-indexes are integers far below 2^53 and
    are modelled in [Z]. *)

From Stdlib Require Import ZArith Lia List Bool Ascii String DecimalString.
From stdpp Require Import base option list sorting gmap strings.

(** An element reference (object identity). *)
Definition Element : Type := nat.
Bind Scope nat_scope with Element.

(** ** Completions: a function either returns or throws *)

Inductive Completion (A : Type) : Type :=
| Normal (a : A)
| Abrupt (error : string).
Arguments Normal {A} a.
Arguments Abrupt {A} error.

(** ** State and exception monad

    A method is a function from the state it acts on to a completion and the
    state it leaves; after a throw the state is the one at the throw. *)

Definition Eff (S A : Type) : Type := S -> Completion A * S.

Definition ret {S A} (a : A) : Eff S A := fun σ => (Normal a, σ).
Definition throw {S A} (e : string) : Eff S A := fun σ => (Abrupt e, σ).
Definition bind {S A B} (m : Eff S A) (f : A -> Eff S B) : Eff S B :=
  fun σ => match m σ with
           | (Normal a, σ') => f a σ'
           | (Abrupt e, σ') => (Abrupt e, σ')
           end.
Definition gets {S A} (f : S -> A) : Eff S A := fun σ => (Normal (f σ), σ).
Definition modify {S} (f : S -> S) : Eff S unit := fun σ => (Normal tt, f σ).

Notation "x <- m ;; k" := (bind m (fun x => k))
  (at level 100, m at next level, right associativity).
Notation "m ;; k" := (bind m (fun _ => k))
  (at level 100, right associativity).

Definition exec {S A} (m : Eff S A) (σ : S) : S := snd (m σ).
Definition result {S A} (m : Eff S A) (σ : S) : Completion A := fst (m σ).

(** [wp m Q σ]: from [σ] the computation returns (it does not throw) and its
    value and final state satisfy [Q]. *)
Definition wp {S A} (m : Eff S A) (Q : A -> S -> Prop) (σ : S) : Prop :=
  exists a σ', m σ = (Normal a, σ') /\ Q a σ'.

(** [throws m σ]: from [σ] the computation ends with an exception. *)
Definition throws {S A} (m : Eff S A) (σ : S) : Prop :=
  exists e σ', m σ = (Abrupt e, σ').

(** A computation that leaves a view of the state alone, whether it returns
    or throws. *)
Definition preserves {S A B} (proj : S -> B) (m : Eff S A) : Prop :=
  forall σ, proj (snd (m σ)) = proj σ.

(** A computation that returns and leaves a view of the state alone. *)
Definition steady {S A B} (proj : S -> B) (m : Eff S A) : Prop :=
  forall σ, wp m (fun _ σ' => proj σ' = proj σ) σ.

(** * BaseOverlay.js *)

Module Overlay.

Local Open Scope Z_scope.

(** An entry of [overlayStack]: [{instance, zIndex, backdrop}].  A freshly
    created entry [{instance}] has no [backdrop] property; the code only ever
    reads its truthiness, so [undefined] is [false] here. *)
Record Overlay : Type := mkOverlay {
  instance : Element;
  zIndex : Z;
  backdrop : bool
}.

(** What the code reads and writes on an element. *)
Record Node : Type := mkNode {
  within : list Element;                (* the descendants of the element *)
  parentNode : bool;                    (* whether [parentNode] is set *)
  ariaHidden : option string;           (* the [aria-hidden] attribute *)
  _previousAriaHidden : option string;  (* expando; [None] is [undefined] *)
  styleZIndex : option Z;               (* [style.zIndex] *)
  styleDisplay : string;                (* [style.display] *)
  trapFocusOn : bool;                   (* [trapFocus === trapFocus.ON] *)
  _requestedBackdrop : bool;
  _showBackdropOnAttached : bool
}.

Definition emptyNode : Node :=
  mkNode [] false None None None "" false false false.

(** [backdropEl]: the element, [style.zIndex] and the [_isOpen] flag.  The
    animation frame and the fade timer only touch the class list and
    [style.display] of the backdrop; they are not part of the state. *)
Record Backdrop : Type := mkBackdrop {
  bd_node : Element;
  bd_zIndex : Z;
  bd_isOpen : bool
}.

(** The module-level variables of BaseOverlay.js and the part of the
    document they act on. *)
Record State : Type := mkState {
  overlayStack : list Overlay;
  backdropEl : option Backdrop;
  tabCaptureEls : option (Element * Element);  (* top and bottom *)
  bodyChildren : list Element;                 (* [document.body.children] *)
  bodyNoScroll : bool;                         (* class [u-coral-noscroll] *)
  nodes : gmap nat Node;
  nextNode : Element                           (* [document.createElement] *)
}.

Definition startZIndex : Z := 10000.

Definition initial : State :=
  mkState [] None None [] false ∅ 0%nat.

(** The methods of this module act on [State]. *)
Definition M (A : Type) : Type := Eff State A.

(** *** Field updates *)

Definition set_stack (s : list Overlay) (σ : State) : State :=
  mkState s (backdropEl σ) (tabCaptureEls σ) (bodyChildren σ)
          (bodyNoScroll σ) (nodes σ) (nextNode σ).
Definition set_backdropEl (b : option Backdrop) (σ : State) : State :=
  mkState (overlayStack σ) b (tabCaptureEls σ) (bodyChildren σ)
          (bodyNoScroll σ) (nodes σ) (nextNode σ).
Definition set_tabCaptureEls (t : option (Element * Element)) (σ : State) : State :=
  mkState (overlayStack σ) (backdropEl σ) t (bodyChildren σ)
          (bodyNoScroll σ) (nodes σ) (nextNode σ).
Definition set_bodyChildren (c : list Element) (σ : State) : State :=
  mkState (overlayStack σ) (backdropEl σ) (tabCaptureEls σ) c
          (bodyNoScroll σ) (nodes σ) (nextNode σ).
Definition set_bodyNoScroll (b : bool) (σ : State) : State :=
  mkState (overlayStack σ) (backdropEl σ) (tabCaptureEls σ) (bodyChildren σ)
          b (nodes σ) (nextNode σ).
Definition set_nodes (n : gmap nat Node) (σ : State) : State :=
  mkState (overlayStack σ) (backdropEl σ) (tabCaptureEls σ) (bodyChildren σ)
          (bodyNoScroll σ) n (nextNode σ).
Definition set_nextNode (k : Element) (σ : State) : State :=
  mkState (overlayStack σ) (backdropEl σ) (tabCaptureEls σ) (bodyChildren σ)
          (bodyNoScroll σ) (nodes σ) k.

(** Reading an element; an element never written to is [emptyNode]. *)
Definition node (n : gmap nat Node) (e : Element) : Node :=
  default emptyNode (n !! e).

Definition with_ariaHidden (v : option string) (x : Node) : Node :=
  mkNode (within x) (parentNode x) v (_previousAriaHidden x) (styleZIndex x)
         (styleDisplay x) (trapFocusOn x) (_requestedBackdrop x)
         (_showBackdropOnAttached x).
Definition with_previousAriaHidden (v : option string) (x : Node) : Node :=
  mkNode (within x) (parentNode x) (ariaHidden x) v (styleZIndex x)
         (styleDisplay x) (trapFocusOn x) (_requestedBackdrop x)
         (_showBackdropOnAttached x).
Definition with_styleZIndex (v : option Z) (x : Node) : Node :=
  mkNode (within x) (parentNode x) (ariaHidden x) (_previousAriaHidden x) v
         (styleDisplay x) (trapFocusOn x) (_requestedBackdrop x)
         (_showBackdropOnAttached x).
Definition with_styleDisplay (v : string) (x : Node) : Node :=
  mkNode (within x) (parentNode x) (ariaHidden x) (_previousAriaHidden x)
         (styleZIndex x) v (trapFocusOn x) (_requestedBackdrop x)
         (_showBackdropOnAttached x).
Definition with_requestedBackdrop (v : bool) (x : Node) : Node :=
  mkNode (within x) (parentNode x) (ariaHidden x) (_previousAriaHidden x)
         (styleZIndex x) (styleDisplay x) (trapFocusOn x) v
         (_showBackdropOnAttached x).
Definition with_showBackdropOnAttached (v : bool) (x : Node) : Node :=
  mkNode (within x) (parentNode x) (ariaHidden x) (_previousAriaHidden x)
         (styleZIndex x) (styleDisplay x) (trapFocusOn x)
         (_requestedBackdrop x) v.

Definition update (e : Element) (f : Node -> Node) (n : gmap nat Node)
  : gmap nat Node :=
  <[e := f (node n e)]> n.

(** *** OverlayManager *)

(** [indexOf(instance)]: the loop over the stack, [-1] when not found. *)
Fixpoint indexOf_from (i : Z) (inst : Element) (s : list Overlay) : Z :=
  match s with
  | [] => -1
  | o :: s' => if Nat.eqb (instance o) inst then i
               else indexOf_from (i + 1) inst s'
  end.

Definition indexOf (inst : Element) (s : list Overlay) : Z :=
  indexOf_from 0 inst s.

(** [overlayStack.splice(index, 1)] *)
Definition splice1 {A} (index : nat) (s : list A) : list A :=
  take index s ++ drop (S index) s.

(** [top()] *)
Definition top (s : list Overlay) : option Overlay := last s.

(** [getHighestZIndex()] *)
Definition getHighestZIndex (s : list Overlay) : Z :=
  match top s with
  | Some overlay => zIndex overlay
  | None => startZIndex
  end.

(** [get(instance)] *)
Definition get (inst : Element) (s : list Overlay) : option Overlay :=
  let index := indexOf inst s in
  if index =? -1 then None else s !! Z.to_nat index.

(** [pop(instance)] *)
Definition pop (inst : Element) : M (option Overlay) :=
  s <- gets overlayStack ;;
  let index := indexOf inst s in
  if index =? -1 then ret None
  else
    let overlay := s !! Z.to_nat index in
    modify (set_stack (splice1 (Z.to_nat index) s)) ;;
    ret overlay.

(** *** aria-hidden bookkeeping *)

(** JavaScript truthiness of a string that may be [null] or [undefined]. *)
Definition truthy (v : option string) : bool :=
  match v with
  | Some x => negb (String.eqb x "")
  | None => false
  end.

(** [a || b] *)
Definition or_else (a b : option string) : option string :=
  if truthy a then a else b.

(** [child.contains(instance)]: a node contains itself and its descendants. *)
Definition contains (n : gmap nat Node) (child inst : Element) : bool :=
  Nat.eqb child inst || existsb (Nat.eqb inst) (within (node n child)).

(** The condition of the loop body of [hideEverythingBut]. *)
Definition toHide (n : gmap nat Node) (inst child : Element) : bool :=
  negb (Nat.eqb child inst) && negb (contains n child inst).

(** One iteration of the loop of [hideEverythingBut]. *)
Definition hideChild (inst : Element) (n : gmap nat Node) (child : Element)
  : gmap nat Node :=
  if toHide n inst child then
    let currentAriaHidden := ariaHidden (node n child) in
    if truthy currentAriaHidden then
      let n1 := update child
                  (fun x => with_previousAriaHidden
                              (or_else (_previousAriaHidden x) currentAriaHidden) x) n in
      if bool_decide (currentAriaHidden = Some "true") then n1 (* continue *)
      else update child (with_ariaHidden (Some "true")) n1
    else
      let n1 := update child (with_previousAriaHidden (Some "false")) n in
      update child (with_ariaHidden (Some "true")) n1
  else n.

Definition hideEverythingBut (inst : Element) : M unit :=
  modify (fun σ =>
    let n := fold_left (hideChild inst) (bodyChildren σ) (nodes σ) in
    set_nodes (update inst (with_ariaHidden (Some "false")) n) σ).

(** One iteration of the loop of [showEverything]. *)
Definition showChild (n : gmap nat Node) (child : Element) : gmap nat Node :=
  update child
    (fun x => with_ariaHidden (or_else (_previousAriaHidden x) (Some "false")) x) n.

Definition showEverything : M unit :=
  modify (fun σ => set_nodes (fold_left showChild (bodyChildren σ) (nodes σ)) σ).

(** *** Backdrop *)

(** [backdropEl.style.zIndex = z]; a [TypeError] when [backdropEl] is
    [undefined]. *)
Definition setBackdropZIndex (z : Z) : M unit :=
  b <- gets backdropEl ;;
  match b with
  | Some bd => modify (set_backdropEl (Some (mkBackdrop (bd_node bd) z (bd_isOpen bd))))
  | None => throw "TypeError"
  end.

(** [backdropEl._isOpen = v] *)
Definition setBackdropIsOpen (v : bool) : M unit :=
  b <- gets backdropEl ;;
  match b with
  | Some bd => modify (set_backdropEl (Some (mkBackdrop (bd_node bd) (bd_zIndex bd) v)))
  | None => throw "TypeError"
  end.

(** The downward loop of [doRepositionBackdrop]: the topmost entry that has
    a backdrop. *)
Definition topmostBackdrop (s : list Overlay) : option Overlay :=
  find backdrop (rev s).

Definition doRepositionBackdrop : M unit :=
  s <- gets overlayStack ;;
  match top s with
  | Some t =>
      match topmostBackdrop s with
      | Some o => setBackdropZIndex (zIndex o - 1)
      | None => ret tt
      end ;;
      hideEverythingBut (instance t)
  | None => ret tt
  end.

(** [push(instance)] *)
Definition push (inst : Element) : M Overlay :=
  popped <- pop inst ;;
  (* [{instance}]: the zIndex of a fresh entry is assigned just below *)
  let overlay := default (mkOverlay inst 0 false) popped in
  s <- gets overlayStack ;;
  let z := getHighestZIndex s + 10 in
  let overlay := mkOverlay (instance overlay) z (backdrop overlay) in
  modify (fun σ => set_nodes (update inst (with_styleZIndex (Some z)) (nodes σ)) σ) ;;
  modify (set_stack (s ++ [overlay])) ;;
  (if backdrop overlay then doRepositionBackdrop else ret tt) ;;
  ret overlay.

(** [body.insertBefore(el, body.firstChild)] and [body.appendChild(el)]; an
    element already in the document is moved. *)
Definition removeChild (el : Element) (c : list Element) : list Element :=
  filter (fun x => x <> el) c.
Definition insertFirst (el : Element) (c : list Element) : list Element :=
  el :: removeChild el c.
Definition appendChild (el : Element) (c : list Element) : list Element :=
  removeChild el c ++ [el].

(** [document.createElement('div')] *)
Definition createElement : M Element :=
  e <- gets nextNode ;;
  modify (set_nextNode (S e)) ;;
  ret e.

Definition setDisplay (el : Element) (v : string) : M unit :=
  modify (fun σ => set_nodes (update el (with_styleDisplay v) (nodes σ)) σ).

Definition createDocumentTabCaptureEls : M unit :=
  t <- gets tabCaptureEls ;;
  match t with
  | None =>
      topEl <- createElement ;;
      modify (fun σ => set_bodyChildren (insertFirst topEl (bodyChildren σ)) σ) ;;
      bottomEl <- createElement ;;
      modify (fun σ => set_bodyChildren (appendChild bottomEl (bodyChildren σ)) σ) ;;
      modify (set_tabCaptureEls (Some (topEl, bottomEl))) ;;
      setDisplay topEl "inline" ;;
      setDisplay bottomEl "inline"
  | Some (topEl, bottomEl) =>
      c <- gets bodyChildren ;;
      (if bool_decide (head c = Some topEl) then ret tt
       else modify (fun σ => set_bodyChildren (insertFirst topEl (bodyChildren σ)) σ)) ;;
      c <- gets bodyChildren ;;
      (if bool_decide (last c = Some bottomEl) then ret tt
       else modify (fun σ => set_bodyChildren (appendChild bottomEl (bodyChildren σ)) σ)) ;;
      setDisplay topEl "inline" ;;
      setDisplay bottomEl "inline"
  end.

Definition hideDocumentTabCaptureEls : M unit :=
  t <- gets tabCaptureEls ;;
  match t with
  | Some (topEl, bottomEl) => setDisplay topEl "none" ;; setDisplay bottomEl "none"
  | None => ret tt
  end.

Definition doBackdropHide : M unit :=
  modify (set_bodyNoScroll false) ;;
  setBackdropIsOpen false ;;
  showEverything.

Definition hideOrRepositionBackdrop : M unit :=
  b <- gets backdropEl ;;
  match b with
  | None => ret tt
  | Some bd =>
      if negb (bd_isOpen bd) then ret tt
      else
        s <- gets overlayStack ;;
        let keepBackdrop := existsb backdrop s in
        (if negb keepBackdrop then doBackdropHide else doRepositionBackdrop) ;;
        s <- gets overlayStack ;;
        n <- gets nodes ;;
        match top s with
        | None => hideDocumentTabCaptureEls
        | Some t =>
            if trapFocusOn (node n (instance t)) && _requestedBackdrop (node n (instance t))
            then createDocumentTabCaptureEls
            else hideDocumentTabCaptureEls
        end
  end.

Definition doBackdropShow (z : Z) (inst : Element) : M unit :=
  modify (set_bodyNoScroll true) ;;
  b <- gets backdropEl ;;
  match b with
  | None =>
      el <- createElement ;;
      modify (fun σ => set_bodyChildren (appendChild el (bodyChildren σ)) σ) ;;
      modify (set_backdropEl (Some (mkBackdrop el 0 false)))
  | Some _ => ret tt
  end ;;
  setBackdropZIndex (z - 1) ;;
  setBackdropIsOpen true ;;
  hideEverythingBut inst.

(** *** The protected methods of the mixin *)

(** [overlay.backdrop = v] on the entry returned by [get(self)]: the entry is
    the object held by the stack, so the stack sees the assignment. *)
Definition setEntryBackdrop (self : Element) (v : bool) : M unit :=
  modify (fun σ =>
    let s := overlayStack σ in
    set_stack (alter (fun o => mkOverlay (instance o) (zIndex o) v)
                     (Z.to_nat (indexOf self s)) s) σ).

Definition _pushOverlay (self : Element) : M unit :=
  push self ;; ret tt.

Definition _popOverlay (self : Element) : M unit :=
  pop self ;;
  hideOrRepositionBackdrop.

Definition _showBackdrop (self : Element) : M unit :=
  s <- gets overlayStack ;;
  match get self s with
  | Some overlay =>
      setEntryBackdrop self true ;;
      doBackdropShow (zIndex overlay) self
  | None => ret tt
  end ;;
  modify (fun σ => set_nodes (update self (with_requestedBackdrop true) (nodes σ)) σ) ;;
  n <- gets nodes ;;
  (if negb (parentNode (node n self))
   then modify (fun σ => set_nodes (update self (with_showBackdropOnAttached true) (nodes σ)) σ)
   else ret tt) ;;
  (if trapFocusOn (node n self) then createDocumentTabCaptureEls else ret tt).

Definition _hideBackdrop (self : Element) : M unit :=
  s <- gets overlayStack ;;
  match get self s with
  | Some overlay =>
      setEntryBackdrop self false ;;
      hideOrRepositionBackdrop
  | None => ret tt
  end ;;
  modify (fun σ => set_nodes (update self (with_requestedBackdrop false) (nodes σ)) σ).

(** Calls made on the overlay machinery, and a run of them from a state.  A
    call that throws leaves the state as it was when the exception was
    raised, and the next call starts from there. *)
Inductive Call : Type :=
| Push (inst : Element)           (* [OverlayManager.push] *)
| Pop (inst : Element)            (* [OverlayManager.pop] *)
| PushOverlay (self : Element)
| PopOverlay (self : Element)
| ShowBackdrop (self : Element)
| HideBackdrop (self : Element).

Definition call (c : Call) (σ : State) : State :=
  match c with
  | Push inst => exec (push inst) σ
  | Pop inst => exec (pop inst) σ
  | PushOverlay self => exec (_pushOverlay self) σ
  | PopOverlay self => exec (_popOverlay self) σ
  | ShowBackdrop self => exec (_showBackdrop self) σ
  | HideBackdrop self => exec (_hideBackdrop self) σ
  end.

Definition run (cs : list Call) (σ : State) : State :=
  fold_left (fun σ c => call c σ) cs σ.

(** *** Stated properties of the stack *)

(** No instance occurs twice and the z-indexes grow strictly from the bottom
    of the stack to its top. *)
Definition stack_ok (s : list Overlay) : Prop :=
  NoDup (instance <$> s) /\ StronglySorted Z.lt (zIndex <$> s).

(** What the stack is compared by when only the [backdrop] flags change. *)
Definition keys_of (s : list Overlay) : list (Element * Z) :=
  (fun o => (instance o, zIndex o)) <$> s.
Definition stack_keys (σ : State) : list (Element * Z) :=
  keys_of (overlayStack σ).

(** The [backdrop] flag of the entry [push] works on: that of the entry it
    popped, [false] for a fresh one. *)
Definition popped_backdrop (inst : Element) (σ : State) : bool :=
  match result (pop inst) σ with
  | Normal (Some o) => backdrop o
  | _ => false
  end.

(** The z-index rule read with the stack as it is when [push] is called:
    the pushed entry gets the z-index of the top of that stack plus 10, or
    [startZIndex + 10] when that stack is empty. *)
Definition push_zIndex_from_previous_top (inst : Element) (σ : State) : Prop :=
  forall o, top (overlayStack (exec (push inst) σ)) = Some o ->
            zIndex o = getHighestZIndex (overlayStack σ) + 10.

(** The effect of one iteration of [hideEverythingBut] and of
    [showEverything] on the element it visits. *)
Definition hideNode (inst child : Element) (x : Node) : Node :=
  if negb (Nat.eqb child inst) && negb (Nat.eqb child inst || existsb (Nat.eqb inst) (within x))
  then
    if truthy (ariaHidden x)
    then with_ariaHidden (Some "true")
           (with_previousAriaHidden (or_else (_previousAriaHidden x) (ariaHidden x)) x)
    else with_ariaHidden (Some "true") (with_previousAriaHidden (Some "false") x)
  else x.

Definition showNode (x : Node) : Node :=
  with_ariaHidden (or_else (_previousAriaHidden x) (Some "false")) x.

(** The storing rule of [hideEverythingBut] read as: what is stored is the
    value of [aria-hidden] seen at this call, ["false"] when the attribute is
    absent. *)
Definition stores_observed_ariaHidden (inst : Element) (σ : State) : Prop :=
  forall child,
    child ∈ bodyChildren σ ->
    toHide (nodes σ) inst child = true ->
    _previousAriaHidden (node (nodes (exec (hideEverythingBut inst) σ)) child)
    = Some (default "false" (ariaHidden (node (nodes σ) child))).

(** The stack together with the backdrop. *)
Definition stack_and_backdrop (σ : State) : list Overlay * option Backdrop :=
  (overlayStack σ, backdropEl σ).

(** The backdrop after a call that settles it: it is closed exactly when no
    entry of the stack asks for a backdrop, and when it is open it sits one
    below the topmost entry that asks for one. *)
Definition backdrop_settled (σ : State) : Prop :=
  exists bd,
    backdropEl σ = Some bd /\
    (bd_isOpen bd = false <-> existsb backdrop (overlayStack σ) = false) /\
    (bd_isOpen bd = true ->
       exists o, topmostBackdrop (overlayStack σ) = Some o /\
                 bd_zIndex bd = zIndex o - 1).

Definition backdrop_open (σ : State) : Prop :=
  exists bd, backdropEl σ = Some bd /\ bd_isOpen bd = true.

(** The backdrop rule read for every call of [_hideBackdrop]: whenever the
    backdrop is open when the call starts, it is settled when it ends. *)
Definition hideBackdrop_settles (self : Element) (σ : State) : Prop :=
  backdrop_open σ -> backdrop_settled (exec (_hideBackdrop self) σ).

(** The backdrop is open, one below the given z-index. *)
Definition backdrop_under (z : Z) (σ : State) : Prop :=
  exists bd, backdropEl σ = Some bd /\ bd_isOpen bd = true /\ bd_zIndex bd = z - 1.

(** Sample states used to exercise the definitions. *)
Definition page : State :=
  mkState [] None None [1; 2]%nat false
          {[ 1%nat := with_ariaHidden (Some "true") emptyNode ]} 10.

Definition two_overlays : State :=
  mkState [mkOverlay 1 10010 false; mkOverlay 2 10020 true] None None [] false ∅ 0%nat.

(** Two overlays are open and each asked for the backdrop, the upper one
    first. *)
Definition two_backdrops : State :=
  run [PushOverlay 1; PushOverlay 2; ShowBackdrop 2; ShowBackdrop 1]%nat page.

End Overlay.


(** * JavaScript values and strings *)

Module JS.

Local Open Scope Z_scope.

(** The values the modelled methods receive.  A number is an integer here,
    and the model follows the language on the safe integers (see [safe]).
    An object is given by what [toString()] yields for it and, when it is an
    [HTMLElement], by its reference; it has no other property. *)
Inductive Value : Type :=
| VUndefined
| VNull
| VBool (b : bool)
| VNumber (n : Z)
| VString (s : string)
| VObject (shown : string) (element : option Element).

(** Strict equality of the modelled values is decidable. *)
#[export] Instance Value_eq_dec : EqDecision Value.
Proof. solve_decision. Defined.

(** [ToBoolean] *)
Definition truthy (v : Value) : bool :=
  match v with
  | VUndefined | VNull => false
  | VBool b => b
  | VNumber n => negb (n =? 0)
  | VString s => negb (String.eqb s "")
  | VObject _ _ => true
  end.

(** The decimal notation of an integer. *)
Definition decimal (n : Z) : string := NilZero.string_of_int (Z.to_int n).

(** [String(value)] *)
Definition String_of (v : Value) : string :=
  match v with
  | VUndefined => "undefined"
  | VNull => "null"
  | VBool true => "true"
  | VBool false => "false"
  | VNumber n => decimal n
  | VString s => s
  | VObject shown _ => shown
  end.


(** [a || b] and [a && b] *)
Definition or (a b : Value) : Value := if truthy a then a else b.
Definition and (a b : Value) : Value := if truthy a then b else a.

(** [value instanceof HTMLElement] *)
Definition asElement (v : Value) : option Element :=
  match v with
  | VObject _ (Some e) => Some e
  | _ => None
  end.

(** [String.prototype.toLowerCase] and [toUpperCase] on the letters A-Z and
    a-z; the tag, attribute and enumeration names of the library are ASCII. *)
Definition lower (c : ascii) : ascii :=
  let n := nat_of_ascii c in
  if (65 <=? n)%nat && (n <=? 90)%nat then ascii_of_nat (n + 32) else c.
Definition upper (c : ascii) : ascii :=
  let n := nat_of_ascii c in
  if (97 <=? n)%nat && (n <=? 122)%nat then ascii_of_nat (n - 32) else c.

Fixpoint map_string (f : ascii -> ascii) (s : string) : string :=
  match s with
  | EmptyString => EmptyString
  | String c s' => String (f c) (map_string f s')
  end.

Definition toLowerCase (s : string) : string := map_string lower s.
Definition toUpperCase (s : string) : string := map_string upper s.

(** The white space that [String.prototype.trim] removes, among the
    one-byte characters: tab, line feed, vertical tab, form feed, carriage
    return, space and no-break space. *)
Definition whitespace (c : ascii) : bool :=
  let n := nat_of_ascii c in
  (n =? 9)%nat || (n =? 10)%nat || (n =? 11)%nat || (n =? 12)%nat ||
  (n =? 13)%nat || (n =? 32)%nat || (n =? 160)%nat.

(** [s.trim().length] is 0. *)
Definition blank (s : string) : bool := forallb whitespace (list_ascii_of_string s).

(** An enumeration object such as [{ON: 'on', OFF: 'off'}]. *)
Definition Enumeration : Type := list (string * string).
Definition members (E : Enumeration) : list string := snd <$> E.

End JS.


(** * BaseComponent.js, BaseButton.js, QuickActionsItem.js and the property
      setters of BaseOverlay.js *)

Module Component.
Import JS.

Local Open Scope Z_scope.

(** ** What the sources import and do not define *)

(** [transform] and [validate] of coral-utils.  The sources call them and
    do not contain them: they are parameters of the model. *)
Class Utils : Type := {
  transform_toLowerCase : Value -> Value;
  transform_toUpperCase : Value -> Value;
  transform_string : Value -> string;
  validate_enumeration : Enumeration -> Value -> bool;
  validate_valueMustChange : Value -> Value -> bool
}.

(** What is stated of them: [validate.valueMustChange(a, b)] is [a !== b].
    Nothing is stated of [validate.enumeration] and of the functions of
    [transform]. *)
Class UtilsSpec (U : Utils) : Prop := {
  valueMustChange_spec : forall a b : Value,
    validate_valueMustChange a b = negb (bool_decide (a = b))
}.

(** The enumerations of [./enums] that BaseOverlay.js imports, and the
    members the setters name. *)
Class OverlayEnums : Type := {
  trapFocus : Enumeration;
  trapFocus_ON : string;
  trapFocus_OFF : string;
  returnFocus : Enumeration;
  returnFocus_OFF : string;
  scrollOnFocus : Enumeration;
  scrollOnFocus_ON : string
}.

(** The tab capture elements the template of BaseOverlay puts in
    [_elements]. *)
Record OverlayTemplate : Type := mkOverlayTemplate {
  topTabCapture : Element;
  intermediateTabCapture : Element;
  bottomTabCapture : Element
}.

(** ** The component *)

Record Component : Type := mkComponent {
  attributes : gmap string string;       (* the attributes of the element *)
  fields : gmap string Value;            (* own properties: _tracking, ... *)
  classList : list string;
  posted : list string;                  (* messages given to the Messenger *)
  _reflectedAttribute : bool;
  tabIndex : Z;
  childElements : list Element;
  ventListeners : list (string * string);  (* event name and selector *)
  labelClasses : gmap nat (list string);   (* class lists of label elements *)
  icon : Value;                            (* _elements.icon *)
  textContent : gmap nat string;           (* the text of other elements *)
  elementAttributes : gmap nat (gmap string string)
                                           (* the attributes of other elements *)
}.

Definition newComponent : Component :=
  mkComponent ∅ ∅ [] [] false (-1) [] [] ∅ VUndefined ∅ ∅.

Definition set_attributes (f : gmap string string -> gmap string string) (c : Component) :=
  mkComponent (f (attributes c)) (fields c) (classList c) (posted c)
              (_reflectedAttribute c) (tabIndex c) (childElements c)
              (ventListeners c) (labelClasses c)
              (icon c) (textContent c) (elementAttributes c).
Definition set_fields (f : gmap string Value -> gmap string Value) (c : Component) :=
  mkComponent (attributes c) (f (fields c)) (classList c) (posted c)
              (_reflectedAttribute c) (tabIndex c) (childElements c)
              (ventListeners c) (labelClasses c)
              (icon c) (textContent c) (elementAttributes c).
Definition set_classList (f : list string -> list string) (c : Component) :=
  mkComponent (attributes c) (fields c) (f (classList c)) (posted c)
              (_reflectedAttribute c) (tabIndex c) (childElements c)
              (ventListeners c) (labelClasses c)
              (icon c) (textContent c) (elementAttributes c).
Definition set_posted (f : list string -> list string) (c : Component) :=
  mkComponent (attributes c) (fields c) (classList c) (f (posted c))
              (_reflectedAttribute c) (tabIndex c) (childElements c)
              (ventListeners c) (labelClasses c)
              (icon c) (textContent c) (elementAttributes c).
Definition set_reflectedAttribute (b : bool) (c : Component) :=
  mkComponent (attributes c) (fields c) (classList c) (posted c)
              b (tabIndex c) (childElements c)
              (ventListeners c) (labelClasses c)
              (icon c) (textContent c) (elementAttributes c).
Definition set_tabIndex (z : Z) (c : Component) :=
  mkComponent (attributes c) (fields c) (classList c) (posted c)
              (_reflectedAttribute c) z (childElements c)
              (ventListeners c) (labelClasses c)
              (icon c) (textContent c) (elementAttributes c).
Definition set_childElements (f : list Element -> list Element) (c : Component) :=
  mkComponent (attributes c) (fields c) (classList c) (posted c)
              (_reflectedAttribute c) (tabIndex c) (f (childElements c))
              (ventListeners c) (labelClasses c)
              (icon c) (textContent c) (elementAttributes c).
Definition set_ventListeners (f : list (string * string) -> list (string * string))
    (c : Component) :=
  mkComponent (attributes c) (fields c) (classList c) (posted c)
              (_reflectedAttribute c) (tabIndex c) (childElements c)
              (f (ventListeners c)) (labelClasses c)
              (icon c) (textContent c) (elementAttributes c).
Definition set_labelClasses (f : gmap nat (list string) -> gmap nat (list string))
    (c : Component) :=
  mkComponent (attributes c) (fields c) (classList c) (posted c)
              (_reflectedAttribute c) (tabIndex c) (childElements c)
              (ventListeners c) (f (labelClasses c))
              (icon c) (textContent c) (elementAttributes c).
Definition set_elementAttributes
    (f : gmap nat (gmap string string) -> gmap nat (gmap string string))
    (c : Component) :=
  mkComponent (attributes c) (fields c) (classList c) (posted c)
              (_reflectedAttribute c) (tabIndex c) (childElements c)
              (ventListeners c) (labelClasses c)
              (icon c) (textContent c) (f (elementAttributes c)).

(** [this[name]]; a property never assigned is [undefined]. *)
Definition field (name : string) (c : Component) : Value :=
  default VUndefined (fields c !! name).
Definition assignField (name : string) (v : Value) : Eff Component unit :=
  modify (set_fields (insert name v)).

(** The class of the component: its static getters, what assigning to a
    property does and what reading a property yields, and whether
    BaseLabellable is one of its layers.  An assignment runs in the reaction
    to an attribute change, where an exception is reported to the window and
    does not reach the caller: it is a function on the state. *)
Record ElementClass : Type := mkElementClass {
  observedAttributes : list string;
  _attributePropertyMap : gmap string string;
  assign : string -> Value -> Component -> Component;
  get : string -> Component -> Value;
  labellable : bool
}.

(** ** Attributes *)

(** The attribute names of an HTML element are lower-cased by the DOM. *)
Definition getAttribute (name : string) (c : Component) : option string :=
  attributes c !! toLowerCase name.

Definition hasAttribute (name : string) (c : Component) : bool :=
  bool_decide (is_Some (getAttribute name c)).

(** [getAttribute] as a value: the string, or [null]. *)
Definition attributeValue (name : string) (c : Component) : Value :=
  match getAttribute name c with
  | Some s => VString s
  | None => VNull
  end.

(** BaseLabellable: [_toggleIconAriaHidden()].  It runs in the reaction to
    an attribute change: where a statement throws (the rendered label has no
    [textContent] to trim, the icon has no [setAttribute]), the method ends
    there and the exception is reported to the window. *)
Definition _toggleIconAriaHidden (K : ElementClass) (c : Component) : Component :=
  let renderedLabel :=
    JS.or (JS.or (field "_renderedLabel" c) (get K "label" c)) (get K "content" c) in
  let c := set_fields (insert "_renderedLabel" renderedLabel) c in
  if truthy (icon c) then
    let labelled : option bool :=
      if truthy renderedLabel then
        match asElement renderedLabel with
        | Some label => Some (negb (blank (default "" (textContent c !! label))))
        | None => None
        end
      else Some false in
    match labelled, asElement (icon c) with
    | Some text, Some i =>
        if text || bool_decide (is_Some (getAttribute "aria-label" c))
                || bool_decide (is_Some (getAttribute "aria-labelledby" c))
        then set_elementAttributes
               (fun m => <[i := <["aria-hidden" := "true"]> (default ∅ (m !! i))]> m) c
        else set_elementAttributes
               (fun m => <[i := delete "aria-hidden" (default ∅ (m !! i))]> m) c
    | _, _ => c
    end
  else c.

(** The attributes whose changes BaseLabellable handles itself. *)
Definition labelAttributes : list string := ["aria-label"; "aria-labelledby"].

(** [attributeChangedCallback(name, oldValue, value)]: the one of
    BaseLabellable when it is a layer of the class, which calls the one of
    BaseComponent for the other names. *)
Definition attributeChangedCallback (K : ElementClass) (name : string)
    (value : Value) (c : Component) : Component :=
  if labellable K && bool_decide (name ∈ labelAttributes)
  then _toggleIconAriaHidden K c
  else if negb (_reflectedAttribute c)
  then assign K (default name (_attributePropertyMap K !! name)) value c
  else c.

(** The names [setAttribute] accepts: those that match the [Name] production
    of XML, here on one-byte characters. *)
Definition nameStartChar (c : ascii) : bool :=
  let n := nat_of_ascii c in
  (n =? 58)%nat || (n =? 95)%nat ||
  ((65 <=? n)%nat && (n <=? 90)%nat) || ((97 <=? n)%nat && (n <=? 122)%nat) ||
  ((192 <=? n)%nat && (n <=? 214)%nat) || ((216 <=? n)%nat && (n <=? 246)%nat) ||
  (248 <=? n)%nat.
Definition nameChar (c : ascii) : bool :=
  let n := nat_of_ascii c in
  nameStartChar c || (n =? 45)%nat || (n =? 46)%nat ||
  ((48 <=? n)%nat && (n <=? 57)%nat) || (n =? 183)%nat.
Definition validAttributeName (name : string) : bool :=
  match name with
  | EmptyString => false
  | String c s => nameStartChar c && forallb nameChar (list_ascii_of_string s)
  end.

(** [setAttribute(name, value)]: a name that is no [Name] is refused with an
    [InvalidCharacterError]; otherwise the value is converted to a string,
    and the callback of the class runs when the attribute is observed. *)
Definition setAttribute (K : ElementClass) (name : string) (value : Value)
  : Eff Component unit :=
  if validAttributeName name then
    modify (fun c =>
      let n := toLowerCase name in
      let c' := set_attributes (insert n (String_of value)) c in
      if bool_decide (n ∈ observedAttributes K)
      then attributeChangedCallback K n (VString (String_of value)) c'
      else c')
  else throw "InvalidCharacterError".

(** [removeAttribute(name)] *)
Definition removeAttribute (K : ElementClass) (name : string) : Eff Component unit :=
  modify (fun c =>
    let n := toLowerCase name in
    match attributes c !! n with
    | None => c
    | Some _ =>
        let c' := set_attributes (delete n) c in
        if bool_decide (n ∈ observedAttributes K)
        then attributeChangedCallback K n VNull c'
        else c'
    end).

(** [_reflectAttribute(attributeName, value)] *)
Definition _reflectAttribute (K : ElementClass) (attributeName : string)
    (value : Value) : Eff Component unit :=
  match value with
  | VBool b =>
      has <- gets (hasAttribute attributeName) ;;
      if b && negb has then
        modify (set_reflectedAttribute true) ;;
        setAttribute K attributeName (VString "") ;;
        modify (set_reflectedAttribute false)
      else if negb b && has then
        modify (set_reflectedAttribute true) ;;
        removeAttribute K attributeName ;;
        modify (set_reflectedAttribute false)
      else ret tt
  | _ =>
      current <- gets (getAttribute attributeName) ;;
      if bool_decide (current <> Some (String_of value)) then
        modify (set_reflectedAttribute true) ;;
        setAttribute K attributeName value ;;
        modify (set_reflectedAttribute false)
      else ret tt
  end.

(** The attribute changes that the class answers even while the flag of
    [_reflectAttribute] is up: those of the names BaseLabellable handles, in
    a class that has this layer. *)
Definition reacts (K : ElementClass) (name : string) : bool :=
  labellable K && bool_decide (toLowerCase name ∈ labelAttributes).

(** What neither an attribute nor the reaction of BaseLabellable touches. *)
Definition beyond (c : Component) :=
  (classList c, posted c, tabIndex c, childElements c, ventListeners c,
   labelClasses c, icon c, textContent c).

(** How the state [c'] after a reflection differs from the state [c]
    before it: the attributes are [attrs], and when the class reacts to the
    name, [_renderedLabel] and the attributes of the icon may differ. *)
Definition reflects (K : ElementClass) (name : string) (attrs : gmap string string)
    (c c' : Component) : Prop :=
  attributes c' = attrs /\ beyond c' = beyond c /\
  (reacts K name = false ->
     fields c' = fields c /\ elementAttributes c' = elementAttributes c) /\
  (forall f, f <> "_renderedLabel"%string -> fields c' !! f = fields c !! f).

(** The attribute [_reflectAttribute] is meant to leave under the name: for
    [true] the attribute as it was, or the empty string when it is added;
    for [false] no attribute; for any other value its string. *)
Definition reflected (name : string) (value : Value) (c : Component) : option string :=
  match value with
  | VBool true => Some (default "" (getAttribute name c))
  | VBool false => None
  | _ => Some (String_of value)
  end.

(** [_updateProperty(handle, value, callback)].  The handle is a string, so
    the guard that throws on a handle that is neither truthy nor a string
    never fires. *)
Definition _updateProperty `{Utils} (handle : string) (value : Value)
    (callback : Value -> Eff Component unit) : Eff Component unit :=
  old <- gets (field handle) ;;
  if validate_valueMustChange old value then
    assignField handle value ;;
    callback value
  else ret tt.

(** ** Enumerated properties *)

(** [validate.enumeration(E)(value) && value || fallback] *)
Definition enumerated `{Utils} (E : Enumeration) (value : Value) (fallback : string)
  : Value :=
  JS.or (JS.and (VBool (validate_enumeration E value)) value) (VString fallback).

(** BaseComponent: [tracking] *)
Definition tracking : Enumeration := [("ON", "on"); ("OFF", "off")].

Definition get_tracking (c : Component) : Value :=
  JS.or (JS.or (field "_tracking" c) (attributeValue "tracking" c)) (VString "on").

Definition set_tracking `{Utils} (value : Value) : Eff Component unit :=
  let value := transform_toLowerCase value in
  assignField "_tracking" (enumerated tracking value "on").

(** [classList.remove(...tokens)] and [classList.add(...tokens)], for
    tokens the methods accept *)
Definition classList_remove (tokens : list string) (l : list string) : list string :=
  filter (fun t => t ∉ tokens) l.
Definition classList_add (tokens : list string) (l : list string) : list string :=
  fold_left (fun l t => if bool_decide (t ∈ l) then l else l ++ [t]) tokens l.

(** A token that [classList.add] and [classList.remove] accept: it is not
    empty and has no ASCII white space.  The methods throw on any other. *)
Definition validToken (t : string) : bool :=
  negb (String.eqb t "") &&
  forallb (fun c => let n := nat_of_ascii c in
                    negb ((n =? 9)%nat || (n =? 10)%nat || (n =? 12)%nat ||
                          (n =? 13)%nat || (n =? 32)%nat))
          (list_ascii_of_string t).

(** BaseButton: [variant] and [size] *)
Definition variant : Enumeration :=
  [("CTA", "cta"); ("PRIMARY", "primary"); ("SECONDARY", "secondary");
   ("QUIET", "quiet"); ("MINIMAL", "minimal"); ("WARNING", "warning");
   ("ACTION", "action"); ("QUIET_ACTION", "quietaction");
   ("QUIET_SECONDARY", "quietsecondary"); ("QUIET_WARNING", "quietwarning");
   ("OVER_BACKGROUND", "overbackground"); ("DEFAULT", "default");
   ("_CUSTOM", "_custom")].

Definition CLASSNAME : string := "_coral-Button".
Definition ACTION_CLASSNAME : string := "_coral-ActionButton".

Definition ALL_VARIANT_CLASSES : list string :=
  ["_coral-Button--cta"; "_coral-Button--primary"; "_coral-Button--secondary";
   "_coral-Button--warning"; "_coral-Button--quiet"; "_coral-ActionButton--quiet";
   "_coral-Button--overBackground"].

Definition variantClass (i : nat) : string := nth i ALL_VARIANT_CLASSES "undefined".

Definition VARIANT_MAP : list (string * list string) :=
  [("cta", [CLASSNAME; variantClass 0]);
   ("primary", [CLASSNAME; variantClass 0]);
   ("secondary", [CLASSNAME; variantClass 2]);
   ("warning", [CLASSNAME; variantClass 3]);
   ("quiet", [CLASSNAME; variantClass 1; variantClass 4]);
   ("minimal", [CLASSNAME; variantClass 2; variantClass 4]);
   ("default", [CLASSNAME; variantClass 1]);
   ("action", [ACTION_CLASSNAME]);
   ("quietaction", [ACTION_CLASSNAME; variantClass 5]);
   ("quietsecondary", [CLASSNAME; variantClass 2; variantClass 4]);
   ("quietwarning", [CLASSNAME; variantClass 3; variantClass 4]);
   ("overbackground", [CLASSNAME; variantClass 6])].

Definition lookup_assoc {A} (k : string) (l : list (string * A)) : option A :=
  snd <$> find (fun p => String.eqb (fst p) k) l.

(** [_updateLabel(label)].  Its first statement reads [self], which is
    declared by the [const] of its second statement: when no label is
    passed, evaluating [label || self._elements.label] throws. *)
Definition _updateLabel (label : option Element) : Eff Component unit :=
  match label with
  | None => throw "ReferenceError: self"
  | Some l =>
      _variant <- gets (field "_variant") ;;
      modify (set_labelClasses (fun m =>
        let classes := classList_remove ["_coral-Button-label"; "_coral-ActionButton-label"]
                                        (default [] (m !! l)) in
        let classes :=
          if bool_decide (_variant <> VString "_custom") then
            if bool_decide (_variant = VString "action" \/ _variant = VString "quietaction")
            then classList_add ["_coral-ActionButton-label"] classes
            else classList_add ["_coral-Button-label"] classes
          else classes in
        <[l := classes]> m))
  end.

Definition get_variant (c : Component) : Value :=
  JS.or (field "_variant" c) (VString "default").

Definition set_variant `{Utils} (K : ElementClass) (value : Value)
  : Eff Component unit :=
  let value := transform_toLowerCase value in
  let value := enumerated variant value "default" in
  _updateProperty "_variant" value (fun value =>
    _reflectAttribute K "variant" value ;;
    modify (set_classList (classList_remove [CLASSNAME; ACTION_CLASSNAME])) ;;
    modify (set_classList (classList_remove ALL_VARIANT_CLASSES)) ;;
    (if bool_decide (value = VString "_custom") then
       modify (set_classList (classList_remove [CLASSNAME]))
     else
       match lookup_assoc (String_of value) VARIANT_MAP with
       | Some classes => modify (set_classList (classList_add classes))
       | None => throw "TypeError: VARIANT_MAP[value] is not iterable"
       end ;;
       if bool_decide (value = VString "action" \/ value = VString "quietaction")
       then modify (set_classList (classList_remove [CLASSNAME]))
       else ret tt) ;;
    _updateLabel None).

Definition size : Enumeration := [("MEDIUM", "M"); ("LARGE", "L")].

Definition get_size (c : Component) : Value :=
  JS.or (field "_size" c) (VString "M").

Definition set_size `{Utils} (K : ElementClass) (value : Value)
  : Eff Component unit :=
  let value := transform_toUpperCase value in
  let value := enumerated size value "M" in
  _updateProperty "_size" value (fun value => _reflectAttribute K "size" value).

(** QuickActionsItem: [type], [href], [icon] and the mutation observer *)
Definition type : Enumeration := [("BUTTON", "button"); ("ANCHOR", "anchor")].

(** [this._messenger.postMessage(message)] *)
Definition postMessage (message : string) : Eff Component unit :=
  modify (set_posted (fun l => l ++ [message])).

Definition get_type (c : Component) : Value :=
  JS.or (field "_type" c) (VString "button").

Definition set_type `{Utils} (K : ElementClass) (value : Value)
  : Eff Component unit :=
  let value := VString (toLowerCase (transform_string value)) in
  let value := enumerated type value "button" in
  old <- gets (field "_type") ;;
  if validate_valueMustChange old value then
    assignField "_type" value ;;
    _reflectAttribute K "type" value ;;
    postMessage "coral-quickactions-item:_typechanged"
  else ret tt.

Definition get_href (c : Component) : Value :=
  JS.or (field "_href" c) (VString "").

Definition set_href `{Utils} (K : ElementClass) (value : Value)
  : Eff Component unit :=
  let value := VString (transform_string value) in
  old <- gets (field "_href") ;;
  if validate_valueMustChange old value then
    assignField "_href" value ;;
    _reflectAttribute K "href" value ;;
    postMessage "coral-quickactions-item:_hrefchanged"
  else ret tt.

Definition set_icon `{Utils} (K : ElementClass) (value : Value)
  : Eff Component unit :=
  let value := VString (transform_string value) in
  old <- gets (field "_icon") ;;
  if validate_valueMustChange old value then
    assignField "_icon" value ;;
    _reflectAttribute K "icon" value ;;
    postMessage "coral-quickactions-item:_iconchanged"
  else ret tt.

Definition _onMutation : Eff Component unit :=
  postMessage "coral-quickactions-item:_contentchanged".

(** BaseOverlay: [trapFocus], [returnFocus] and [scrollOnFocus] *)

(** [vent.on(eventName, selector, ...)] and [vent.off(eventName, selector, ...)] *)
Definition vent_on (eventName selector : string) : Eff Component unit :=
  modify (set_ventListeners (fun l => l ++ [(eventName, selector)])).
Definition vent_off (eventName selector : string) : Eff Component unit :=
  modify (set_ventListeners (filter (fun p => p <> (eventName, selector)))).

Definition removeElement (el : Element) (l : list Element) : list Element :=
  filter (fun x => x <> el) l.

Definition get_trapFocus `{OverlayEnums} (c : Component) : Value :=
  JS.or (field "_trapFocus" c) (VString trapFocus_OFF).

Definition set_trapFocus `{Utils} `{OverlayEnums} (T : OverlayTemplate) (value : Value)
  : Eff Component unit :=
  let value := transform_toLowerCase value in
  let value := enumerated trapFocus value trapFocus_OFF in
  _updateProperty "_trapFocus" value (fun value =>
    if bool_decide (value = VString trapFocus_ON) then
      t <- gets tabIndex ;;
      (if t <? 0 then modify (set_tabIndex 0) else ret tt) ;;
      modify (set_childElements (fun l =>
        topTabCapture T :: removeElement (topTabCapture T) l)) ;;
      modify (set_childElements (fun l =>
        removeElement (intermediateTabCapture T) l ++ [intermediateTabCapture T])) ;;
      modify (set_childElements (fun l =>
        removeElement (bottomTabCapture T) l ++ [bottomTabCapture T])) ;;
      vent_on "keydown" "" ;;
      vent_on "focus" "[coral-tabcapture]"
    else if bool_decide (value = VString trapFocus_OFF) then
      modify (set_childElements (removeElement (topTabCapture T))) ;;
      modify (set_childElements (removeElement (intermediateTabCapture T))) ;;
      modify (set_childElements (removeElement (bottomTabCapture T))) ;;
      vent_off "keydown" "" ;;
      vent_off "focus" "[coral-tabcapture]"
    else ret tt).

Definition get_returnFocus `{OverlayEnums} (c : Component) : Value :=
  JS.or (field "_returnFocus" c) (VString returnFocus_OFF).

Definition set_returnFocus `{Utils} `{OverlayEnums} (value : Value)
  : Eff Component unit :=
  let value := transform_toLowerCase value in
  assignField "_returnFocus" (enumerated returnFocus value returnFocus_OFF).

Definition get_scrollOnFocus `{OverlayEnums} (c : Component) : Value :=
  JS.or (field "_scrollOnFocus" c) (VString scrollOnFocus_ON).

Definition set_scrollOnFocus `{Utils} `{OverlayEnums} (value : Value)
  : Eff Component unit :=
  let value := transform_toLowerCase value in
  assignField "_scrollOnFocus" (enumerated scrollOnFocus value scrollOnFocus_ON).

(** The enumerated properties, with their setters and getters. *)
Inductive Property : Type :=
| Tracking | ItemType | Variant | Size | TrapFocus | ReturnFocus | ScrollOnFocus.

Section Properties.
Context `{Utils} `{OverlayEnums} (K : ElementClass) (T : OverlayTemplate).

Definition enumeration (p : Property) : Enumeration :=
  match p with
  | Tracking => tracking
  | ItemType => type
  | Variant => variant
  | Size => size
  | TrapFocus => trapFocus
  | ReturnFocus => returnFocus
  | ScrollOnFocus => scrollOnFocus
  end.

(** The documented default of the property. *)
Definition fallback (p : Property) : string :=
  match p with
  | Tracking => "on"
  | ItemType => "button"
  | Variant => "default"
  | Size => "M"
  | TrapFocus => trapFocus_OFF
  | ReturnFocus => returnFocus_OFF
  | ScrollOnFocus => scrollOnFocus_ON
  end.

(** The first statement of the setter: the case of the input is
    normalized. *)
Definition normalized (p : Property) (value : Value) : Value :=
  match p with
  | ItemType => VString (toLowerCase (transform_string value))
  | Size => transform_toUpperCase value
  | _ => transform_toLowerCase value
  end.

Definition setter (p : Property) (value : Value) : Eff Component unit :=
  match p with
  | Tracking => set_tracking value
  | ItemType => set_type K value
  | Variant => set_variant K value
  | Size => set_size K value
  | TrapFocus => set_trapFocus T value
  | ReturnFocus => set_returnFocus value
  | ScrollOnFocus => set_scrollOnFocus value
  end.

Definition getter (p : Property) (c : Component) : Value :=
  match p with
  | Tracking => get_tracking c
  | ItemType => get_type c
  | Variant => get_variant c
  | Size => get_size c
  | TrapFocus => get_trapFocus c
  | ReturnFocus => get_returnFocus c
  | ScrollOnFocus => get_scrollOnFocus c
  end.
End Properties.

(** What a setter settles on: [validate.enumeration(E)(value) && value ||
    default], for the normalized input. *)
Definition settled `{Utils} `{OverlayEnums} (p : Property) (value : Value) : Value :=
  enumerated (enumeration p) (normalized p value) (fallback p).

(** ** Sample parameters, used to exercise the definitions *)

(** An implementation of the helpers that meets [UtilsSpec], whose
    [validate.enumeration] accepts the members only. *)
Definition sample_utils : Utils := {|
  transform_toLowerCase v :=
    match v with VString s => VString (toLowerCase s) | _ => v end;
  transform_toUpperCase v :=
    match v with VString s => VString (toUpperCase s) | _ => v end;
  transform_string v :=
    match v with VUndefined | VNull => "" | _ => String_of v end;
  validate_enumeration E v :=
    match v with VString s => bool_decide (s ∈ members E) | _ => false end;
  validate_valueMustChange a b := negb (bool_decide (a = b))
|}.

(** Helpers whose [validate.enumeration] accepts the name [constructor]
    besides the members, as a validation that looks the value up among the
    properties of an object does. *)
Definition lookup_utils : Utils := {|
  transform_toLowerCase v :=
    match v with VString s => VString (toLowerCase s) | _ => v end;
  transform_toUpperCase v :=
    match v with VString s => VString (toUpperCase s) | _ => v end;
  transform_string v :=
    match v with VUndefined | VNull => "" | _ => String_of v end;
  validate_enumeration E v :=
    match v with
    | VString s => bool_decide (s ∈ members E) || String.eqb s "constructor"
    | _ => false
    end;
  validate_valueMustChange a b := negb (bool_decide (a = b))
|}.

Definition sample_enums : OverlayEnums := {|
  trapFocus := [("ON", "on"); ("OFF", "off")];
  trapFocus_ON := "on";
  trapFocus_OFF := "off";
  returnFocus := [("ON", "on"); ("OFF", "off")];
  returnFocus_OFF := "off";
  scrollOnFocus := [("ON", "on"); ("OFF", "off")];
  scrollOnFocus_ON := "on"
|}.

(** A class that observes [variant] and whose property assignment records
    the call in the field [assigned]. *)
Definition sample_class : ElementClass :=
  mkElementClass ["tracking"; "variant"; "size"; "type"; "href"] ∅
    (fun name value c => set_fields (insert "assigned" (VString name)) c)
    (fun name c => field name c) false.

Definition sample_template : OverlayTemplate := mkOverlayTemplate 100 101 102.

End Component.


(** * The class expressions of the sources *)

Module Classes.

(** A class is [HTMLElement] or a class body that extends a class.  A class
    body is given by a name for the layer and the methods and accessors it
    declares. *)
Inductive Class : Type :=
| HTMLElement
| Extends (layer : string) (declares : list string) (superClass : Class).

(** [const BaseComponent = (superClass) => class extends superClass {...}] *)
Definition BaseComponent (superClass : Class) : Class :=
  Extends "BaseComponent"
    ["tracking"; "trackingFeature"; "trackingElement"; "_componentName";
     "_filterKeys"; "_delegateEvents"; "_getContentZone"; "_setContentZone";
     "_updateProperty"; "_reflectAttribute"; "_trackEvent"; "toString"; "on";
     "off"; "trigger"; "set"; "get"; "show"; "hide"; "_skipConnectedCallback";
     "attributeChangedCallback"; "connectedCallback"; "render";
     "disconnectedCallback"]
    superClass.

(** [const BaseLabellable = (superClass) => class extends superClass {...}] *)
Definition BaseLabellable (superClass : Class) : Class :=
  Extends "BaseLabellable"
    ["_observeLabel"; "_toggleIconAriaHidden"; "attributeChangedCallback"]
    superClass.

(** [const BaseButton = (superClass) => class extends BaseLabellable(superClass) {...}] *)
Definition BaseButton (superClass : Class) : Class :=
  Extends "BaseButton"
    ["label"; "iconPosition"; "icon"; "iconSize"; "iconAutoAriaLabel"; "size";
     "selected"; "value"; "block"; "variant"; "trackingElement"; "_onClick";
     "_updateIcon"; "_getIconElement"; "_onMouseDown"; "_updateLabel";
     "_contentZoneTagName"; "_contentZones"; "render"]
    (BaseLabellable superClass).

(** [const BaseOverlay = (superClass) => class extends superClass {...}] *)
Definition BaseOverlay (superClass : Class) : Class :=
  Extends "BaseOverlay"
    ["trapFocus"; "returnFocus"; "returnFocusToElement";
     "elementToFocusWhenHidden"; "scrollOnFocus"; "focusOnShow"; "open";
     "_closeChildOverlays"; "_debounce"; "_isTopOverlay"; "_pushOverlay";
     "_popOverlay"; "_showBackdrop"; "_hideBackdrop"; "_handleRootKeypress";
     "_handleTabCaptureFocus"; "_handleFocus"; "_handleReturnFocus";
     "_focusOn"; "_getFocusableElements"; "_getFocusableElement"; "show";
     "hide"; "returnFocusTo"; "connectedCallback"; "render";
     "disconnectedCallback"]
    superClass.

(** [const Decorator = (superClass) => class extends superClass {...}] *)
Definition Decorator (superClass : Class) : Class :=
  Extends "Decorator"
    ["_updateCallback"; "connectedCallback"; "disconnectedCallback"]
    superClass.

(** [const QuickActionsItem = Decorator(class extends BaseComponent(HTMLElement) {...})] *)
Definition QuickActionsItem : Class :=
  Decorator
    (Extends "QuickActionsItem"
       ["content"; "href"; "icon"; "type"; "trackingElement"; "_onMutation";
        "_updateCallback"; "connectedCallback"; "disconnectedCallback"; "render"]
       (BaseComponent HTMLElement)).

(** [class Playground extends BaseComponent(HTMLElement) {...}] *)
Definition Playground : Class :=
  Extends "Playground"
    ["livereload"; "screen"; "code"; "_debounceTrigger"; "_onRunClick";
     "_onShareClick"; "_onLiveReloadChange"; "_onScreenChange"; "run"; "share";
     "connectedCallback"]
    (BaseComponent HTMLElement).

(** The class a class extends. *)
Definition superClassOf (k : Class) : option Class :=
  match k with
  | HTMLElement => None
  | Extends _ _ superClass => Some superClass
  end.

(** The layers of a class, the class itself first. *)
Fixpoint layers (k : Class) : list string :=
  match k with
  | HTMLElement => []
  | Extends layer _ superClass => layer :: layers superClass
  end.

(** The class at the bottom of the chain. *)
Fixpoint root (k : Class) : Class :=
  match k with
  | HTMLElement => HTMLElement
  | Extends _ _ superClass => root superClass
  end.

(** Method lookup along the prototype chain: the layer that declares the
    name, or [None] when the name is left to [HTMLElement]. *)
Fixpoint resolve (name : string) (k : Class) : option string :=
  match k with
  | HTMLElement => None
  | Extends layer declares superClass =>
      if bool_decide (name ∈ declares) then Some layer
      else resolve name superClass
  end.

(** The mixins of the sources. *)
Inductive Mixin : Type :=
| MBaseComponent | MBaseLabellable | MBaseButton | MBaseOverlay | MDecorator.

Definition applyMixin (m : Mixin) (superClass : Class) : Class :=
  match m with
  | MBaseComponent => BaseComponent superClass
  | MBaseLabellable => BaseLabellable superClass
  | MBaseButton => BaseButton superClass
  | MBaseOverlay => BaseOverlay superClass
  | MDecorator => Decorator superClass
  end.

(** A method never gives a message to the Messenger of the component. *)
Definition never_posts (m : Eff Component.Component unit) : Prop :=
  forall c, Component.posted (exec m c) = Component.posted c.

End Classes.


(** * BaseComponent.js: content zones *)

Module ContentZone.
Import JS.

(** The part of the document [_setContentZone] acts on. *)
Record Dom : Type := mkDom {
  tagNameOf : gmap nat string;              (* [tagName], upper-case in HTML *)
  parentOf : gmap nat Element;              (* [parentNode] *)
  childrenOf : gmap nat (list Element);     (* the children of a parent *)
  contentZoned : gset nat                   (* [_contentZoned = true] *)
}.

(** The component: itself as an element, its [_elements], the document and
    what was given to [commons._log]. *)
Record Host : Type := mkHost {
  self : Element;
  _elements : gmap string Value;
  dom : Dom;
  logged : list (string * string)
}.

Definition set_elements (f : gmap string Value -> gmap string Value) (h : Host) : Host :=
  mkHost (self h) (f (_elements h)) (dom h) (logged h).
Definition set_dom (f : Dom -> Dom) (h : Host) : Host :=
  mkHost (self h) (_elements h) (f (dom h)) (logged h).
Definition set_logged (f : list (string * string) -> list (string * string)) (h : Host) : Host :=
  mkHost (self h) (_elements h) (dom h) (f (logged h)).

(** The [options] argument. *)
Record Options : Type := mkOptions {
  handle : string;
  tagName : option string;
  set : option (Value -> Eff Host unit);
  insert : option (Value -> Eff Host unit)
}.

(** Taking an element out of its parent. *)
Definition detach (e : Element) (d : Dom) : Dom :=
  match parentOf d !! e with
  | Some p =>
      mkDom (tagNameOf d) (delete e (parentOf d))
            (<[p := filter (fun x => x <> e) (default [] (childrenOf d !! p))]> (childrenOf d))
            (contentZoned d)
  | None => d
  end.

(** [parent.removeChild(e)] for the parent of [e] *)
Definition removeChild (e : Element) (d : Dom) : Dom := detach e d.

(** An element with its ancestors: itself, its parent, and so on; the walk
    takes as many steps as there are elements with a parent. *)
Fixpoint lineage (steps : nat) (parents : gmap nat Element) (e : Element)
  : list Element :=
  e :: match steps with
       | O => []
       | S steps' =>
           match parents !! e with
           | Some p => lineage steps' parents p
           | None => []
           end
       end.

(** [a.contains(e)]: [a] is [e] or an ancestor of [e]. *)
Definition contains (parents : gmap nat Element) (a e : Element) : bool :=
  bool_decide (a ∈ lineage (size parents) parents e).

(** The document once [e] is the last child of [parent]. *)
Definition appended (parent e : Element) (d : Dom) : Dom :=
  let d := detach e d in
  mkDom (tagNameOf d) (<[e := parent]> (parentOf d))
        (<[parent := default [] (childrenOf d !! parent) ++ [e]]> (childrenOf d))
        (contentZoned d).

(** The document once [newChild] is in the place of [oldChild]. *)
Definition replaced (newChild oldChild : Element) (d : Dom) : Dom :=
  if bool_decide (newChild = oldChild) then d
  else
    match parentOf d !! oldChild with
    | Some p =>
        let d := detach newChild d in
        mkDom (tagNameOf d)
              (<[newChild := p]> (delete oldChild (parentOf d)))
              (<[p := (fun x => if bool_decide (x = oldChild) then newChild else x)
                        <$> default [] (childrenOf d !! p)]> (childrenOf d))
              (contentZoned d)
    | None => d
    end.

(** [oldNode && oldNode.parentNode]: the element held by the handle, when it
    is in the document. *)
Definition attachedNode (oldNode : Value) (d : Dom) : option Element :=
  match asElement oldNode with
  | Some e => if bool_decide (is_Some (parentOf d !! e)) then Some e else None
  | None => None
  end.

(** [value.tagName.toLowerCase()] *)
Definition lowerTagName (e : Element) (d : Dom) : string :=
  toLowerCase (default "" (tagNameOf d !! e)).

(** [parent.appendChild(e)]: an element cannot go under itself or under one
    of its descendants. *)
Definition appendChild (parent e : Element) : Eff Host unit :=
  d <- gets dom ;;
  if contains (parentOf d) e parent then throw "HierarchyRequestError"
  else modify (set_dom (appended parent e)).

(** [parent.replaceChild(newChild, oldChild)] for the parent of [oldChild] *)
Definition replaceChild (newChild oldChild : Element) : Eff Host unit :=
  d <- gets dom ;;
  match parentOf d !! oldChild with
  | Some p =>
      if contains (parentOf d) newChild p then throw "HierarchyRequestError"
      else modify (set_dom (replaced newChild oldChild))
  | None => ret tt
  end.

(** [commons._log(level, message)] *)
Definition _log (level message : string) : Eff Host unit :=
  modify (set_logged (fun l => l ++ [(level, message)])).

(** [expectedTagName && value.tagName.toLowerCase() !== expectedTagName] *)
Definition wrongTag (expectedTagName : option string) (e : Element) (d : Dom) : bool :=
  match expectedTagName with
  | Some expected => negb (String.eqb expected "") && negb (String.eqb (lowerTagName e d) expected)
  | None => false
  end.

(** [_setContentZone(property, value, options)] *)
Definition _setContentZone (property : string) (value : Value) (options : Options)
  : Eff Host unit :=
  (if truthy value then
     match asElement value with
     | None => throw "DOMException: The provided value is not of type HTMLElement."
     | Some v =>
         d <- gets dom ;;
         if wrongTag (tagName options) v d
         then throw "DOMException: The new element is not of the expected type."
         else
           oldNode <- gets (fun h => default VUndefined (_elements h !! handle options)) ;;
           modify (set_dom (fun d =>
             mkDom (tagNameOf d) (parentOf d) (childrenOf d) ({[v]} ∪ contentZoned d))) ;;
           match insert options with
           | Some insert =>
               d <- gets dom ;;
               match attachedNode oldNode d with
               | Some old => modify (set_dom (removeChild old))
               | None => ret tt
               end ;;
               insert value
           | None =>
               d <- gets dom ;;
               match attachedNode oldNode d with
               | Some old =>
                   _log "warn" "no insert method for the content zone, falling back to replace" ;;
                   replaceChild v old
               | None =>
                   _log "error" "no insert method for the content zone, falling back to append" ;;
                   s <- gets self ;;
                   appendChild s v
               end
           end
     end
   else
     oldNode <- gets (fun h => default VUndefined (_elements h !! handle options)) ;;
     d <- gets dom ;;
     match attachedNode oldNode d with
     | Some old => modify (set_dom (removeChild old))
     | None => ret tt
     end) ;;
  modify (set_elements (fun m => <[handle options := value]> m)) ;;
  match set options with
  | Some additionalSetter => additionalSetter value
  | None => ret tt
  end.


(** Sample data: a button with a label element and a foreign element. *)
Definition sample_host : Host :=
  mkHost 1 {[ "label" := VObject "[object HTMLElement]" (Some 2) ]}
    (mkDom {[ 1%nat := "BUTTON"; 2%nat := "CORAL-BUTTON-LABEL"; 3%nat := "DIV" ]}
           {[ 2%nat := 1%nat ]} {[ 1%nat := [2%nat] ]} ∅)
    [].

Definition sample_options : Options :=
  mkOptions "label" (Some "coral-button-label") None
    (Some (fun value =>
             match asElement value with
             | Some v => s <- gets self ;; appendChild s v
             | None => ret tt
             end)).

End ContentZone.


(** * BaseComponent.js: global listeners and the connection callbacks *)

Module GlobalEvents.

(** An entry of [_globalEvents]: [{eventName, selector, listener, isCapture}].
    A listener is a function object; it is given by its identity. *)
Record EventListener : Type := mkEventListener {
  eventName : string;
  selector : option string;
  listener : nat;
  isCapture : bool
}.

(** An entry of [_globalKeys]: [{keyCombo, selector, listener}] *)
Record KeyListener : Type := mkKeyListener {
  keyCombo : string;
  keySelector : option string;
  keyListener : nat
}.

#[export] Instance EventListener_eq_dec : EqDecision EventListener.
Proof. solve_decision. Defined.
#[export] Instance KeyListener_eq_dec : EqDecision KeyListener.
Proof. solve_decision. Defined.

(** Modelled from the spec: the [Keys] class of coral-utils is not part of
    the sources, which use its methods [on], [off], [init] and [destroy].
    An instance holds the key listeners it was given; [destroy(true)] takes
    its listeners off the window and [init(true)] puts them back.  [on]
    throws for a key combination in which it does not recognise a key:
    [accepts] tells the combinations it takes. *)
Record Keys : Type := mkKeys {
  combos : list KeyListener;
  initialised : bool;
  accepts : string -> bool
}.

(** The component, as far as the callbacks read and write it. *)
Record Component : Type := mkComponent {
  _globalEvents : option (list EventListener);
  _globalKeys : option (list KeyListener);
  _keys : option Keys;
  _disconnected : option bool;
  _rendered : bool
}.

(** The component and [events], the listener registry of the window that
    all components share. *)
Record World : Type := mkWorld {
  events : list EventListener;
  component : Component
}.

Definition set_events (f : list EventListener -> list EventListener) (w : World) : World :=
  mkWorld (f (events w)) (component w).
Definition set_component (f : Component -> Component) (w : World) : World :=
  mkWorld (events w) (f (component w)).
Definition set_keys (k : option Keys) (c : Component) : Component :=
  mkComponent (_globalEvents c) (_globalKeys c) k (_disconnected c) (_rendered c).
Definition set_disconnected (b : option bool) (c : Component) : Component :=
  mkComponent (_globalEvents c) (_globalKeys c) (_keys c) b (_rendered c).
Definition set_rendered (b : bool) (c : Component) : Component :=
  mkComponent (_globalEvents c) (_globalKeys c) (_keys c) (_disconnected c) b.

(** Modelled from the spec: [events] of coral-utils, the event registry of
    the window, is not part of the sources.
    [events.on(eventName, selector, listener, isCapture)] adds a listener;
    [events.off(...)] removes the listeners of that event name, listener and
    phase, with that selector when one is given. *)
Definition event_matches (e x : EventListener) : bool :=
  bool_decide (eventName x = eventName e) &&
  bool_decide (listener x = listener e) &&
  bool_decide (isCapture x = isCapture e) &&
  match selector e with
  | Some s => bool_decide (selector x = Some s)
  | None => true
  end.

Definition events_on (e : EventListener) : Eff World unit :=
  modify (set_events (fun l => l ++ [e])).
Definition events_off (e : EventListener) : Eff World unit :=
  modify (set_events (filter (fun x => event_matches e x = false))).

Definition key_matches (k x : KeyListener) : bool :=
  bool_decide (keyCombo x = keyCombo k) &&
  bool_decide (keyListener x = keyListener k) &&
  match keySelector k with
  | Some s => bool_decide (keySelector x = Some s)
  | None => true
  end.

(** [keys.on(...)], [keys.off(...)], [keys.init(true)] and
    [keys.destroy(true)] where [keys] is [self._keys]: a [TypeError] when
    the component has no [Keys] instance. *)
Definition withKeys (f : Keys -> Keys) : Eff World unit :=
  k <- gets (fun w => _keys (component w)) ;;
  match k with
  | Some keys => modify (set_component (set_keys (Some (f keys))))
  | None => throw "TypeError: keys is undefined"
  end.

Definition keys_on (k : KeyListener) : Eff World unit :=
  ks <- gets (fun w => _keys (component w)) ;;
  match ks with
  | Some keys =>
      if accepts keys (keyCombo k)
      then modify (set_component (set_keys
                     (Some (mkKeys (combos keys ++ [k]) (initialised keys) (accepts keys)))))
      else throw "Error: key not recognized"
  | None => throw "TypeError: keys is undefined"
  end.
Definition keys_off (k : KeyListener) : Eff World unit :=
  withKeys (fun keys =>
    mkKeys (filter (fun x => key_matches k x = false) (combos keys)) (initialised keys)
           (accepts keys)).
Definition keys_init : Eff World unit :=
  withKeys (fun keys => mkKeys (combos keys) true (accepts keys)).
Definition keys_destroy : Eff World unit :=
  withKeys (fun keys => mkKeys (combos keys) false (accepts keys)).

(** A [for] loop over an array. *)
Fixpoint forEach {A} (f : A -> Eff World unit) (l : list A) : Eff World unit :=
  match l with
  | [] => ret tt
  | x :: l' => f x ;; forEach f l'
  end.

(** [delegateGlobalEvents.call(self)] *)
Definition delegateGlobalEvents : Eff World unit :=
  globalEvents <- gets (fun w => _globalEvents (component w)) ;;
  globalKeys <- gets (fun w => _globalKeys (component w)) ;;
  keys <- gets (fun w => _keys (component w)) ;;
  match globalEvents with
  | Some l => forEach events_on l
  | None => ret tt
  end ;;
  match globalKeys with
  | Some l => forEach keys_on l
  | None => ret tt
  end ;;
  match keys with
  | Some _ => keys_init
  | None => ret tt
  end.

(** [undelegateGlobalEvents.call(self)] *)
Definition undelegateGlobalEvents : Eff World unit :=
  globalEvents <- gets (fun w => _globalEvents (component w)) ;;
  globalKeys <- gets (fun w => _globalKeys (component w)) ;;
  keys <- gets (fun w => _keys (component w)) ;;
  match globalEvents with
  | Some l => forEach events_off l
  | None => ret tt
  end ;;
  match globalKeys with
  | Some l => forEach keys_off l
  | None => ret tt
  end ;;
  match keys with
  | Some _ => keys_destroy
  | None => ret tt
  end.

(** [render()] *)
Definition render : Eff World unit :=
  modify (set_component (set_rendered true)).

(** [connectedCallback()] *)
Definition connectedCallback : Eff World unit :=
  d <- gets (fun w => _disconnected (component w)) ;;
  (if bool_decide (d = Some true) then delegateGlobalEvents else ret tt) ;;
  modify (set_component (set_disconnected (Some false))) ;;
  r <- gets (fun w => _rendered (component w)) ;;
  if negb r then render else ret tt.

(** [disconnectedCallback()] *)
Definition disconnectedCallback : Eff World unit :=
  modify (set_component (set_disconnected (Some true))) ;;
  undelegateGlobalEvents.

(** ** Stated properties *)

(** A listener that none of the given [off] calls removes. *)
Definition unmatchedEvent (l : list EventListener) (x : EventListener) : bool :=
  forallb (fun e => negb (event_matches e x)) l.

(** The listeners the component has recorded. *)
Definition recordedEvents (w : World) : list EventListener :=
  default [] (_globalEvents (component w)).
Definition recordedKeys (w : World) : list KeyListener :=
  default [] (_globalKeys (component w)).

(** The key listeners held by the [Keys] instance of the component. *)
Definition attachedKeys (w : World) : list KeyListener :=
  match _keys (component w) with
  | Some keys => combos keys
  | None => []
  end.




(** A component that recorded global key listeners has a [Keys] instance,
    which accepts their key combinations.  [_delegateEvents] leaves a
    component in this state when it returns: it attaches the recorded
    listeners right after recording them, which throws without the instance
    and for a combination that the instance does not accept. *)
Definition keysReady (w : World) : Prop :=
  recordedKeys w <> [] ->
  exists keys, _keys (component w) = Some keys /\
               Forall (fun k => accepts keys (keyCombo k) = true) (recordedKeys w).



(** The connection callbacks the browser invokes. *)
Inductive Callback : Type := Connected | Disconnected.




(** Sample data: a disconnected component that recorded a global key
    listener and has no [Keys] instance. *)
Definition keyless_world : World :=
  mkWorld [] (mkComponent None (Some [mkKeyListener "escape.CoralComponent" None 8])
                          None (Some true) true).

End GlobalEvents.


(** * Playground.js: the sharing query *)

Module Playground.

Local Open Scope Z_scope.

(** ** What the sources import *)

(** [rawdeflate] and [rawinflate] of the deflate-js library.  [rawinflate]
    is taken on the bytes it reads: the library reads each element of its
    input through [& 0xff], which the caller side models with [toByte]. *)
Class Deflate : Type := {
  rawdeflate : list Z -> list Z;
  rawinflate : list Z -> list Z
}.

Definition byte (b : Z) : Prop := 0 <= b < 256.

(** What a DEFLATE codec provides: the output of [rawdeflate] is an array
    of bytes that [rawinflate] turns back into the input.  The output may be
    empty for the empty input only (as it is in deflate-js); [_uncompress]
    then hands [rawinflate] the array [['']] that [split] makes of the empty
    string, whose one element reads as the byte 0, and [rawinflate] finds no
    data in it. *)
Class DeflateSpec (D : Deflate) : Prop := {
  rawdeflate_bytes : forall bs, Forall byte bs -> Forall byte (rawdeflate bs);
  rawinflate_rawdeflate : forall bs,
    Forall byte bs -> rawdeflate bs <> [] -> rawinflate (rawdeflate bs) = bs;
  rawdeflate_empty : forall bs,
    Forall byte bs -> rawdeflate bs = [] -> bs = [] /\ rawinflate [0] = []
}.

(** [decodeURI] of the language: it returns its argument when there is no
    escape sequence in it, and may throw a [URIError] otherwise. *)
Class URI : Type := {
  decodeURI : string -> Completion string
}.

Definition percent : ascii := ascii_of_nat 37.

Class URISpec (R : URI) : Prop := {
  decodeURI_plain : forall s,
    percent ∉ list_ascii_of_string s -> decodeURI s = Normal s
}.

(** ** Strings and arrays *)

(** [char.charCodeAt(0)] and [String.fromCharCode(byte)]; a character of a
    Rocq string is one whose code fits in one byte. *)
Definition charCodeAt0 (c : ascii) : Z := Z.of_nat (nat_of_ascii c).
Definition fromCharCode (b : Z) : ascii := ascii_of_nat (Z.to_nat (b mod 256)).

Definition comma : ascii := ascii_of_nat 44.

(** [Array.prototype.toString]: the elements joined by commas. *)
Fixpoint join (l : list (list ascii)) : list ascii :=
  match l with
  | [] => []
  | [x] => x
  | x :: l' => x ++ comma :: join l'
  end.

(** [string.split(',')] *)
Fixpoint split (s : list ascii) : list (list ascii) :=
  match s with
  | [] => [[]]
  | c :: s' =>
      if Ascii.eqb c comma then [] :: split s'
      else match split s' with
           | h :: t => (c :: h) :: t
           | [] => [[c]]
           end
  end.

(** There is no comma in the string. *)
Definition no_comma (s : list ascii) : bool :=
  forallb (fun c => negb (Ascii.eqb c comma)) s.

(** The decimal notation of a number, as characters. *)
Definition decimalChars (n : Z) : list ascii := list_ascii_of_string (JS.decimal n).

(** [element & 0xff] for an element that is a string: the string is
    converted to a number first.  The empty string is 0 and a decimal
    integer is its value.  Every other string is taken as 0 here, as [&]
    takes [NaN]; the notations of the language that [_compress] never
    writes (a sign, a fraction, an exponent, [0x], [0b], [0o], white space
    around the digits) are not read as the language reads them. *)
Definition toNumber (s : list ascii) : Z :=
  match s with
  | [] => 0
  | _ => match NilZero.int_of_string (string_of_list_ascii s) with
         | Some i => Z.of_int i
         | None => 0
         end
  end.
Definition toByte (s : list ascii) : Z := Z.land (toNumber s) 255.

(** ** [window.btoa] and [window.atob] *)

Definition alphabet : list ascii :=
  list_ascii_of_string
    "ABCDEFGHIJKLMNOPQRSTUVWXYZabcdefghijklmnopqrstuvwxyz0123456789+/".

Definition equals : ascii := ascii_of_nat 61.

Definition char_of_sextet (n : Z) : ascii := nth (Z.to_nat n) alphabet equals.

Fixpoint index_from (i : Z) (c : ascii) (l : list ascii) : option Z :=
  match l with
  | [] => None
  | x :: l' => if Ascii.eqb x c then Some i else index_from (i + 1) c l'
  end.
Definition sextet_of_char (c : ascii) : option Z := index_from 0 c alphabet.

(** Three bytes give four characters; one or two bytes left over give two
    or three characters and padding. *)
Fixpoint encode (l : list Z) : list ascii :=
  match l with
  | a :: b :: c :: rest =>
      char_of_sextet (a / 4) :: char_of_sextet ((a mod 4) * 16 + b / 16) ::
      char_of_sextet ((b mod 16) * 4 + c / 64) :: char_of_sextet (c mod 64) ::
      encode rest
  | [a; b] =>
      [char_of_sextet (a / 4); char_of_sextet ((a mod 4) * 16 + b / 16);
       char_of_sextet ((b mod 16) * 4); equals]
  | [a] => [char_of_sextet (a / 4); char_of_sextet ((a mod 4) * 16); equals; equals]
  | [] => []
  end.

(** The sextets and the number of padding characters of an encoding. *)
Fixpoint body (l : list Z) : list Z :=
  match l with
  | a :: b :: c :: rest =>
      (a / 4) :: ((a mod 4) * 16 + b / 16) :: ((b mod 16) * 4 + c / 64) :: (c mod 64) ::
      body rest
  | [a; b] => [a / 4; (a mod 4) * 16 + b / 16; (b mod 16) * 4]
  | [a] => [a / 4; (a mod 4) * 16]
  | [] => []
  end.

Fixpoint padding (l : list Z) : nat :=
  match l with
  | _ :: _ :: _ :: rest => padding rest
  | [_; _] => 1
  | [_] => 2
  | [] => 0
  end.

Definition sextet (n : Z) : Prop := 0 <= n < 64.

(** [btoa(data)]: every character of a Rocq string has a code below 256, so
    the call does not throw. *)
Definition btoa (data : list ascii) : list ascii := encode (charCodeAt0 <$> data).

Definition is_whitespace (c : ascii) : bool :=
  let n := nat_of_ascii c in
  (n =? 9)%nat || (n =? 10)%nat || (n =? 12)%nat || (n =? 13)%nat || (n =? 32)%nat.

(** When the length is a multiple of four, one or two [=] at the end are
    removed. *)
Definition remove_padding (l : list ascii) : list ascii :=
  if (Z.of_nat (length l) mod 4 =? 0) then
    match rev l with
    | x :: y :: r =>
        if Ascii.eqb x equals then
          if Ascii.eqb y equals then rev r else rev (y :: r)
        else l
    | [x] => if Ascii.eqb x equals then [] else l
    | [] => l
    end
  else l.

Fixpoint sextets (l : list ascii) : option (list Z) :=
  match l with
  | [] => Some []
  | c :: l' =>
      match sextet_of_char c, sextets l' with
      | Some n, Some ns => Some (n :: ns)
      | _, _ => None
      end
  end.

(** Four characters give three bytes; two or three characters left over
    give one or two bytes, the bits left being dropped. *)
Fixpoint decode (l : list Z) : list Z :=
  match l with
  | a :: b :: c :: d :: rest =>
      (a * 4 + b / 16) :: ((b mod 16) * 16 + c / 4) :: ((c mod 4) * 64 + d) ::
      decode rest
  | [a; b; c] => [a * 4 + b / 16; (b mod 16) * 16 + c / 4]
  | [a; b] => [a * 4 + b / 16]
  | _ => []
  end.

(** [atob(data)] *)
Definition atob (data : list ascii) : Completion (list ascii) :=
  let data := filter (fun c => is_whitespace c = false) data in
  let data := remove_padding data in
  if (Z.of_nat (length data) mod 4 =? 1) then Abrupt "InvalidCharacterError"
  else match sextets data with
       | Some ns => Normal (fromCharCode <$> decode ns)
       | None => Abrupt "InvalidCharacterError"
       end.

(** ** [_compress] and [_uncompress] *)

Definition _compress `{Deflate} (code : string) : string :=
  let bytes := charCodeAt0 <$> list_ascii_of_string code in
  let compressed := rawdeflate bytes in
  string_of_list_ascii (btoa (join (decimalChars <$> compressed))).

Definition _uncompress `{Deflate} (base64 : string) : Completion string :=
  match atob (list_ascii_of_string base64) with
  | Normal bytes =>
      let uncompressed := rawinflate (toByte <$> split bytes) in
      Normal (string_of_list_ascii (fromCharCode <$> uncompressed))
  | Abrupt e => Abrupt e
  end.

(** ** [_parseQueryString], [read] and [share] *)

(** The playground, as far as [share] reads it: [_livereload], [_screen]
    and the value of the editor. *)
Record Settings : Type := mkSettings {
  livereload : bool;
  screen : option string;
  code : string
}.

Definition SCREEN_ENUM : JS.Enumeration :=
  [("FULLSCREEN", "fullscreen"); ("HORIZONTAL", "horizontal"); ("VERTICAL", "vertical")].

Definition PROPERTIES : list string := ["livereload"; "screen"; "code"].

(** The value [share] reads for a property, when it is truthy, as the
    string the template puts in the query. *)
Definition shared `{Deflate} (st : Settings) (property : string) : option string :=
  if String.eqb property "livereload" then
    if livereload st then Some "true" else None
  else if String.eqb property "screen" then
    match screen st with
    | Some s => if String.eqb s "" then None else Some s
    | None => None
    end
  else if String.eqb property "code" then
    if String.eqb (code st) "" then None else Some (_compress (code st))
  else None.

(** [share()] *)
Definition share `{Deflate} (st : Settings) : string :=
  fold_left (fun query property =>
               match shared st property with
               | Some v => query ++ property ++ "=" ++ v ++ "&"
               | None => query
               end)%string
            PROPERTIES "?"%string.

(** The matches of the regular expression of [_parseQueryString] in a
    string, from left to right.  A match is a longest run of characters other
    than [?], [=] and [&] (the first group), followed when the next character
    is [=] by that character and the longest run of characters other than [&]
    (the third group). *)
Inductive Scan : Type :=
| Between                                  (* not inside a match *)
| InKey (key : list ascii)                 (* inside the first group *)
| InValue (key value : list ascii).        (* inside the third group *)

Definition question : ascii := ascii_of_nat 63.
Definition ampersand : ascii := ascii_of_nat 38.

Definition delimiter (c : ascii) : bool :=
  Ascii.eqb c question || Ascii.eqb c equals || Ascii.eqb c ampersand.

Fixpoint matches (m : Scan) (s : list ascii) : list (string * option string) :=
  match s with
  | [] =>
      match m with
      | Between => []
      | InKey k => [(string_of_list_ascii k, None)]
      | InValue k v => [(string_of_list_ascii k, Some (string_of_list_ascii v))]
      end
  | c :: s' =>
      match m with
      | Between => if delimiter c then matches Between s' else matches (InKey [c]) s'
      | InKey k =>
          if Ascii.eqb c equals then matches (InValue k []) s'
          else if delimiter c then (string_of_list_ascii k, None) :: matches Between s'
          else matches (InKey (k ++ [c])) s'
      | InValue k v =>
          if Ascii.eqb c ampersand
          then (string_of_list_ascii k, Some (string_of_list_ascii v)) :: matches Between s'
          else matches (InValue k (v ++ [c])) s'
      end
  end.

(** [objURL[key] = value], for a string [value], on the own properties of
    the object: an assignment to [__proto__] goes to the setter that every
    object inherits, which ignores a string, and makes no own property. *)
Definition assignKey (key value : string) (o : gmap string string) : gmap string string :=
  if String.eqb key "__proto__" then o else <[key := value]> o.

(** The callback of [replace]: [objURL[$1] = decodeURI($3)]; a group that
    takes no part is [undefined], which [decodeURI] reads as a string. *)
Definition record_match `{URI} (objURL : Completion (gmap string string))
    (m : string * option string) : Completion (gmap string string) :=
  match objURL with
  | Normal o =>
      match decodeURI (default "undefined"%string (snd m)) with
      | Normal v => Normal (assignKey (fst m) v o)
      | Abrupt e => Abrupt e
      end
  | Abrupt e => Abrupt e
  end.

(** [_parseQueryString(query)] *)
Definition _parseQueryString `{URI} (query : string) : Completion (gmap string string) :=
  fold_left record_match (matches Between (list_ascii_of_string query)) (Normal ∅).

(** [params[property]], for one of the three properties (no object
    inherits a property of these names): the string, or [undefined]. *)
Definition param (params : gmap string string) (property : string) : JS.Value :=
  match params !! property with
  | Some v => JS.VString v
  | None => JS.VUndefined
  end.

(** One step of the loop of [read]: the property is assigned in every case,
    with [undefined] when the query does not have it. *)
Definition read_property `{Deflate} (params : gmap string string)
    (config : Completion (gmap string JS.Value)) (property : string)
  : Completion (gmap string JS.Value) :=
  match config with
  | Normal cfg =>
      match params !! property with
      | Some v =>
          if String.eqb property "code" && negb (String.eqb v "") then
            match _uncompress v with
            | Normal c => Normal (<[property := JS.VString c]> cfg)
            | Abrupt e => Abrupt e
            end
          else Normal (<[property := param params property]> cfg)
      | None => Normal (<[property := param params property]> cfg)
      end
  | Abrupt e => Abrupt e
  end.

(** [read(query)]: the configuration, by its own properties. *)
Definition read `{Deflate} `{URI} (query : string) : Completion (gmap string JS.Value) :=
  match _parseQueryString query with
  | Normal params =>
      if bool_decide (params = ∅) then Normal ∅
      else fold_left (read_property params) PROPERTIES (Normal ∅)
  | Abrupt e => Abrupt e
  end.

(** ** The shape of a query *)

(** The characters of a query that lists the pairs [kvs], after the
    question mark. *)
Fixpoint chars (kvs : list (string * string)) : list ascii :=
  match kvs with
  | [] => []
  | (k, v) :: r =>
      list_ascii_of_string k ++ equals :: list_ascii_of_string v ++ ampersand :: chars r
  end.

(** The properties among [ps] that [share] puts in the query, with their
    values. *)
Definition pairs `{Deflate} (st : Settings) (ps : list string) : list (string * string) :=
  omap (fun p => (fun v => (p, v)) <$> shared st p) ps.

(** A key that the regular expression reads as one first group. *)
Definition plain_key (k : string) : Prop :=
  k <> ""%string /\
  forallb (fun c => negb (delimiter c)) (list_ascii_of_string k) = true.

(** A value that the regular expression reads as one third group and that
    has no escape sequence. *)
Definition plain_value (v : string) : Prop :=
  (ampersand ∉ list_ascii_of_string v) /\ (percent ∉ list_ascii_of_string v).

Definition plain (kv : string * string) : Prop := plain_key kv.1 /\ plain_value kv.2.

(** The object that [_parseQueryString] fills for a list of matches. *)
Definition record (o : gmap string string) (kv : string * string) : gmap string string :=
  assignKey kv.1 kv.2 o.

(** The value of [screen], when there is one, is plain. *)
Definition plain_screen (st : Settings) : Prop :=
  forall s, screen st = Some s -> plain_value s.

(** ** Sample parameters, used to exercise the definitions *)

(** A codec that stores the data after one header byte, and gives the
    empty array for the empty array. *)
Definition sample_deflate : Deflate := {|
  rawdeflate bs := match bs with [] => [] | _ => 1 :: bs end;
  rawinflate bs := tail bs
|}.

(** [decodeURI] on strings that have no escape sequence. *)
Definition sample_uri : URI := {|
  decodeURI s :=
    if bool_decide (percent ∈ list_ascii_of_string s)
    then Abrupt "URIError" else Normal s
|}.

Definition sample_settings : Settings :=
  mkSettings true (Some "vertical"%string) "<coral-button>Hi</coral-button>"%string.

End Playground.

(** * BaseOverlay.js: what holds between the calls *)

Module OverlayRuns.
Import Overlay.

Local Open Scope Z_scope.

(** A call on the overlay machinery as a computation, to tell whether it
    returns or throws. *)
Definition perform (c : Call) : M unit :=
  match c with
  | Push inst => push inst ;; ret tt
  | Pop inst => pop inst ;; ret tt
  | PushOverlay self => _pushOverlay self
  | PopOverlay self => _popOverlay self
  | ShowBackdrop self => _showBackdrop self
  | HideBackdrop self => _hideBackdrop self
  end.

(** [_isTopOverlay()], as the truth value of [top && top.instance === this] *)
Definition _isTopOverlay (self : Element) (σ : State) : bool :=
  match top (overlayStack σ) with
  | Some t => bool_decide (instance t = self)
  | None => false
  end.

(** The module-level variables and the scroll lock of the body. *)
Definition shell (σ : State) : list Overlay * option Backdrop * bool :=
  (overlayStack σ, backdropEl σ, bodyNoScroll σ).

(** A page on which the module has not been used yet: no overlay is open,
    the backdrop element does not exist and the body scrolls. *)
Definition pristine (σ : State) : Prop :=
  overlayStack σ = [] /\ backdropEl σ = None /\ bodyNoScroll σ = false.

(** What the calls keep: the z-indexes of the stack are multiples of ten;
    the backdrop, once created, sits nine above a multiple of ten and the
    body is locked exactly while it is open; before it is created no entry
    asks for it. *)
Definition sound (σ : State) : Prop :=
  Forall (fun z => z mod 10 = 0) (zIndex <$> overlayStack σ) /\
  match backdropEl σ with
  | Some bd => bd_zIndex bd mod 10 = 9 /\ bodyNoScroll σ = bd_isOpen bd
  | None =>
      bodyNoScroll σ = false /\
      Forall (fun b => b = false) (backdrop <$> overlayStack σ)
  end.

(** The tab capture elements, once created, are two elements. *)
Definition distinctTabCaptureEls (σ : State) : Prop :=
  match tabCaptureEls σ with
  | Some (topEl, bottomEl) => topEl <> bottomEl
  | None => True
  end.

(** The children of the body other than the given two, in their order. *)
Definition others (a b : Element) (c : list Element) : list Element :=
  filter (fun x => x <> a /\ x <> b) c.

End OverlayRuns.


(** * BaseComponent.js: [delegateEvents] and [_delegateEvents] *)

Module Delegate.
Import JS GlobalEvents.

(** ** The regular expression [delegateEventSplitter] *)

(** White space and line terminators among the characters of a Rocq
    string, whose codes are below 256: the class [\s] holds the codes 9 to
    13, 32 and 160; the dot of a regular expression leaves out the codes 10
    and 13. *)
Definition is_space (c : ascii) : bool :=
  let n := nat_of_ascii c in
  ((9 <=? n) && (n <=? 13)) || (n =? 32) || (n =? 160).
Definition is_line_terminator (c : ascii) : bool :=
  let n := nat_of_ascii c in
  (n =? 10) || (n =? 13).

(** The longest prefix whose characters satisfy [p], and the rest. *)
Fixpoint span (p : ascii -> bool) (s : string) : string * string :=
  match s with
  | EmptyString => (EmptyString, EmptyString)
  | String c s' =>
      if p c then let (a, b) := span p s' in (String c a, b)
      else (EmptyString, s)
  end.

Fixpoint any (p : ascii -> bool) (s : string) : bool :=
  match s with
  | EmptyString => false
  | String c s' => p c || any p s'
  end.

(** [eventInfo.match(delegateEventSplitter)]: the expression is anchored at
    both ends and has two groups: one or more characters that are not white
    space; then, after any white space, whatever is left, which must hold no
    line terminator.  Both repetitions are greedy, and giving characters
    back never helps the rest to match, so the first group is the longest
    run of characters that are not white space and the second group starts
    after the longest run of white space.  The result is the two groups, or
    [None] for [null]. *)
Definition delegateEventSplitter (eventInfo : string) : option (string * string) :=
  let (name, rest) := span (fun c => negb (is_space c)) eventInfo in
  let (_, selector) := span is_space rest in
  if String.eqb name "" then None
  else if any is_line_terminator selector then None
  else Some (name, selector).

(** [s.substr(n)] *)
Fixpoint substr (n : nat) (s : string) : string :=
  match n, s with
  | O, _ => s
  | S n', String _ s' => substr n' s'
  | S _, EmptyString => EmptyString
  end.

(** [s.indexOf(p) === 0] *)
Definition startsWith (p s : string) : bool := String.prefix p s.

(** The same test, by recursion on the prefix. *)
Fixpoint starts (p s : string) : bool :=
  match p with
  | EmptyString => true
  | String a p' =>
      match s with
      | EmptyString => false
      | String b s' => Ascii.eqb a b && starts p' s'
      end
  end.

(** ** [getListenerFromMethodNameOrFunction] *)

(** A value of the event map: a function, a string, or something else, of
    which only the truthiness is read. *)
Inductive Handler : Type :=
| HFunction (f : nat)
| HName (methodName : string)
| HOther (truthy : bool).

(** [obj[name]]: a function, or another value, of which only the truthiness
    is read; a property that is missing is [undefined]. *)
Inductive Member : Type :=
| MFunction (f : nat)
| MValue (truthy : bool).

(** The messages of the errors name the event, the component and the
    listener; they are shortened here. *)
Definition getListenerFromMethodNameOrFunction (obj : string -> Member)
    (eventName : string) (methodNameOrFunction : Handler) : Completion (option nat) :=
  match methodNameOrFunction with
  | HFunction f => Normal (Some f)
  | HName methodName =>
      match obj methodName with
      | MValue false => Abrupt "Error: method not found"
      | MValue true => Abrupt "Error: listener should be a function"
      | MFunction listener => Normal (Some listener)
      end
  | HOther true => Abrupt "Error: neither a method name or a function"
  | HOther false => Normal None
  end.

(** ** The component *)

(** The component as [delegateEvents] sees it: the fields and the window
    registry of the connection callbacks, the event map [_events] in the
    order of its [for ... in] loop, the listeners given to [_vent.on] and the
    calls of [commons.addResizeListener], on an element or on the component
    itself ([None]). *)
Record Host : Type := mkHost {
  world : World;
  _events : list (string * Handler);
  vent : list EventListener;
  resizeListeners : list (option Element * nat)
}.

Definition set_world (f : World -> World) (h : Host) : Host :=
  mkHost (f (world h)) (_events h) (vent h) (resizeListeners h).
Definition set_eventMap (e : list (string * Handler)) (h : Host) : Host :=
  mkHost (world h) e (vent h) (resizeListeners h).
Definition set_vent (f : list EventListener -> list EventListener) (h : Host) : Host :=
  mkHost (world h) (_events h) (f (vent h)) (resizeListeners h).
Definition set_resizeListeners
    (f : list (option Element * nat) -> list (option Element * nat)) (h : Host) : Host :=
  mkHost (world h) (_events h) (vent h) (f (resizeListeners h)).

Definition set_globalEvents (l : option (list EventListener)) (c : Component) : Component :=
  mkComponent l (_globalKeys c) (_keys c) (_disconnected c) (_rendered c).
Definition set_globalKeys (l : option (list KeyListener)) (c : Component) : Component :=
  mkComponent (_globalEvents c) l (_keys c) (_disconnected c) (_rendered c).

(** A method of the connection callbacks, run on the component. *)
Definition inWorld {A} (m : Eff World A) : Eff Host A :=
  fun h => let (r, w) := m (world h) in (r, set_world (fun _ => w) h).

(** A [for] loop. *)
Fixpoint each {A} (f : A -> Eff Host unit) (l : list A) : Eff Host unit :=
  match l with
  | [] => ret tt
  | x :: l' => f x ;; each f l'
  end.

Section DelegateEvents.
(** The properties of the component that the event map may name,
    [document.querySelectorAll] (which throws a [SyntaxError] for a string
    that is no selector: [None]), a new [Keys] instance and
    [commons.extend] on event maps, which the sources do not define. *)
Context (obj : string -> Member).
Context (querySelectorAll : string -> option (list Element)).
Context (newKeys : Keys).
Context (extend : list (string * Handler) -> list (string * Handler) ->
                  list (string * Handler)).

(** The body of the loop of [delegateEvents].  [listener.bind(self)] is
    given by the identity of the function it binds. *)
Definition delegateEvent (entry : string * Handler) : Eff Host unit :=
  let (eventInfo, listener) := entry in
  match delegateEventSplitter eventInfo with
  | None => throw "TypeError: match is null"
  | Some (name, selector) =>
      let eventName := (name ++ ".CoralComponent")%string in
      let selector := if String.eqb selector "" then None else Some selector in
      match getListenerFromMethodNameOrFunction obj eventName listener with
      | Abrupt e => throw e
      | Normal None => ret tt
      | Normal (Some listener) =>
          let isGlobal := startsWith "global:" eventName in
          let eventName := if isGlobal then substr 7 eventName else eventName in
          let isCapture := startsWith "capture:" eventName in
          let eventName := if isCapture then substr 8 eventName else eventName in
          let isKey := startsWith "key:" eventName in
          if isKey && isCapture then
            throw "Error: Coral.Keys does not support capture"
          else
            let eventName := if isKey then substr 4 eventName else eventName in
            let isResize := startsWith "resize" eventName in
            if isResize && isCapture then
              throw "Error: Coral.commons.addResizeListener does not support capture"
            else if isGlobal then
              if isKey then
                modify (set_world (set_component (fun c =>
                  set_globalKeys
                    (Some (default [] (_globalKeys c) ++
                           [mkKeyListener eventName selector listener])) c)))
              else
                modify (set_world (set_component (fun c =>
                  set_globalEvents
                    (Some (default [] (_globalEvents c) ++
                           [mkEventListener eventName selector listener isCapture])) c)))
            else if isKey then
              modify (set_world (set_component (fun c =>
                set_keys (Some (default newKeys (_keys c))) c))) ;;
              inWorld (keys_on (mkKeyListener eventName selector listener))
            else if isResize then
              match selector with
              | Some s =>
                  match querySelectorAll s with
                  | Some elements =>
                      each (fun el => modify (set_resizeListeners
                                                (fun l => l ++ [(Some el, listener)])))
                           elements
                  | None => throw "SyntaxError"
                  end
              | None => modify (set_resizeListeners (fun l => l ++ [(None, listener)]))
              end
            else
              modify (set_vent (fun l =>
                l ++ [mkEventListener eventName selector listener isCapture]))
      end
  end.

(** [delegateEvents.call(self)] *)
Definition delegateEvents : Eff Host unit :=
  events <- gets _events ;;
  each delegateEvent events.

(** [_delegateEvents(eventMap)] *)
Definition _delegateEvents (eventMap : list (string * Handler)) : Eff Host unit :=
  modify (fun h => set_eventMap (extend (_events h) eventMap) h) ;;
  delegateEvents ;;
  inWorld delegateGlobalEvents ;;
  modify (set_eventMap []).
End DelegateEvents.

(** ** Stated properties *)

Definition suffix : string := ".CoralComponent".

(** The string ends with [.CoralComponent]. *)
Definition namespaced (s : string) : Prop := exists r, s = (r ++ suffix)%string.

(** Every listener the component holds or has recorded is namespaced. *)
Definition all_namespaced (h : Host) : Prop :=
  Forall (fun e => namespaced (eventName e)) (vent h) /\
  Forall (fun e => namespaced (eventName e)) (recordedEvents (world h)) /\
  Forall (fun k => namespaced (keyCombo k)) (recordedKeys (world h)) /\
  Forall (fun k => namespaced (keyCombo k)) (attachedKeys (world h)).

(** No character of the string is white space. *)
Definition solid (s : string) : Prop := any is_space s = false.

(** A selector as the event maps write it: it does not start with white
    space and has no line terminator. *)
Definition plainSelector (s : string) : Prop :=
  any is_line_terminator s = false /\
  match s with
  | EmptyString => True
  | String c _ => is_space c = false
  end.

(** The selector as [delegateEvents] passes it on: [undefined] for the
    empty string. *)
Definition selectorOf (s : string) : option string :=
  if String.eqb s "" then None else Some s.

(** Whether the component has a [Keys] instance. *)
Definition hasKeys (w : World) : bool :=
  match _keys (component w) with Some _ => true | None => false end.

(** Sample data. *)
Definition sample_obj (name : string) : Member :=
  if String.eqb name "_onClick" then MFunction 1
  else if String.eqb name "_elements" then MValue true
  else MValue false.

Definition sample_host : Host :=
  mkHost (mkWorld [] (mkComponent None None None None false)) [] [] [].

(** A new instance, which takes the combinations without a colon. *)
Definition sample_keys : Keys :=
  mkKeys [] true (fun combo => negb (any (Ascii.eqb ":") combo)).

Definition sample_map : list (string * Handler) :=
  [("click", HName "_onClick"); ("key:a", HFunction 5);
   ("global:key:escape", HFunction 3);
   ("global:capture:change #overlay", HFunction 7)].

End Delegate.

(** * Decorator and the connection callbacks of QuickActionsItem *)

Module Decorated.
Import JS.

Section Decorator.
(** The component: what the callbacks read of it, and the methods of the
    class that [Decorator] is applied to. *)
Context {S : Type}.
Context (isConnected : S -> bool).
Context (_disconnected : S -> option bool).
Context (_ignoreConnectedCallback : S -> Value).
Context (super_updateCallback : bool -> Eff S unit).
Context (super_connectedCallback super_disconnectedCallback : Eff S unit).

(** [_updateCallback(connected)] *)
Definition _updateCallback (connected : bool) : Eff S unit :=
  super_updateCallback connected.

(** [connectedCallback()] *)
Definition connectedCallback : Eff S unit :=
  s <- gets (fun s => s) ;;
  if negb (isConnected s)
     || bool_decide (_disconnected s = Some false)
     || bool_decide (_ignoreConnectedCallback s = VBool true)
  then _updateCallback true
  else super_connectedCallback.

(** [disconnectedCallback()] *)
Definition disconnectedCallback : Eff S unit :=
  s <- gets (fun s => s) ;;
  if isConnected s
     || bool_decide (_disconnected s = Some true)
     || bool_decide (_ignoreConnectedCallback s = VBool true)
  then _updateCallback false
  else super_disconnectedCallback.
End Decorator.

Section QuickActionsItem.
(** The methods of the Messenger of the item and the callbacks of
    [BaseComponent(HTMLElement)], as they act on the component. *)
Context {S : Type}.
Context (isConnected : S -> bool).
Context (_disconnected : S -> option bool).
Context (_ignoreConnectedCallback : S -> Value).
Context (messenger_connect messenger_disconnect : Eff S unit).
Context (base_connectedCallback base_disconnectedCallback : Eff S unit).

(** The class body that [Decorator] is applied to.  Its [_updateCallback]
    starts with [super._updateCallback(connected)], and neither
    [BaseComponent] nor [HTMLElement] has a method of that name: the call
    is a call of [undefined]. *)
Definition item_updateCallback (connected : bool) : Eff S unit :=
  @throw S unit "TypeError: (intermediate value)._updateCallback is not a function" ;;
  if connected then messenger_connect else messenger_disconnect.

Definition item_connectedCallback : Eff S unit :=
  messenger_connect ;;
  base_connectedCallback.

Definition item_disconnectedCallback : Eff S unit :=
  base_disconnectedCallback ;;
  messenger_disconnect.

(** The callbacks of [QuickActionsItem], the decorated class. *)
Definition QuickActionsItem_connectedCallback : Eff S unit :=
  connectedCallback isConnected _disconnected _ignoreConnectedCallback
    item_updateCallback item_connectedCallback.

Definition QuickActionsItem_disconnectedCallback : Eff S unit :=
  disconnectedCallback isConnected _disconnected _ignoreConnectedCallback
    item_updateCallback item_disconnectedCallback.
End QuickActionsItem.

(** Sample data: an item that is connected, with a log of the calls made on
    its Messenger. *)
Record Item : Type := mkItem {
  connected : bool;
  disconnected : option bool;
  log : list string
}.

Definition called (name : string) : Eff Item unit :=
  modify (fun i => mkItem (connected i) (disconnected i) (log i ++ [name])).

Definition sample_item : Item := mkItem true (Some false) [].

End Decorated.

(** * BaseButton.js: the classes of the variants *)

Module Button.
Import JS Component.

(** [ends m Q σ]: [Q] holds of the state in which [m] ends from [σ],
    whether it returns or throws. *)
Definition ends {S A} (m : Eff S A) (Q : S -> Prop) (σ : S) : Prop :=
  Q (exec m σ).

(** The classes that tell the variant of a button: the two base classes and
    the modifiers. *)
Definition variantFamily : list string :=
  [CLASSNAME; ACTION_CLASSNAME] ++ ALL_VARIANT_CLASSES.

(** The classes of a variant: [VARIANT_MAP[name]], and none for the private
    variant [_custom]. *)
Definition classesOf (name : string) : list string :=
  default [] (lookup_assoc name VARIANT_MAP).

(** Sample data: a call to action button with a class of its own. *)
Definition sample_button : Component :=
  mkComponent ∅ {["_variant" := VString "cta"]}
              ["_coral-Button"; "my-class"; "_coral-Button--cta"] [] false (-1) [] [] ∅
              VUndefined ∅ ∅.

End Button.

(** * Playground.js: the element, its setters and its debounced events *)

Module PlaygroundElement.
Import JS Component Playground.

Local Open Scope Z_scope.

Definition CLASS_NAME : string := "_coral-Playground".

(** [SCREEN_CLASSES], filled by the loop over the keys of [SCREEN_ENUM]. *)
Definition SCREEN_CLASSES : list string :=
  (fun value => CLASS_NAME ++ "--" ++ value)%string <$> members SCREEN_ENUM.

Definition CODERUN : string := "coral-playground:coderun".
Definition SETTINGSCHANGE : string := "coral-playground:settingschange".

(** What a timer of the window does when it fires: the arrow function of
    [_debounceTrigger], or the one of [_onShareClick]. *)
Inductive Callback : Type :=
| TriggerEvent (event : string)
| CloseShareTip.

(** The playground and the part of the window it uses.  A timer is pending
    from [window.setTimeout] until it fires or [window.clearTimeout] takes
    its handle; the delays are not modelled, so a pending timer may fire at
    any moment.  The handles are the integers from [nextTimer] on. *)
Record Page : Type := mkPage {
  host : Component;               (* the element: fields, attributes, classes *)
  timers : list (Z * Callback);   (* the pending timers, by handle *)
  nextTimer : Z;                  (* the handle of the next timer *)
  triggered : list string;        (* the events dispatched, oldest first *)
  checked : bool;                 (* _elements.livereload has [checked] *)
  runVisibility : string;         (* _elements.run.style.visibility *)
  screenValue : Value;            (* _elements.screen.value *)
  repositioned : nat;             (* calls of _elements.overlay.reposition *)
  sharetipOpen : bool             (* _elements.sharetip.open *)
}.

(** Sample data: a playground none of whose properties [_timeout],
    [_livereload] and [_screen] is assigned, in a window without pending
    timer. *)
Definition sample_page : Page := mkPage newComponent [] 1 [] false "" VUndefined 0 false.

Definition set_host (f : Component -> Component) (p : Page) : Page :=
  mkPage (f (host p)) (timers p) (nextTimer p) (triggered p) (checked p)
         (runVisibility p) (screenValue p) (repositioned p) (sharetipOpen p).
Definition set_timers (f : list (Z * Callback) -> list (Z * Callback)) (p : Page) : Page :=
  mkPage (host p) (f (timers p)) (nextTimer p) (triggered p) (checked p)
         (runVisibility p) (screenValue p) (repositioned p) (sharetipOpen p).
Definition set_nextTimer (n : Z) (p : Page) : Page :=
  mkPage (host p) (timers p) n (triggered p) (checked p)
         (runVisibility p) (screenValue p) (repositioned p) (sharetipOpen p).
Definition set_triggered (f : list string -> list string) (p : Page) : Page :=
  mkPage (host p) (timers p) (nextTimer p) (f (triggered p)) (checked p)
         (runVisibility p) (screenValue p) (repositioned p) (sharetipOpen p).
Definition set_checked (b : bool) (p : Page) : Page :=
  mkPage (host p) (timers p) (nextTimer p) (triggered p) b
         (runVisibility p) (screenValue p) (repositioned p) (sharetipOpen p).
Definition set_runVisibility (v : string) (p : Page) : Page :=
  mkPage (host p) (timers p) (nextTimer p) (triggered p) (checked p)
         v (screenValue p) (repositioned p) (sharetipOpen p).
Definition set_screenValue (v : Value) (p : Page) : Page :=
  mkPage (host p) (timers p) (nextTimer p) (triggered p) (checked p)
         (runVisibility p) v (repositioned p) (sharetipOpen p).
Definition set_repositioned (n : nat) (p : Page) : Page :=
  mkPage (host p) (timers p) (nextTimer p) (triggered p) (checked p)
         (runVisibility p) (screenValue p) n (sharetipOpen p).
Definition set_sharetipOpen (b : bool) (p : Page) : Page :=
  mkPage (host p) (timers p) (nextTimer p) (triggered p) (checked p)
         (runVisibility p) (screenValue p) (repositioned p) b.

(** A method of the element, run on the page. *)
Definition onHost {A} (m : Eff Component A) : Eff Page A :=
  fun p => let (r, c) := m (host p) in (r, set_host (fun _ => c) p).

(** ** The window *)

(** [window.setTimeout(callback, delay)] *)
Definition setTimeout (callback : Callback) : Eff Page Z :=
  fun p => (Normal (nextTimer p),
            set_nextTimer (nextTimer p + 1)
              (set_timers (fun l => l ++ [(nextTimer p, callback)]) p)).

(** [window.clearTimeout(handle)]: a handle that names no pending timer,
    [undefined] among them, is ignored. *)
Definition clearTimeout (handle : Value) : Eff Page unit :=
  match handle with
  | VNumber id => modify (set_timers (filter (fun t => t.1 <> id)))
  | _ => ret tt
  end.

(** ** BaseComponent: [trigger] *)

(** [trigger(eventName)]: the event is dispatched unless the component is
    silenced; an exception of the dispatch is caught.  The listeners are not
    part of the class: the model records the dispatch. *)
Definition trigger (eventName : string) : Eff Page unit :=
  silenced <- gets (fun p => field "_silenced" (host p)) ;;
  if truthy silenced then ret tt
  else modify (set_triggered (fun l => l ++ [eventName])).

(** ** Playground *)

(** [_debounceTrigger(event)] *)
Definition _debounceTrigger (event : string) : Eff Page unit :=
  timeout <- gets (fun p => field "_timeout" (host p)) ;;
  (if bool_decide (timeout <> VNull) then clearTimeout timeout else ret tt) ;;
  handle <- setTimeout (TriggerEvent event) ;;
  onHost (assignField "_timeout" (VNumber handle)).

(** The callback of a timer. *)
Definition call (callback : Callback) : Eff Page unit :=
  match callback with
  | TriggerEvent event =>
      onHost (assignField "_timeout" VNull) ;;
      trigger event
  | CloseShareTip => modify (set_sharetipOpen false)
  end.

(** The window fires the pending timer [handle]. *)
Definition fire (handle : Z) : Eff Page unit :=
  pending <- gets timers ;;
  match snd <$> list_find (fun t => t.1 = handle) pending with
  | Some (_, callback) =>
      modify (set_timers (filter (fun t => t.1 <> handle))) ;;
      call callback
  | None => ret tt
  end.

(** [get livereload] *)
Definition get_livereload (p : Page) : Value := field "_livereload" (host p).

(** [set livereload(value)] *)
Definition set_livereload (value : Value) : Eff Page unit :=
  (if truthy value then
     onHost (assignField "_livereload" (VBool true)) ;;
     modify (set_checked true) ;;
     modify (set_runVisibility "hidden") ;;
     _debounceTrigger CODERUN
   else
     onHost (assignField "_livereload" (VBool false)) ;;
     modify (set_checked false) ;;
     modify (set_runVisibility "visible")) ;;
  _debounceTrigger SETTINGSCHANGE.

(** [get screen] *)
Definition get_screen (p : Page) : Value := field "_screen" (host p).

(** [this.classList.add(token)]: the empty token is refused with a
    [SyntaxError] and a token with white space with an
    [InvalidCharacterError]. *)
Definition classList_add_token (token : string) : Eff Page unit :=
  if validToken token
  then onHost (modify (set_classList (classList_add [token])))
  else if String.eqb token "" then throw "SyntaxError"
  else throw "InvalidCharacterError".

(** [set screen(value)] *)
Definition set_screen `{Utils} (K : ElementClass) (value : Value) : Eff Page unit :=
  let value := VString (toLowerCase (transform_string value)) in
  onHost (assignField "_screen" (enumerated SCREEN_ENUM value "vertical")) ;;
  screen <- gets get_screen ;;
  onHost (_reflectAttribute K "screen" screen) ;;
  modify (set_screenValue screen) ;;
  onHost (modify (set_classList (classList_remove SCREEN_CLASSES))) ;;
  classList_add_token (CLASS_NAME ++ "--" ++ String_of screen)%string ;;
  modify (fun p => set_repositioned (S (repositioned p)) p) ;;
  _debounceTrigger SETTINGSCHANGE.

(** The listener of the editor's [change] event. *)
Definition onEditorChange : Eff Page unit :=
  livereload <- gets get_livereload ;;
  if truthy livereload then _debounceTrigger CODERUN
  else modify (set_runVisibility "visible").

(** [_onRunClick()] *)
Definition _onRunClick : Eff Page unit := _debounceTrigger CODERUN.

(** [_onShareClick()]; the clipboard is not modelled. *)
Definition _onShareClick : Eff Page unit :=
  modify (set_sharetipOpen true) ;;
  setTimeout CloseShareTip ;;
  ret tt.

(** [_onLiveReloadChange(event)] and [_onScreenChange(event)], by the
    state of the control that changed. *)
Definition _onLiveReloadChange (matchedTarget_checked : bool) : Eff Page unit :=
  set_livereload (VBool matchedTarget_checked).
Definition _onScreenChange `{Utils} (K : ElementClass) (matchedTarget_value : Value)
  : Eff Page unit :=
  set_screen K matchedTarget_value.

(** The callback that [connectedCallback] queues for the next animation
    frame, after the editor is refreshed. *)
Definition onAnimationFrame : Eff Page unit :=
  livereload <- gets get_livereload ;;
  if truthy livereload then _debounceTrigger CODERUN else ret tt.

(** What happens to a playground. *)
Inductive Action : Type :=
| SetLivereload (value : Value)
| SetScreen (value : Value)
| EditorChange
| RunClick
| ShareClick
| LiveReloadChange (matchedTarget_checked : bool)
| ScreenChange (matchedTarget_value : Value)
| AnimationFrame
| Fire (handle : Z).

Definition perform `{Utils} (K : ElementClass) (a : Action) : Eff Page unit :=
  match a with
  | SetLivereload value => set_livereload value
  | SetScreen value => set_screen K value
  | EditorChange => onEditorChange
  | RunClick => _onRunClick
  | ShareClick => _onShareClick
  | LiveReloadChange b => _onLiveReloadChange b
  | ScreenChange v => _onScreenChange K v
  | AnimationFrame => onAnimationFrame
  | Fire handle => fire handle
  end.

(** The page after a list of actions, each run to its end. *)
Definition run `{Utils} (K : ElementClass) (actions : list Action) (p : Page) : Page :=
  fold_left (fun p a => exec (perform K a) p) actions p.

(** ** Stated properties *)

(** The timers of [_debounceTrigger] among the pending ones, with their
    events. *)
Definition debounced (l : list (Z * Callback)) : list (Z * string) :=
  omap (fun t => match t.2 with
                 | TriggerEvent event => Some (t.1, event)
                 | CloseShareTip => None
                 end) l.

(** The events whose debounced dispatch is pending. *)
Definition pendingEvents (p : Page) : list string := (debounced (timers p)).*2.

(** What [_debounceTrigger] and the timers work on. *)
Definition clock (p : Page) : list (Z * Callback) * Z * Value :=
  (timers p, nextTimer p, field "_timeout" (host p)).

(** The handles of the pending timers are distinct and older than the next
    one, and [_timeout] holds the handle of the one pending timer of
    [_debounceTrigger], if there is one. *)
Definition tidy (p : Page) : Prop :=
  NoDup (timers p).*1 /\
  Forall (fun t => t.1 < nextTimer p) (timers p) /\
  match field "_timeout" (host p) with
  | VNumber handle => exists event, debounced (timers p) = [(handle, event)]
  | _ => debounced (timers p) = []
  end.

(** What [_debounceTrigger] leaves alone. *)
Definition beside (p : Page)
  : gmap string Value * gmap string string * list string * bool * string * Value :=
  (delete "_timeout"%string (fields (host p)), attributes (host p), classList (host p),
   checked p, runVisibility p, screenValue p).

(** The class of a screen. *)
Definition screenClass (screen : string) : string := (CLASS_NAME ++ "--" ++ screen)%string.

(** The text the [screen] setter settles on: the lower-cased text of the
    value when [validate.enumeration] accepts it and it is not empty, and
    [vertical] otherwise. *)
Definition screenOf `{Utils} (value : Value) : string :=
  let text := toLowerCase (transform_string value) in
  if validate_enumeration SCREEN_ENUM (VString text) && truthy (VString text)
  then text else "vertical".

(** [config[property]] for a configuration returned by [read], as the
    setters receive it. *)
Definition configValue (config : gmap string Value) (property : string) : Value :=
  default VUndefined (config !! property).



(** A query as it may be written by hand: the pairs [key=value] and the
    bare keys of a list, with [&] between them and, when [closed], after the
    last one. *)
Definition written (kv : string * option string) : list ascii :=
  match kv.2 with
  | Some v => list_ascii_of_string kv.1 ++ equals :: list_ascii_of_string v
  | None => list_ascii_of_string kv.1
  end.

Fixpoint queryChars (closed : bool) (kvs : list (string * option string)) : list ascii :=
  match kvs with
  | [] => []
  | kv :: r =>
      written kv ++
      match r with
      | [] => if closed then [ampersand] else []
      | _ :: _ => ampersand :: queryChars closed r
      end
  end.

Definition query (closed : bool) (kvs : list (string * option string)) : string :=
  String question (string_of_list_ascii (queryChars closed kvs)).

(** A key and a value that the regular expression reads as they are
    written. *)
Definition legible (kv : string * option string) : Prop :=
  plain_key kv.1 /\ match kv.2 with Some v => plain_value v | None => True end.

(** The text of the last entry of a key. *)
Definition lastValue (kvs : list (string * option string)) (k : string) : option string :=
  default "undefined"%string <$> (snd <$> last (filter (fun kv => kv.1 = k) kvs)).

(** The own property that [_parseQueryString] leaves under a key: the text
    of its last entry; none under [__proto__], whose entries are lost. *)
Definition stored (kvs : list (string * option string)) (k : string) : option string :=
  if String.eqb k "__proto__" then None else lastValue kvs k.

(** The object [_parseQueryString] fills from a list of matches. *)
Definition store (o : gmap string string) (kv : string * option string)
  : gmap string string :=
  assignKey kv.1 (default "undefined"%string kv.2) o.

End PlaygroundElement.

(** * LazyCollection *)

Module LazyCollection.
Import JS Delegate.

Definition SCOPE_SELECTOR : string := ":scope > ".
Definition COLLECTION_ID : string := "coral-collection-id-".

(** ** [String.prototype.replace] with a pattern that is a string *)

(** The text before the first occurrence of [pattern] in [s] and the text
    after it, when there is one. *)
Fixpoint cut (pattern s : string) : option (string * string) :=
  if startsWith pattern s then Some (EmptyString, substr (String.length pattern) s)
  else match s with
       | EmptyString => None
       | String c s' =>
           match cut pattern s' with
           | Some (before, after) => Some (String c before, after)
           | None => None
           end
       end.

(** The replacement text: [$$] stands for a dollar sign, [$&] for the
    matched text, [$`] for the text before it and [$'] for the text after
    it.  A pattern that is a string captures nothing, so every other dollar
    sign stands for itself. *)
Fixpoint expand (matched before after replacement : string) : string :=
  match replacement with
  | EmptyString => EmptyString
  | String a t =>
      if Ascii.eqb a "$" then
        match t with
        | EmptyString => String a EmptyString
        | String c r =>
            if Ascii.eqb c "$" then String "$" (expand matched before after r)
            else if Ascii.eqb c "&" then matched ++ expand matched before after r
            else if Ascii.eqb c "`" then before ++ expand matched before after r
            else if Ascii.eqb c "'" then after ++ expand matched before after r
            else String a (expand matched before after t)
        end
      else String a (expand matched before after t)
  end%string.

(** [s.replace(pattern, replacement)]: the first occurrence is replaced. *)
Definition replace (s pattern replacement : string) : string :=
  match cut pattern s with
  | Some (before, after) => before ++ expand pattern before after replacement ++ after
  | None => s
  end.

(** ** The collection *)

(** The container, as far as [_initialise] looks at it: its [id], whether
    its [_initialised] is truthy and whether it has an [_initialise]. *)
Record Container : Type := mkContainer {
  id : string;
  container_initialised : bool;
  container_initialise : bool
}.

(** The collection; a selector and a tag name are a string or
    [undefined]. *)
Record Collection : Type := mkCollection {
  _container : option Container;
  _itemSelector : option string;
  _itemTagName : option string;
  _id : Value;
  _allItemsSelector : option string;
  _useItemTagName : option string;
  _liveCollection : Value;
  _initialised : bool
}.

Definition set_container (c : option Container) (σ : Collection) : Collection :=
  mkCollection c (_itemSelector σ) (_itemTagName σ) (_id σ) (_allItemsSelector σ)
               (_useItemTagName σ) (_liveCollection σ) (_initialised σ).
Definition set_itemSelector (s : option string) (σ : Collection) : Collection :=
  mkCollection (_container σ) s (_itemTagName σ) (_id σ) (_allItemsSelector σ)
               (_useItemTagName σ) (_liveCollection σ) (_initialised σ).
Definition set_allItemsSelector (s : option string) (σ : Collection) : Collection :=
  mkCollection (_container σ) (_itemSelector σ) (_itemTagName σ) (_id σ) s
               (_useItemTagName σ) (_liveCollection σ) (_initialised σ).
Definition set_useItemTagName (s : option string) (σ : Collection) : Collection :=
  mkCollection (_container σ) (_itemSelector σ) (_itemTagName σ) (_id σ)
               (_allItemsSelector σ) s (_liveCollection σ) (_initialised σ).
Definition set_liveCollection (v : Value) (σ : Collection) : Collection :=
  mkCollection (_container σ) (_itemSelector σ) (_itemTagName σ) (_id σ)
               (_allItemsSelector σ) (_useItemTagName σ) v (_initialised σ).
Definition set_initialised (b : bool) (σ : Collection) : Collection :=
  mkCollection (_container σ) (_itemSelector σ) (_itemTagName σ) (_id σ)
               (_allItemsSelector σ) (_useItemTagName σ) (_liveCollection σ) b.

(** The constructor. *)
Definition newCollection (container : option Container)
    (itemSelector itemTagName : option string) (id : Value) : Collection :=
  mkCollection container itemSelector itemTagName id None None VUndefined false.

(** [s.toUpperCase()] of a string or [undefined]. *)
Definition toUpperCase_of (s : option string) : Eff Collection string :=
  match s with
  | Some s => ret (toUpperCase s)
  | None => throw "TypeError: Cannot read properties of undefined (reading 'toUpperCase')"
  end.

Section Initialise.
(** The [_initialise] of the container is not part of the class. *)
Context (containerInitialise : Eff Collection unit).

(** [_initialise()] *)
Definition _initialise : Eff Collection unit :=
  container <- gets _container ;;
  match container with
  | Some c =>
      if negb (container_initialised c) && container_initialise c
      then containerInitialise else ret tt
  | None => ret tt
  end ;;
  initialised <- gets _initialised ;;
  if negb initialised then
    itemSelector <- gets _itemSelector ;;
    (if match itemSelector with
        | Some s => negb (String.eqb s "") && startsWith SCOPE_SELECTOR s
        | None => false
        end
     then
       let s := default EmptyString itemSelector in
       container <- gets _container ;;
       match container with
       | None => throw "TypeError: Cannot read properties of undefined (reading 'id')"
       | Some c =>
           id <- gets (fun σ => if String.eqb (id c) ""
                                then (COLLECTION_ID ++ String_of (_id σ))%string
                                else id c) ;;
           modify (set_container
                     (Some (mkContainer id (container_initialised c)
                                        (container_initialise c)))) ;;
           modify (set_allItemsSelector
                     (Some (replace s SCOPE_SELECTOR ("#" ++ id ++ " > ")))) ;;
           modify (set_itemSelector (Some (replace s SCOPE_SELECTOR ""))) ;;
           itemSelector <- gets _itemSelector ;;
           itemTagName <- gets _itemTagName ;;
           if bool_decide (itemSelector = itemTagName) then
             upper <- toUpperCase_of itemSelector ;;
             modify (set_useItemTagName (Some upper))
           else ret tt
       end
     else
       modify (set_allItemsSelector itemSelector) ;;
       container <- gets _container ;;
       itemTagName <- gets _itemTagName ;;
       if bool_decide (is_Some container) && bool_decide (itemSelector = itemTagName) then
         modify (set_liveCollection (VBool true)) ;;
         upper <- toUpperCase_of itemSelector ;;
         modify (set_useItemTagName (Some upper))
       else ret tt) ;;
    modify (set_initialised true)
  else ret tt.
End Initialise.

(** ** Stated properties *)



(** The container does not have to be initialised first. *)
Definition containerReady (σ : Collection) : Prop :=
  match _container σ with
  | Some c => container_initialised c = true \/ container_initialise c = false
  | None => True
  end.


Definition sample_orphan : Collection :=
  newCollection None (Some ":scope > coral-tab") (Some "coral-tab") (VNumber 7).

Definition sample_unnamed : Collection :=
  newCollection (Some (mkContainer "tabs" true true)) None None (VNumber 7).

End LazyCollection.

(** * BaseComponent.js: [set] *)

Module SetProperty.
Import JS Component PlaygroundElement.

Section SetMethod.
Context {S : Type}.

(** What [set] uses of the component: the assignment [self._silenced =
    value]; the assignment [self[prop] = val], which runs the setter of
    the property; whether [isContentZone(prop)] is truthy, which depends on
    [_contentZones] and on [commons.swapKeysAndValues] of coral-utils; and
    [updateContentZone(prop, val)]. *)
Context (assignSilenced : Value -> Eff S unit).
Context (assign : string -> Value -> Eff S unit).
Context (isContentZone : string -> S -> bool).
Context (updateContentZone : string -> Value -> Eff S unit).

(** [setProperty(prop, val)], for the [silent] of the call *)
Definition setProperty (silent : Value) (prop : string) (val : Value) : Eff S unit :=
  zone <- gets (isContentZone prop) ;;
  if zone then updateContentZone prop val
  else
    assignSilenced silent ;;
    assign prop val ;;
    assignSilenced (VBool false).

(** [set(property, value, silent)], with the name of a property *)
Definition set (property : string) (value silent : Value) : Eff S unit :=
  setProperty silent property value.

(** [set(properties, silent)], with an object of properties, in the
    order of its keys *)
Fixpoint setAll (properties : list (string * Value)) (silent : Value) : Eff S unit :=
  match properties with
  | [] => ret tt
  | (property, value) :: rest =>
      setProperty silent property value ;;
      setAll rest silent
  end.
End SetMethod.

(** The properties of a button: the setters of [variant] and [size] of
    BaseButton and of [tracking] of BaseComponent; [others] stands for the
    properties that are not modelled. *)
Definition BaseButton_assign `{Utils} (K : ElementClass)
    (others : string -> Value -> Eff Component unit) (prop : string) (val : Value)
  : Eff Component unit :=
  if String.eqb prop "variant" then set_variant K val
  else if String.eqb prop "size" then set_size K val
  else if String.eqb prop "tracking" then set_tracking val
  else others prop val.

(** [set] of a button. *)
Definition BaseButton_set `{Utils} (K : ElementClass)
    (others : string -> Value -> Eff Component unit)
    (isContentZone : string -> Component -> bool)
    (updateContentZone : string -> Value -> Eff Component unit)
  : string -> Value -> Value -> Eff Component unit :=
  set (assignField "_silenced") (BaseButton_assign K others) isContentZone updateContentZone.

(** The properties of a playground: the setters of [livereload] and
    [screen]. *)
Definition Playground_assign `{Utils} (K : ElementClass)
    (others : string -> Value -> Eff Page unit) (prop : string) (val : Value)
  : Eff Page unit :=
  if String.eqb prop "livereload" then set_livereload val
  else if String.eqb prop "screen" then set_screen K val
  else others prop val.

(** [set] of a playground, which has no [_contentZones]. *)
Definition Playground_set `{Utils} (K : ElementClass)
    (others : string -> Value -> Eff Page unit)
  : string -> Value -> Value -> Eff Page unit :=
  set (fun value => onHost (assignField "_silenced" value)) (Playground_assign K others)
      (fun _ _ => false) (fun _ _ => ret tt).

(** What tells whether an event is dispatched, and the dispatched
    events. *)
Definition quiet (p : Page) : Value * list string :=
  (field "_silenced" (host p), triggered p).

End SetProperty.

(** * BaseComponent.js: what [_setContentZone] installs *)

Module ContentZoneInstall.
Import JS ContentZone.

(** The children of an element. *)
Definition children (d : Dom) (p : Element) : list Element :=
  default [] (childrenOf d !! p).

(** An element that has a parent is among the children of that parent. *)
Definition childOfParent (d : Dom) : Prop :=
  forall e p, parentOf d !! e = Some p -> e ∈ children d p.

(** The element the handle holds, when it is in the document. *)
Definition oldNode (options : Options) (h : Host) : option Element :=
  attachedNode (default VUndefined (_elements h !! handle options)) (dom h).





End ContentZoneInstall.


(** * Playground.js: [connectedCallback] *)

Module PlaygroundConnection.
Import JS Component PlaygroundElement.

(** The playground seen from both sides: the page its setters act on, and
    the component of the connection callbacks of BaseComponent, with the
    listener registry of the window. *)
Record Playground : Type := mkPlayground {
  page : Page;
  world : GlobalEvents.World
}.

Definition onPage {A} (m : Eff Page A) : Eff Playground A :=
  fun g => let (r, p) := m (page g) in (r, mkPlayground p (world g)).
Definition onWorld {A} (m : Eff GlobalEvents.World A) : Eff Playground A :=
  fun g => let (r, w) := m (world g) in (r, mkPlayground (page g) w).

Section Connection.
(** The configuration given to the constructor, the wrapper of the
    template, and [setValue] of the editor, which is CodeMirror's. *)
Context `{Utils} (K : ElementClass).
Context (_config : gmap string Value) (wrapper : Element).
Context (setValue : Value -> Eff Page unit).

(** [set code(value)] *)
Definition set_code (value : Value) : Eff Page unit :=
  setValue (JS.or value (VString "")).

(** [connectedCallback()] of Playground.  It does not call the one of
    BaseComponent.  The function it hands to
    [commons.addCallbackInRequestAnimationFrameQueue] runs at the next
    animation frame ([onAnimationFrame]). *)
Definition connectedCallback : Eff Playground unit :=
  onPage (classList_add_token CLASS_NAME) ;;
  onPage (onHost (modify (set_childElements
                            (fun l => removeElement wrapper l ++ [wrapper])))) ;;
  onPage (set_screen K (configValue _config "screen")) ;;
  onPage (set_code (configValue _config "code")) ;;
  onPage (set_livereload (configValue _config "livereload")).

(** [disconnectedCallback()], which Playground inherits from
    BaseComponent. *)
Definition disconnectedCallback : Eff Playground unit :=
  onWorld GlobalEvents.disconnectedCallback.
End Connection.




End PlaygroundConnection.


(** * Rules for [wp] *)

Module EffFacts.

Section Wp.
Context {S A : Type}.

Lemma wp_ret (a : A) (Q : A -> S -> Prop) σ : Q a σ -> wp (ret a) Q σ.
Proof. intros H. by exists a, σ. Qed.

Lemma wp_gets (f : S -> A) (Q : A -> S -> Prop) σ :
  Q (f σ) σ -> wp (gets f) Q σ.
Proof. intros H. by exists (f σ), σ. Qed.

Lemma wp_bind {B} (m : Eff S A) (f : A -> Eff S B) (Q : B -> S -> Prop) σ :
  wp m (fun a σ' => wp (f a) Q σ') σ -> wp (bind m f) Q σ.
Proof.
  intros (a & σ' & Hm & (b & σ'' & Hf & HQ)).
  exists b, σ''. unfold bind. by rewrite Hm.
Qed.

Lemma wp_mono (m : Eff S A) (Q Q' : A -> S -> Prop) σ :
  wp m Q σ -> (forall a σ', Q a σ' -> Q' a σ') -> wp m Q' σ.
Proof. intros (a & σ' & Hm & HQ) H. exists a, σ'. eauto. Qed.
End Wp.

Lemma wp_modify {S} (f : S -> S) (Q : unit -> S -> Prop) σ :
  Q tt (f σ) -> wp (modify f) Q σ.
Proof. intros H. by exists tt, (f σ). Qed.

Lemma wp_throw {S A} (e : string) (Q : A -> S -> Prop) σ : ~ wp (@throw S A e) Q σ.
Proof. intros (a & σ' & H & _). discriminate H. Qed.

(** ** Computations that throw *)

Lemma throws_throw {S A} (e : string) σ : throws (@throw S A e) σ.
Proof. by exists e, σ. Qed.

(** The exception of the first part is the exception of the sequence. *)
Lemma throws_bind_l {S A B} (m : Eff S A) (k : A -> Eff S B) σ :
  throws m σ -> throws (bind m k) σ.
Proof. intros (e & σ' & Hm). exists e, σ'. unfold bind. by rewrite Hm. Qed.

Lemma throws_bind_r {S A B} (m : Eff S A) (k : A -> Eff S B) σ :
  wp m (fun a σ' => throws (k a) σ') σ -> throws (bind m k) σ.
Proof.
  intros (a & σ' & Hm & e & σ'' & Hk). exists e, σ''. unfold bind. by rewrite Hm.
Qed.

(** A sequence whose last part always throws, throws. *)
Lemma throws_bind_always {S A B} (m : Eff S A) (k : A -> Eff S B) σ :
  (forall a σ', throws (k a) σ') -> throws (bind m k) σ.
Proof.
  intros Hk. unfold throws, bind. destruct (m σ) as [[a|e] σ'] eqn:Hm.
  - apply Hk.
  - by exists e, σ'.
Qed.

(** ** Frame properties: what a computation leaves alone *)

Section Preserves.
Context {S B : Type} (proj : S -> B).

Lemma preserves_ret {A} (a : A) : preserves proj (ret a).
Proof. done. Qed.

Lemma preserves_throw {A} (e : string) : preserves proj (@throw S A e).
Proof. done. Qed.

Lemma preserves_gets {A} (f : S -> A) : preserves proj (gets f).
Proof. done. Qed.

Lemma preserves_modify (f : S -> S) :
  (forall σ, proj (f σ) = proj σ) -> preserves proj (modify f).
Proof. intros H σ. apply H. Qed.

Lemma preserves_bind {A C} (m : Eff S A) (f : A -> Eff S C) :
  preserves proj m -> (forall a, preserves proj (f a)) ->
  preserves proj (bind m f).
Proof.
  intros Hm Hf σ. unfold bind. specialize (Hm σ).
  destruct (m σ) as [[a|e] σ']; simpl in *; [|done].
  by rewrite Hf.
Qed.
End Preserves.

Ltac frame_step :=
  first
    [ apply preserves_ret | apply preserves_throw | apply preserves_gets
    | apply preserves_modify; intros; reflexivity
    | apply preserves_bind; [|intros ?]
    | match goal with
      | |- preserves _ (match ?x with _ => _ end) => destruct x
      | |- preserves _ (if ?b then _ else _) => destruct b
      end ].
Ltac frame := repeat frame_step; auto with frame.

Create HintDb frame discriminated.

Lemma wp_steady {S A B} (proj : S -> B) (m : Eff S A) (Q : A -> S -> Prop) σ :
  steady proj m -> (forall a σ', proj σ' = proj σ -> Q a σ') -> wp m Q σ.
Proof. intros Hm H. eapply wp_mono; [apply Hm|]. simpl. eauto. Qed.

Section Steady.
Context {S B : Type} (proj : S -> B).

Lemma steady_ret {A} (a : A) : steady proj (ret a).
Proof. intros σ. by apply wp_ret. Qed.

Lemma steady_gets {A} (f : S -> A) : steady proj (gets f).
Proof. intros σ. by apply wp_gets. Qed.

Lemma steady_modify (f : S -> S) :
  (forall σ, proj (f σ) = proj σ) -> steady proj (modify f).
Proof. intros H σ. by apply wp_modify. Qed.

Lemma steady_bind {A C} (m : Eff S A) (f : A -> Eff S C) :
  steady proj m -> (forall a, steady proj (f a)) -> steady proj (bind m f).
Proof.
  intros Hm Hf σ. apply wp_bind. eapply wp_mono; [apply Hm|].
  intros a σ' E. eapply wp_mono; [apply Hf|]. simpl. congruence.
Qed.
End Steady.

Ltac steady_step :=
  first
    [ apply steady_ret | apply steady_gets
    | apply steady_modify; intros; reflexivity
    | apply steady_bind; [|intros ?]
    | match goal with
      | |- steady _ (match ?x with _ => _ end) => destruct x
      | |- steady _ (if ?b then _ else _) => destruct b
      end ].
Ltac steady := repeat steady_step; auto with frame.

Lemma wp_exec {S A} (m : Eff S A) (Q : A -> S -> Prop) (σ : S) :
  wp m Q σ -> exists a, result m σ = Normal a /\ Q a (exec m σ).
Proof.
  intros (a & σ' & Hm & HQ). exists a. unfold result, exec. by rewrite Hm.
Qed.

End EffFacts.

(** * Properties of the overlay stack *)

Module OverlayFacts.
Import Overlay EffFacts.

Local Open Scope Z_scope.

(** ** [indexOf] and [pop] *)

Lemma indexOf_from_absent (i : Z) (inst : Element) (s : list Overlay) :
  Forall (fun o => instance o <> inst) s -> indexOf_from i inst s = -1.
Proof.
  intros H. revert i. induction H as [|o s Ho _ IH]; intros i; simpl; [done|].
  destruct (Nat.eqb_spec (instance o) inst); [done | apply IH].
Qed.

Lemma indexOf_from_found (i : Z) (inst : Element) (l1 l2 : list Overlay) (o : Overlay) :
  Forall (fun x => instance x <> inst) l1 ->
  instance o = inst ->
  indexOf_from i inst (l1 ++ o :: l2) = i + Z.of_nat (length l1).
Proof.
  intros H Ho. revert i. induction H as [|x l1 Hx _ IH]; intros i; simpl.
  - rewrite Ho, Nat.eqb_refl. lia.
  - destruct (Nat.eqb_spec (instance x) inst); [done|]. rewrite IH. lia.
Qed.

(** Either no entry has the instance, or the stack splits at the first entry
    that has it. *)
Lemma stack_split (inst : Element) (s : list Overlay) :
  Forall (fun o => instance o <> inst) s \/
  exists l1 o l2, s = l1 ++ o :: l2 /\ instance o = inst /\
                  Forall (fun x => instance x <> inst) l1.
Proof.
  induction s as [|x s IH]; [by left|].
  destruct (decide (instance x = inst)) as [E|N].
  - right. exists [], x, s. by repeat split.
  - destruct IH as [IH|(l1 & o & l2 & -> & Ho & Hl1)].
    + left. by constructor.
    + right. exists (x :: l1), o, l2. repeat split; [done|by constructor].
Qed.

Lemma splice1_middle {A} (l1 l2 : list A) (o : A) :
  splice1 (length l1) (l1 ++ o :: l2) = l1 ++ l2.
Proof.
  unfold splice1. rewrite take_app_length.
  rewrite (cons_middle o l1 l2), (assoc_L (++)).
  by rewrite drop_app_length' by (rewrite length_app; simpl; lia).
Qed.

Lemma pop_absent (inst : Element) (σ : State) :
  Forall (fun o => instance o <> inst) (overlayStack σ) ->
  pop inst σ = (Normal None, σ).
Proof.
  intros H. unfold pop, bind, gets, indexOf. simpl.
  by rewrite (indexOf_from_absent _ _ _ H).
Qed.

Lemma pop_found (inst : Element) (σ : State) (l1 l2 : list Overlay) (o : Overlay) :
  overlayStack σ = l1 ++ o :: l2 ->
  instance o = inst ->
  Forall (fun x => instance x <> inst) l1 ->
  pop inst σ = (Normal (Some o), set_stack (l1 ++ l2) σ).
Proof.
  intros Hs Ho Hl1. unfold pop, bind, gets, modify, ret, indexOf. simpl.
  rewrite Hs, (indexOf_from_found _ _ _ _ _ Hl1 Ho).
  destruct (Z.eqb_spec (0 + Z.of_nat (length l1)) (-1)) as [E|_]; [lia|].
  replace (Z.to_nat (0 + Z.of_nat (length l1))) with (length l1) by lia.
  rewrite splice1_middle, list_lookup_middle by done. done.
Qed.

(** C4. [OverlayManager.pop(instance)] returns [null] and leaves the state
    (the overlay stack in particular) unchanged when no stack entry has the
    instance.  Otherwise the stack splits as [l1 ++ o :: l2] at the first
    entry [o] that has the instance: [pop] returns [o] and the stack becomes
    [l1 ++ l2], every other entry kept, in the same order. *)
Theorem pop_spec (inst : Element) (σ : State) :
  (Forall (fun o => instance o <> inst) (overlayStack σ) ->
     pop inst σ = (Normal None, σ)) /\
  (Exists (fun o => instance o = inst) (overlayStack σ) ->
     exists l1 o l2,
       overlayStack σ = l1 ++ o :: l2 /\
       instance o = inst /\
       Forall (fun x => instance x <> inst) l1 /\
       result (pop inst) σ = Normal (Some o) /\
       exec (pop inst) σ = set_stack (l1 ++ l2) σ).
Proof.
  split; [apply pop_absent|].
  intros Hex. destruct (stack_split inst (overlayStack σ)) as [Hno|(l1 & o & l2 & Hs & Ho & Hl1)].
  - exfalso. apply Exists_exists in Hex as (o & Hin & Ho).
    rewrite Forall_forall in Hno. by apply (Hno o).
  - exists l1, o, l2. unfold result, exec.
    rewrite (pop_found _ _ _ _ _ Hs Ho Hl1). by repeat split.
Qed.

Lemma pop_spec_witness :
  pop 3%nat two_overlays = (Normal None, two_overlays) /\
  exists l1 o l2,
    overlayStack two_overlays = l1 ++ o :: l2 /\
    instance o = 1%nat /\
    Forall (fun x => instance x <> 1%nat) l1 /\
    result (pop 1%nat) two_overlays = Normal (Some o) /\
    exec (pop 1%nat) two_overlays = set_stack (l1 ++ l2) two_overlays.
Proof.
  split.
  - apply (pop_spec 3%nat two_overlays). repeat constructor; simpl; lia.
  - apply (pop_spec 1%nat two_overlays). apply Exists_cons_hd. reflexivity.
Defined.

(** ** Frame properties of the overlay machinery *)

Lemma hideEverythingBut_stack inst : preserves overlayStack (hideEverythingBut inst).
Proof. unfold hideEverythingBut. frame. Qed.
Lemma showEverything_stack : preserves overlayStack showEverything.
Proof. unfold showEverything. frame. Qed.
Lemma setBackdropZIndex_stack z : preserves overlayStack (setBackdropZIndex z).
Proof. unfold setBackdropZIndex. frame. Qed.
Lemma setBackdropIsOpen_stack v : preserves overlayStack (setBackdropIsOpen v).
Proof. unfold setBackdropIsOpen. frame. Qed.
Lemma createElement_stack : preserves overlayStack createElement.
Proof. unfold createElement. frame. Qed.
Lemma setDisplay_stack el v : preserves overlayStack (setDisplay el v).
Proof. unfold setDisplay. frame. Qed.
#[export] Hint Resolve hideEverythingBut_stack showEverything_stack
  setBackdropZIndex_stack setBackdropIsOpen_stack createElement_stack
  setDisplay_stack : frame.

Lemma doRepositionBackdrop_stack : preserves overlayStack doRepositionBackdrop.
Proof. unfold doRepositionBackdrop. frame. Qed.
Lemma createDocumentTabCaptureEls_stack :
  preserves overlayStack createDocumentTabCaptureEls.
Proof. unfold createDocumentTabCaptureEls. frame. Qed.
Lemma hideDocumentTabCaptureEls_stack :
  preserves overlayStack hideDocumentTabCaptureEls.
Proof. unfold hideDocumentTabCaptureEls. frame. Qed.
Lemma doBackdropHide_stack : preserves overlayStack doBackdropHide.
Proof. unfold doBackdropHide. frame. Qed.
#[export] Hint Resolve doRepositionBackdrop_stack createDocumentTabCaptureEls_stack
  hideDocumentTabCaptureEls_stack doBackdropHide_stack : frame.

Lemma hideOrRepositionBackdrop_stack :
  preserves overlayStack hideOrRepositionBackdrop.
Proof. unfold hideOrRepositionBackdrop. frame. Qed.
Lemma doBackdropShow_stack z inst : preserves overlayStack (doBackdropShow z inst).
Proof. unfold doBackdropShow. frame. Qed.
#[export] Hint Resolve hideOrRepositionBackdrop_stack doBackdropShow_stack : frame.

(** ** The stack after [push] *)

Lemma pop_instance (inst : Element) (σ : State) (o : Overlay) :
  result (pop inst) σ = Normal (Some o) -> instance o = inst.
Proof.
  destruct (stack_split inst (overlayStack σ)) as [Hno|(l1 & x & l2 & Hs & Hx & Hl1)].
  - unfold result. by rewrite (pop_absent _ _ Hno).
  - unfold result. rewrite (pop_found _ _ _ _ _ Hs Hx Hl1). simpl. congruence.
Qed.

Lemma pop_normal (inst : Element) (σ : State) :
  exists r, pop inst σ = (Normal r, exec (pop inst) σ).
Proof.
  destruct (stack_split inst (overlayStack σ)) as [Hno|(l1 & x & l2 & Hs & Hx & Hl1)].
  - exists None. unfold exec. by rewrite (pop_absent _ _ Hno).
  - exists (Some x). unfold exec. by rewrite (pop_found _ _ _ _ _ Hs Hx Hl1).
Qed.

Lemma push_stack (inst : Element) (σ : State) :
  let rest := overlayStack (exec (pop inst) σ) in
  overlayStack (exec (push inst) σ) =
    rest ++ [mkOverlay inst (getHighestZIndex rest + 10) (popped_backdrop inst σ)].
Proof.
  intros rest. subst rest. unfold popped_backdrop.
  destruct (pop_normal inst σ) as [r Hr].
  pose proof (pop_instance inst σ) as Hi.
  unfold push, exec, result, bind in *. rewrite Hr in *. simpl.
  set (σ1 := snd (pop inst σ)) in *.
  assert (instance (default (mkOverlay inst 0 false) r) = inst) as ->.
  { destruct r as [o|]; simpl; [by apply Hi | done]. }
  assert (backdrop (default (mkOverlay inst 0 false) r)
          = match r with Some o => backdrop o | None => false end) as ->.
  { by destruct r. }
  unfold gets, modify, ret. simpl.
  destruct (match r with Some o => backdrop o | None => false end); [|done].
  match goal with
  | |- context [ doRepositionBackdrop ?s ] =>
      pose proof (doRepositionBackdrop_stack s) as Hf;
      destruct (doRepositionBackdrop s) as [[[]|e] σ2]; simpl in *; by rewrite Hf
  end.
Qed.

(** ** The invariant of the stack *)

Lemma keys_of_instance (s : list Overlay) : instance <$> s = fst <$> keys_of s.
Proof. unfold keys_of. by rewrite <- list_fmap_compose. Qed.

Lemma keys_of_zIndex (s : list Overlay) : zIndex <$> s = snd <$> keys_of s.
Proof. unfold keys_of. by rewrite <- list_fmap_compose. Qed.

Lemma stack_ok_keys (s s' : list Overlay) :
  keys_of s' = keys_of s -> stack_ok s -> stack_ok s'.
Proof.
  unfold stack_ok. rewrite !keys_of_instance, !keys_of_zIndex. by intros ->.
Qed.

Lemma stack_ok_nil : stack_ok [].
Proof. split; constructor. Qed.

Lemma stack_ok_remove (l1 l2 : list Overlay) (o : Overlay) :
  stack_ok (l1 ++ o :: l2) ->
  stack_ok (l1 ++ l2) /\ instance o ∉ instance <$> (l1 ++ l2).
Proof.
  unfold stack_ok. rewrite !fmap_app, !fmap_cons.
  intros [Hnd Hs].
  apply NoDup_app in Hnd as (Hn1 & Hn12 & Hn2).
  apply NoDup_cons in Hn2 as [Ho2 Hn2].
  apply StronglySorted_app in Hs as (Hs12 & Hs1 & Hs2).
  apply StronglySorted_cons in Hs2 as [_ Hs2].
  repeat split.
  - apply NoDup_app. repeat split; [done| |done].
    intros x Hx Hx2. apply (Hn12 x Hx). by right.
  - apply StronglySorted_app. repeat split; [|done|done].
    intros x1 x2 Hx1 Hx2. apply Hs12; [done|by right].
  - rewrite elem_of_app. intros [H|H]; [|done].
    apply (Hn12 _ H). by left.
Qed.

Lemma pop_ok (inst : Element) (σ : State) :
  stack_ok (overlayStack σ) ->
  stack_ok (overlayStack (exec (pop inst) σ)) /\
  inst ∉ instance <$> overlayStack (exec (pop inst) σ).
Proof.
  intros Hok.
  destruct (stack_split inst (overlayStack σ)) as [Hno|(l1 & x & l2 & Hs & Hx & Hl1)].
  - unfold exec. rewrite (pop_absent _ _ Hno). simpl. split; [done|].
    rewrite list_elem_of_fmap. intros (o & -> & Ho).
    rewrite Forall_forall in Hno. by apply (Hno o).
  - unfold exec. rewrite (pop_found _ _ _ _ _ Hs Hx Hl1). simpl.
    rewrite Hs in Hok. rewrite <- Hx. by apply stack_ok_remove.
Qed.

Lemma below_top (s : list Overlay) (z : Z) :
  StronglySorted Z.lt (zIndex <$> s) -> z ∈ zIndex <$> s -> z <= getHighestZIndex s.
Proof.
  intros Hs Hz. unfold getHighestZIndex, top.
  destruct (last s) as [t|] eqn:Hl.
  - apply last_Some in Hl as [l' ->].
    rewrite fmap_app in Hs, Hz. apply elem_of_app in Hz as [Hz|Hz].
    + apply Z.lt_le_incl.
      apply (StronglySorted_app_1_elem_of _ _ _ _ _ Hs Hz). simpl. by left.
    + simpl in Hz. apply list_elem_of_singleton in Hz. lia.
  - apply last_None in Hl. subst s. by apply elem_of_nil in Hz.
Qed.

Lemma push_ok (inst : Element) (σ : State) :
  stack_ok (overlayStack σ) -> stack_ok (overlayStack (exec (push inst) σ)).
Proof.
  intros Hok. rewrite push_stack.
  destruct (pop_ok inst σ Hok) as [[Hnd Hs] Hfresh].
  set (rest := overlayStack (exec (pop inst) σ)) in *.
  unfold stack_ok. rewrite !fmap_app. simpl. split.
  - apply NoDup_app. repeat split; [done| |apply NoDup_singleton].
    intros x Hx Hx'. apply list_elem_of_singleton in Hx'. by subst x.
  - apply StronglySorted_app. repeat split; [|done|repeat constructor].
    intros z1 z2 Hz1 Hz2. apply list_elem_of_singleton in Hz2. subst z2.
    pose proof (below_top rest z1 Hs Hz1). lia.
Qed.

Lemma alter_backdrop_keys (v : bool) (i : nat) (s : list Overlay) :
  keys_of (alter (fun o => mkOverlay (instance o) (zIndex o) v) i s) = keys_of s.
Proof.
  unfold keys_of. revert i. induction s as [|o s IH]; intros [|i]; try done.
  change (alter ?f (S i) (o :: s)) with (o :: alter f i s).
  rewrite !fmap_cons. f_equal. apply IH.
Qed.

Lemma preserves_stack_keys {A} (m : M A) :
  preserves overlayStack m -> preserves stack_keys m.
Proof. intros H σ. unfold stack_keys. by rewrite H. Qed.

Lemma setEntryBackdrop_keys self v : preserves stack_keys (setEntryBackdrop self v).
Proof.
  intros σ. unfold setEntryBackdrop, modify, stack_keys. simpl.
  apply alter_backdrop_keys.
Qed.
#[export] Hint Resolve setEntryBackdrop_keys : frame.
#[export] Hint Extern 4 (preserves stack_keys _) =>
  (apply preserves_stack_keys; solve [auto with frame]) : frame.

Lemma _showBackdrop_keys self : preserves stack_keys (_showBackdrop self).
Proof. unfold _showBackdrop. frame. Qed.

Lemma _hideBackdrop_keys self : preserves stack_keys (_hideBackdrop self).
Proof. unfold _hideBackdrop. frame. Qed.

Lemma exec_bind_frame {A B} (m : M A) (k : M B) (σ : State) :
  preserves overlayStack k ->
  overlayStack (exec (bind m (fun _ => k)) σ) = overlayStack (exec m σ).
Proof.
  intros Hk. unfold exec, bind. destruct (m σ) as [[a|e] σ']; simpl; [apply Hk|done].
Qed.

Lemma call_ok (c : Call) (σ : State) :
  stack_ok (overlayStack σ) -> stack_ok (overlayStack (call c σ)).
Proof.
  intros Hok. destruct c as [inst|inst|self|self|self|self]; simpl.
  - by apply push_ok.
  - by apply pop_ok.
  - unfold _pushOverlay. rewrite exec_bind_frame by apply preserves_ret.
    by apply push_ok.
  - unfold _popOverlay. rewrite exec_bind_frame by auto with frame.
    by apply pop_ok.
  - apply (stack_ok_keys (overlayStack σ)); [|done]. apply _showBackdrop_keys.
  - apply (stack_ok_keys (overlayStack σ)); [|done]. apply _hideBackdrop_keys.
Qed.

Lemma run_ok (cs : list Call) (σ : State) :
  stack_ok (overlayStack σ) -> stack_ok (overlayStack (run cs σ)).
Proof.
  revert σ. induction cs as [|c cs IH]; intros σ Hok; simpl; [done|].
  apply IH. by apply call_ok.
Qed.

Lemma filter_all {A} (P : A -> Prop) `{!forall x, Decision (P x)} (l : list A) :
  Forall P l -> filter P l = l.
Proof.
  induction 1 as [|x l Hx _ IH]; [done|].
  by rewrite filter_cons_True, IH.
Qed.

Lemma pop_filter (inst : Element) (σ : State) :
  stack_ok (overlayStack σ) ->
  overlayStack (exec (pop inst) σ) =
    filter (fun o => instance o <> inst) (overlayStack σ).
Proof.
  intros Hok.
  destruct (stack_split inst (overlayStack σ)) as [Hno|(l1 & x & l2 & Hs & Hx & Hl1)].
  - unfold exec. rewrite (pop_absent _ _ Hno). simpl.
    symmetry. by apply filter_all.
  - unfold exec. rewrite (pop_found _ _ _ _ _ Hs Hx Hl1). simpl.
    rewrite Hs in *. destruct (stack_ok_remove _ _ _ Hok) as [_ Hfresh].
    rewrite filter_app, filter_cons_False by (intros H; by apply H).
    rewrite <- filter_app. symmetry. apply filter_all.
    apply Forall_forall. intros o Ho Heq. apply Hfresh.
    rewrite list_elem_of_fmap. exists o. split; [congruence|done].
Qed.

(** C1, as the code has it.  After every run of calls on the overlay
    machinery from the initial state (calls of [OverlayManager.push] and
    [OverlayManager.pop] among them) no instance occurs twice in the stack
    and the stored z-indexes grow strictly from bottom to top.  [push] takes
    the entry of the instance out of the stack, if there is one, and puts it
    back on top of what remains: its z-index is that of the top of the
    remaining stack plus 10, or [startZIndex + 10 = 10010] when nothing
    remains, and the same value is written to [instance.style.zIndex]. *)
Theorem push_pop_invariant (cs : list Call) (inst : Element) :
  let σ := run cs initial in
  let rest := filter (fun o => instance o <> inst) (overlayStack σ) in
  let z := getHighestZIndex rest + 10 in
  stack_ok (overlayStack σ) /\
  overlayStack (exec (pop inst) σ) = rest /\
  overlayStack (exec (push inst) σ) =
    rest ++ [mkOverlay inst z (popped_backdrop inst σ)] /\
  (rest = [] -> z = 10010) /\
  (forall t, top rest = Some t -> z = zIndex t + 10).
Proof.
  intros σ rest z.
  assert (stack_ok (overlayStack σ)) as Hok by apply run_ok, stack_ok_nil.
  pose proof (pop_filter inst σ Hok) as Hpop. fold rest in Hpop.
  repeat split; try apply Hok; try done.
  - rewrite push_stack, Hpop. done.
  - intros E. subst z. by rewrite E.
  - intros t Ht. subst z. unfold getHighestZIndex. by rewrite Ht.
Qed.

(** C1 as stated does not hold: pushing the instance that is already on top
    takes its z-index from the entry below it, so it keeps 10020 where the
    top of the stack before the call (itself, at 10020) plus 10 is 10030. *)
Lemma push_previous_top_counterexample :
  ~ push_zIndex_from_previous_top 2 (run [Push 1; Push 2] initial).
Proof.
  intros H. specialize (H (mkOverlay 2 10020 false) eq_refl).
  vm_compute in H. discriminate H.
Qed.

(** ** aria-hidden: [hideEverythingBut] and [showEverything] *)

Lemma node_update_eq (e : Element) (f : Node -> Node) (n : gmap nat Node) :
  node (update e f n) e = f (node n e).
Proof. unfold node at 1, update. by rewrite lookup_insert_eq. Qed.

Lemma node_update_ne (e e' : Element) (f : Node -> Node) (n : gmap nat Node) :
  e <> e' -> node (update e f n) e' = node n e'.
Proof. intros H. unfold node, update. by rewrite lookup_insert_ne. Qed.

Lemma node_update (e e' : Element) (f : Node -> Node) (n : gmap nat Node) :
  node (update e f n) e' = if decide (e' = e) then f (node n e) else node n e'.
Proof.
  case_decide as H.
  - subst. apply node_update_eq.
  - apply node_update_ne. congruence.
Qed.

Lemma hideChild_node (inst child e : Element) (n : gmap nat Node) :
  node (hideChild inst n child) e =
    if decide (e = child) then hideNode inst child (node n child) else node n e.
Proof.
  unfold hideChild, hideNode, toHide, contains.
  destruct (negb (child =? inst)%nat &&
            negb ((child =? inst)%nat || existsb (Nat.eqb inst) (within (node n child))));
    [|by case_decide; subst].
  destruct (decide (e = child)) as [->|Hne].
  - destruct (truthy (ariaHidden (node n child))) eqn:Ht.
    + case_bool_decide as Htrue.
      * rewrite node_update_eq, Htrue.
        destruct (node n child); simpl in *; by subst.
      * by rewrite !node_update_eq.
    + by rewrite !node_update_eq.
  - destruct (truthy (ariaHidden (node n child))).
    + case_bool_decide; by rewrite !node_update_ne by done.
    + by rewrite !node_update_ne by done.
Qed.

Lemma showChild_node (child e : Element) (n : gmap nat Node) :
  node (showChild n child) e =
    if decide (e = child) then showNode (node n child) else node n e.
Proof. unfold showChild. apply node_update. Qed.

Lemma hideNode_idemp (inst child : Element) (x : Node) :
  hideNode inst child (hideNode inst child x) = hideNode inst child x.
Proof.
  unfold hideNode.
  destruct (negb (child =? inst)%nat &&
            negb ((child =? inst)%nat || existsb (Nat.eqb inst) (within x))) eqn:Hc;
    [|by rewrite Hc].
  destruct (truthy (ariaHidden x)) eqn:Ht; simpl; rewrite Hc; simpl; [|done].
  unfold with_ariaHidden, with_previousAriaHidden, or_else. simpl.
  destruct (truthy (_previousAriaHidden x)) eqn:Hp; simpl.
  - by rewrite Hp.
  - by rewrite Ht.
Qed.

Lemma showNode_idemp (x : Node) : showNode (showNode x) = showNode x.
Proof. done. Qed.

(** A loop that rewrites the element it visits with an idempotent function
    leaves every listed element rewritten once and the others untouched. *)
Lemma fold_nodes (step : gmap nat Node -> Element -> gmap nat Node)
                 (g : Element -> Node -> Node) :
  (forall n c e, node (step n c) e = if decide (e = c) then g c (node n c) else node n e) ->
  (forall c x, g c (g c x) = g c x) ->
  forall (l : list Element) (n : gmap nat Node) (e : Element),
    node (fold_left step l n) e =
      if decide (e ∈ l) then g e (node n e) else node n e.
Proof.
  intros Hstep Hidem l. induction l as [|c l IH]; intros n e; cbn [fold_left].
  - case_decide as H; [by apply elem_of_nil in H|done].
  - rewrite IH, Hstep.
    destruct (decide (e = c)) as [->|Hne].
    + destruct (decide (c ∈ c :: l)) as [_|H]; [|by destruct H; left].
      case_decide; [apply Hidem|done].
    + destruct (decide (e ∈ l)) as [Hin|Hnin];
        destruct (decide (e ∈ c :: l)) as [Hin'|Hnin']; try done.
      * destruct Hnin'. by right.
      * apply elem_of_cons in Hin' as [?|?]; done.
Qed.

Lemma hideEverythingBut_node (inst e : Element) (σ : State) :
  node (nodes (exec (hideEverythingBut inst) σ)) e =
    if decide (e = inst)
    then with_ariaHidden (Some "false") (node (nodes σ) inst)
    else if decide (e ∈ bodyChildren σ) then hideNode inst e (node (nodes σ) e)
         else node (nodes σ) e.
Proof.
  unfold hideEverythingBut, exec, modify. simpl.
  rewrite node_update.
  rewrite !(fold_nodes (hideChild inst) (hideNode inst));
    [|intros; apply hideChild_node|intros; apply hideNode_idemp
     |intros; apply hideChild_node|intros; apply hideNode_idemp].
  case_decide as He; [|done]. subst e.
  assert (hideNode inst inst (node (nodes σ) inst) = node (nodes σ) inst) as ->.
  { unfold hideNode. by rewrite Nat.eqb_refl. }
  by case_decide.
Qed.

Lemma showEverything_node (e : Element) (σ : State) :
  node (nodes (exec showEverything σ)) e =
    if decide (e ∈ bodyChildren σ) then showNode (node (nodes σ) e)
    else node (nodes σ) e.
Proof.
  unfold showEverything, exec, modify. simpl.
  apply (fold_nodes showChild (fun _ => showNode)).
  - intros. apply showChild_node.
  - intros. apply showNode_idemp.
Qed.

Lemma hideEverythingBut_bodyChildren inst :
  preserves bodyChildren (hideEverythingBut inst).
Proof. unfold hideEverythingBut. frame. Qed.

(** C7, as the code has it.  Let [child] be an immediate child of
    [document.body] that is not the instance and does not contain it.  After
    [hideEverythingBut(instance)] its [aria-hidden] attribute is ["true"].
    What is stored in [_previousAriaHidden] is: when the attribute was
    present and not empty, the value stored by an earlier call if there is
    one and the value seen now otherwise; ["false"] when the attribute was
    absent or empty.  The instance itself gets [aria-hidden="false"].  A
    following [showEverything()] sets the attribute of every immediate child
    to its stored value, ["false"] when nothing is stored. *)
Theorem hideEverythingBut_showEverything
    (inst child : Element) (σ : State)
    (Hchild : child ∈ bodyChildren σ)
    (Hhide : toHide (nodes σ) inst child = true) :
  let old := node (nodes σ) child in
  let σ1 := exec (hideEverythingBut inst) σ in
  let σ2 := exec showEverything σ1 in
  ariaHidden (node (nodes σ1) child) = Some "true" /\
  _previousAriaHidden (node (nodes σ1) child) =
    (if truthy (ariaHidden old)
     then or_else (_previousAriaHidden old) (ariaHidden old)
     else Some "false") /\
  ariaHidden (node (nodes σ1) inst) = Some "false" /\
  Forall (fun c => ariaHidden (node (nodes σ2) c) =
                   or_else (_previousAriaHidden (node (nodes σ1) c)) (Some "false"))
         (bodyChildren σ).
Proof.
  intros old σ1 σ2.
  assert (child <> inst) as Hne.
  { unfold toHide in Hhide. apply andb_true_iff in Hhide as [H _].
    apply negb_true_iff, Nat.eqb_neq in H. done. }
  assert (node (nodes σ1) child = hideNode inst child old) as Hn.
  { subst σ1. rewrite hideEverythingBut_node.
    by rewrite decide_False, decide_True by done. }
  assert (hideNode inst child old =
          if truthy (ariaHidden old)
          then with_ariaHidden (Some "true")
                 (with_previousAriaHidden (or_else (_previousAriaHidden old) (ariaHidden old)) old)
          else with_ariaHidden (Some "true") (with_previousAriaHidden (Some "false") old)) as Hh.
  { unfold hideNode. unfold toHide, contains in Hhide. fold old in Hhide. by rewrite Hhide. }
  repeat split.
  - rewrite Hn, Hh. by destruct (truthy (ariaHidden old)).
  - rewrite Hn, Hh. by destruct (truthy (ariaHidden old)).
  - subst σ1. rewrite hideEverythingBut_node. by rewrite decide_True by done.
  - apply Forall_forall. intros c Hc. subst σ2.
    rewrite showEverything_node.
    rewrite decide_True; [done|].
    subst σ1. unfold exec. by rewrite hideEverythingBut_bodyChildren.
Qed.

Lemma hideEverythingBut_showEverything_witness :
  let σ1 := exec (hideEverythingBut 2) page in
  let σ2 := exec showEverything σ1 in
  ariaHidden (node (nodes σ1) 1) = Some "true" /\
  _previousAriaHidden (node (nodes σ1) 1) = Some "true" /\
  ariaHidden (node (nodes σ1) 2) = Some "false" /\
  Forall (fun c => ariaHidden (node (nodes σ2) c) =
                   or_else (_previousAriaHidden (node (nodes σ1) c)) (Some "false"))
         (bodyChildren page).
Proof.
  apply (hideEverythingBut_showEverything 2 1 page).
  - apply list_elem_of_here.
  - reflexivity.
Defined.

(** C7 as stated does not hold.  Overlay 1 starts with [aria-hidden="true"];
    overlay 2 opens with a backdrop and stores ["true"] for it; overlay 1
    then opens with a backdrop and shows itself ([aria-hidden="false"]).
    When everything but overlay 2 is hidden again, overlay 1 is seen with
    ["false"] and the stored value stays ["true"]. *)
Lemma stale_previousAriaHidden_counterexample :
  ~ stores_observed_ariaHidden 2
      (run [PushOverlay 2; ShowBackdrop 2; PushOverlay 1; ShowBackdrop 1] page).
Proof.
  intros H. specialize (H 1%nat).
  vm_compute in H.
  specialize (H (list_elem_of_here _ _) eq_refl). discriminate H.
Qed.

(** ** The backdrop *)

Lemma hideEverythingBut_steady inst :
  steady stack_and_backdrop (hideEverythingBut inst).
Proof. unfold hideEverythingBut. steady. Qed.
Lemma showEverything_steady : steady stack_and_backdrop showEverything.
Proof. unfold showEverything. steady. Qed.
Lemma createElement_steady : steady stack_and_backdrop createElement.
Proof. unfold createElement. steady. Qed.
Lemma setDisplay_steady el v : steady stack_and_backdrop (setDisplay el v).
Proof. unfold setDisplay. steady. Qed.
#[export] Hint Resolve hideEverythingBut_steady showEverything_steady
  createElement_steady setDisplay_steady : frame.

Lemma createDocumentTabCaptureEls_steady :
  steady stack_and_backdrop createDocumentTabCaptureEls.
Proof. unfold createDocumentTabCaptureEls. steady. Qed.
Lemma hideDocumentTabCaptureEls_steady :
  steady stack_and_backdrop hideDocumentTabCaptureEls.
Proof. unfold hideDocumentTabCaptureEls. steady. Qed.
#[export] Hint Resolve createDocumentTabCaptureEls_steady
  hideDocumentTabCaptureEls_steady : frame.

Lemma find_None_Forall {A} (f : A -> bool) (l : list A) :
  find f l = None <-> Forall (fun x => f x = false) l.
Proof.
  induction l as [|x l IH]; simpl.
  - split; [constructor|done].
  - destruct (f x) eqn:Hx.
    + split; [done|]. intros H. inversion H; congruence.
    + rewrite IH. split; [by constructor|]. intros H. by inversion H.
Qed.

Lemma existsb_false_Forall {A} (f : A -> bool) (l : list A) :
  existsb f l = false <-> Forall (fun x => f x = false) l.
Proof.
  induction l as [|x l IH]; simpl.
  - split; [constructor|done].
  - rewrite orb_false_iff, IH. split.
    + intros [??]. by constructor.
    + intros H. by inversion H.
Qed.

Lemma topmostBackdrop_None (s : list Overlay) :
  topmostBackdrop s = None <-> existsb backdrop s = false.
Proof.
  unfold topmostBackdrop. rewrite find_None_Forall, existsb_false_Forall.
  rewrite !Forall_forall. split; intros H x Hx; apply H.
  - by apply list_elem_of_In, in_rev, list_elem_of_In in Hx.
  - by apply list_elem_of_In, in_rev, list_elem_of_In.
Qed.

Lemma wp_setBackdropZIndex (z : Z) (bd : Backdrop) (Q : unit -> State -> Prop) σ :
  backdropEl σ = Some bd ->
  Q tt (set_backdropEl (Some (mkBackdrop (bd_node bd) z (bd_isOpen bd))) σ) ->
  wp (setBackdropZIndex z) Q σ.
Proof.
  intros Hbd HQ. unfold setBackdropZIndex. apply wp_bind, wp_gets.
  rewrite Hbd. by apply wp_modify.
Qed.

Lemma wp_setBackdropIsOpen (v : bool) (bd : Backdrop) (Q : unit -> State -> Prop) σ :
  backdropEl σ = Some bd ->
  Q tt (set_backdropEl (Some (mkBackdrop (bd_node bd) (bd_zIndex bd) v)) σ) ->
  wp (setBackdropIsOpen v) Q σ.
Proof.
  intros Hbd HQ. unfold setBackdropIsOpen. apply wp_bind, wp_gets.
  rewrite Hbd. by apply wp_modify.
Qed.

Lemma stack_and_backdrop_eq σ σ' :
  stack_and_backdrop σ' = stack_and_backdrop σ ->
  overlayStack σ' = overlayStack σ /\ backdropEl σ' = backdropEl σ.
Proof. unfold stack_and_backdrop. intros [= ??]. done. Qed.

Lemma wp_doRepositionBackdrop (bd : Backdrop) (o : Overlay)
    (Q : unit -> State -> Prop) σ :
  backdropEl σ = Some bd ->
  topmostBackdrop (overlayStack σ) = Some o ->
  (forall σ', overlayStack σ' = overlayStack σ ->
              backdropEl σ' = Some (mkBackdrop (bd_node bd) (zIndex o - 1) (bd_isOpen bd)) ->
              Q tt σ') ->
  wp doRepositionBackdrop Q σ.
Proof.
  intros Hbd Ho HQ. unfold doRepositionBackdrop. apply wp_bind, wp_gets.
  destruct (top (overlayStack σ)) as [t|] eqn:Ht.
  - rewrite Ho. apply wp_bind. eapply wp_setBackdropZIndex; [done|].
    eapply wp_steady; [apply hideEverythingBut_steady|].
    intros [] σ' [Hs Hb]%stack_and_backdrop_eq. by apply HQ.
  - apply last_None in Ht. rewrite Ht in Ho. discriminate Ho.
Qed.

Lemma wp_doBackdropHide (bd : Backdrop) (Q : unit -> State -> Prop) σ :
  backdropEl σ = Some bd ->
  (forall σ', overlayStack σ' = overlayStack σ ->
              backdropEl σ' = Some (mkBackdrop (bd_node bd) (bd_zIndex bd) false) ->
              Q tt σ') ->
  wp doBackdropHide Q σ.
Proof.
  intros Hbd HQ. unfold doBackdropHide. apply wp_bind, wp_modify.
  apply wp_bind. eapply wp_setBackdropIsOpen; [done|].
  eapply wp_steady; [apply showEverything_steady|].
  intros [] σ' [Hs Hb]%stack_and_backdrop_eq. by apply HQ.
Qed.

Lemma backdrop_settled_view σ σ' :
  stack_and_backdrop σ' = stack_and_backdrop σ ->
  backdrop_settled σ -> backdrop_settled σ'.
Proof.
  intros [Hs Hb]%stack_and_backdrop_eq. unfold backdrop_settled.
  by rewrite Hs, Hb.
Qed.

Lemma wp_hideOrRepositionBackdrop (Q : unit -> State -> Prop) σ :
  backdrop_open σ ->
  (forall σ', overlayStack σ' = overlayStack σ -> backdrop_settled σ' -> Q tt σ') ->
  wp hideOrRepositionBackdrop Q σ.
Proof.
  intros (bd & Hbd & Hopen) HQ. unfold hideOrRepositionBackdrop.
  apply wp_bind, wp_gets. rewrite Hbd, Hopen. simpl.
  apply wp_bind, wp_gets. apply wp_bind.
  assert (forall σ1, overlayStack σ1 = overlayStack σ -> backdrop_settled σ1 ->
            wp (s <- gets overlayStack;; n <- gets nodes;;
                match top s with
                | Some t =>
                    if trapFocusOn (node n (instance t)) &&
                       _requestedBackdrop (node n (instance t))
                    then createDocumentTabCaptureEls
                    else hideDocumentTabCaptureEls
                | None => hideDocumentTabCaptureEls
                end) Q σ1) as Htab.
  { intros σ1 Hs1 Hset. apply wp_bind, wp_gets, wp_bind, wp_gets.
    assert (forall m : M unit, steady stack_and_backdrop m -> wp m Q σ1) as Hm.
    { intros m Hm. eapply wp_steady; [apply Hm|].
      intros [] σ' E. apply HQ.
      - apply stack_and_backdrop_eq in E as [-> _]. done.
      - by apply (backdrop_settled_view σ1). }
    destruct (top (overlayStack σ1)) as [t|]; [|apply Hm; auto with frame].
    destruct (_ && _); apply Hm; auto with frame. }
  destruct (existsb backdrop (overlayStack σ)) eqn:Hex; simpl.
  - destruct (topmostBackdrop (overlayStack σ)) as [o|] eqn:Ho;
      [|apply topmostBackdrop_None in Ho; congruence].
    eapply wp_doRepositionBackdrop; [done..|].
    intros σ' Hs Hb. apply Htab; [done|].
    exists (mkBackdrop (bd_node bd) (zIndex o - 1) (bd_isOpen bd)).
    simpl. rewrite Hs, Hex, Hopen. rewrite Hopen in Hb.
    split; [done|]. split; [by split|].
    intros _. by exists o.
  - eapply wp_doBackdropHide; [done|].
    intros σ' Hs Hb. apply Htab; [done|].
    exists (mkBackdrop (bd_node bd) (bd_zIndex bd) false).
    simpl. rewrite Hs, Hex. split; [done|]. split; [done|]. intros [=].
Qed.

Lemma pop_backdropEl inst : preserves backdropEl (pop inst).
Proof. unfold pop. frame. Qed.

Lemma wp_pop (inst : Element) (Q : option Overlay -> State -> Prop) σ :
  (forall r σ', σ' = exec (pop inst) σ -> backdropEl σ' = backdropEl σ -> Q r σ') ->
  wp (pop inst) Q σ.
Proof.
  intros HQ. destruct (pop_normal inst σ) as [r Hr].
  exists r, (exec (pop inst) σ). split; [done|].
  apply HQ; [done|]. apply pop_backdropEl.
Qed.

Lemma wp_createElement (Q : Element -> State -> Prop) σ :
  Q (nextNode σ) (set_nextNode (S (nextNode σ)) σ) -> wp createElement Q σ.
Proof.
  intros HQ. unfold createElement.
  apply wp_bind, wp_gets, wp_bind, wp_modify. by apply wp_ret.
Qed.

Lemma wp_doBackdropShow (z : Z) (inst : Element) (Q : unit -> State -> Prop) σ :
  (forall σ', overlayStack σ' = overlayStack σ -> backdrop_under z σ' -> Q tt σ') ->
  wp (doBackdropShow z inst) Q σ.
Proof.
  intros HQ. unfold doBackdropShow.
  apply wp_bind, wp_modify, wp_bind, wp_gets, wp_bind.
  assert (forall σ1 bd, overlayStack σ1 = overlayStack σ -> backdropEl σ1 = Some bd ->
            wp (setBackdropZIndex (z - 1);; setBackdropIsOpen true;;
                hideEverythingBut inst) Q σ1) as Hrest.
  { intros σ1 bd Hs Hbd. apply wp_bind.
    eapply wp_setBackdropZIndex; [done|]. apply wp_bind.
    eapply wp_setBackdropIsOpen; [done|].
    eapply wp_steady; [apply hideEverythingBut_steady|].
    intros [] σ' [Hs' Hb']%stack_and_backdrop_eq. apply HQ; [by rewrite Hs'|].
    eexists. split; [by rewrite Hb'|]. done. }
  simpl. destruct (backdropEl σ) as [bd|] eqn:Hbd.
  - apply wp_ret. by apply (Hrest _ bd).
  - apply wp_bind, wp_createElement, wp_bind, wp_modify, wp_modify.
    by eapply Hrest.
Qed.

Lemma get_Some_index (self : Element) (s : list Overlay) (overlay : Overlay) :
  get self s = Some overlay -> s !! Z.to_nat (indexOf self s) = Some overlay.
Proof. unfold get. by destruct (indexOf self s =? -1). Qed.

(** C3, as the code has it.  When the backdrop is open, [_popOverlay]
    takes the entry of the component out of the stack and settles the
    backdrop: it ends closed exactly when no remaining entry has [backdrop]
    set, and otherwise stays open, one below the z-index of the topmost entry
    that has [backdrop] set; [_hideBackdrop] does the same after clearing the
    flag of the component's entry, when the component has an entry.  Whether
    the backdrop is open, closed or not created yet: [_hideBackdrop] on a
    component that has no entry leaves the stack and the backdrop as they
    are; [doBackdropShow(zIndex, instance)] returns with the backdrop open at
    [zIndex - 1], creating it at the first call; and [_showBackdrop] calls it
    with the z-index of the component's entry. *)
Theorem backdrop_hide_or_reposition (self : Element) (σ : State) :
  (backdrop_open σ ->
   wp (_popOverlay self)
      (fun _ σ' => overlayStack σ' = overlayStack (exec (pop self) σ) /\
                   backdrop_settled σ') σ /\
   (forall overlay, get self (overlayStack σ) = Some overlay ->
      wp (_hideBackdrop self)
         (fun _ σ' => stack_keys σ' = stack_keys σ /\ backdrop_settled σ') σ)) /\
  (get self (overlayStack σ) = None ->
     wp (_hideBackdrop self)
        (fun _ σ' => stack_and_backdrop σ' = stack_and_backdrop σ) σ) /\
  (forall overlay, get self (overlayStack σ) = Some overlay ->
     wp (_showBackdrop self) (fun _ σ' => backdrop_under (zIndex overlay) σ') σ) /\
  (forall z inst, wp (doBackdropShow z inst) (fun _ σ' => backdrop_under z σ') σ).
Proof.
  split; [intros Hopen; split|split; [|split]].
  - unfold _popOverlay. apply wp_bind, wp_pop. intros r σ1 Hσ1 Hb.
    apply wp_hideOrRepositionBackdrop.
    + destruct Hopen as (bd & Hbd & Ho). exists bd. by rewrite Hb.
    + intros σ' Hs Hset. by rewrite Hs, Hσ1.
  - intros overlay H.
    unfold _hideBackdrop. apply wp_bind, wp_gets. rewrite H.
    apply wp_bind, wp_bind. unfold setEntryBackdrop. apply wp_modify.
    apply wp_hideOrRepositionBackdrop; [done|].
    intros σ' Hs Hset. apply wp_modify. split.
    + unfold stack_keys. simpl. rewrite Hs. simpl. apply alter_backdrop_keys.
    + by apply (backdrop_settled_view σ').
  - intros Hnone. unfold _hideBackdrop. apply wp_bind, wp_gets. rewrite Hnone.
    apply wp_bind, wp_ret. by apply wp_modify.
  - intros overlay H.
    unfold _showBackdrop. apply wp_bind, wp_gets. rewrite H.
    apply wp_bind, wp_bind. unfold setEntryBackdrop. apply wp_modify.
    apply wp_doBackdropShow. intros σ1 Hs1 Hu.
    apply wp_bind, wp_modify, wp_bind, wp_gets, wp_bind.
    assert (forall m : M unit, steady stack_and_backdrop m ->
              wp m (fun _ σ' =>
                      wp (if trapFocusOn
                               (node (nodes (set_nodes
                                  (update self (with_requestedBackdrop true) (nodes σ1)) σ1)) self)
                          then createDocumentTabCaptureEls else ret tt)
                         (fun _ σ'' => backdrop_under (zIndex overlay) σ'') σ')
                 (set_nodes (update self (with_requestedBackdrop true) (nodes σ1)) σ1)) as Hm.
    { intros m Hm. eapply wp_steady; [apply Hm|].
      intros [] σ2 [Hs2 Hb2]%stack_and_backdrop_eq.
      eapply wp_steady with (proj := stack_and_backdrop).
      - destruct (trapFocusOn _); [auto with frame|apply steady_ret].
      - intros [] σ3 [Hs3 Hb3]%stack_and_backdrop_eq.
        unfold backdrop_under in *. by rewrite Hb3, Hb2. }
    destruct (negb _); apply Hm; [steady|apply steady_ret].
  - intros z inst. apply wp_doBackdropShow. done.
Qed.

(** The theorem at work: with the backdrop open for two overlays,
    [_popOverlay] and [_hideBackdrop] of overlay 2 settle it; [_hideBackdrop]
    of component 3, which has no entry, changes nothing; and with two
    overlays and no backdrop yet, [_showBackdrop] of overlay 2 creates it and
    opens it at 10019. *)
Lemma backdrop_hide_or_reposition_witness :
  wp (_popOverlay 2)
     (fun _ σ' => overlayStack σ' = overlayStack (exec (pop 2) two_backdrops) /\
                  backdrop_settled σ') two_backdrops /\
  wp (_hideBackdrop 2)
     (fun _ σ' => stack_keys σ' = stack_keys two_backdrops /\ backdrop_settled σ')
     two_backdrops /\
  wp (_hideBackdrop 3)
     (fun _ σ' => stack_and_backdrop σ' = stack_and_backdrop two_backdrops)
     two_backdrops /\
  backdropEl two_overlays = None /\
  wp (_showBackdrop 2) (fun _ σ' => backdrop_under 10020 σ') two_overlays /\
  wp (doBackdropShow 10020 2) (fun _ σ' => backdrop_under 10020 σ') two_overlays.
Proof.
  destruct (backdrop_hide_or_reposition 2 two_backdrops) as (Hopen & _ & _ & _).
  destruct Hopen as [Hpop Hhide].
  { exists (mkBackdrop 10 10009 true). split; reflexivity. }
  destruct (backdrop_hide_or_reposition 3 two_backdrops) as (_ & Hnone & _ & _).
  destruct (backdrop_hide_or_reposition 2 two_overlays) as (_ & _ & Hshow & Hdo).
  split; [exact Hpop|].
  split; [exact (Hhide (mkOverlay 2 10020 true) eq_refl)|].
  split; [exact (Hnone eq_refl)|].
  split; [reflexivity|].
  split; [exact (Hshow (mkOverlay 2 10020 true) eq_refl)|].
  exact (Hdo 10020 2%nat).
Defined.

(** C3 as stated does not hold for [_hideBackdrop] on a component that has
    no entry in the stack.  Overlays 1 and 2 are open, at 10010 and 10020;
    overlay 2 asked for the backdrop, then overlay 1 did, which put the
    backdrop at 10009.  [_hideBackdrop] on component 3, which is not in the
    stack, leaves the backdrop there, not at 10019 below overlay 2. *)
Lemma hideBackdrop_untracked_counterexample :
  ~ hideBackdrop_settles 3 two_backdrops.
Proof.
  intros H. destruct H as (bd & Hbd & _ & Hz).
  - exists (mkBackdrop 10 10009 true). split; reflexivity.
  - vm_compute in Hbd. injection Hbd as <-.
    destruct (Hz eq_refl) as (o & Ho & Hzo).
    vm_compute in Ho. injection Ho as <-. discriminate Hzo.
Qed.

End OverlayFacts.


(** * Properties of the component base class *)

Module ComponentFacts.
Import JS Component EffFacts.

(** ** Attribute reflection *)

(** What [_toggleIconAriaHidden] can change: [_renderedLabel] and the
    attributes of the icon. *)
Lemma _toggleIconAriaHidden_shape (K : ElementClass) (c : Component) :
  exists v ea,
    _toggleIconAriaHidden K c
    = set_elementAttributes (fun _ => ea) (set_fields (insert "_renderedLabel" v) c).
Proof.
  unfold _toggleIconAriaHidden. cbv zeta.
  set (v := JS.or _ _). set (c1 := set_fields _ c). exists v.
  destruct (truthy (icon c1)); [|exists (elementAttributes c); by destruct c].
  destruct (if truthy v then _ else _) as [text|];
    [|exists (elementAttributes c); by destruct c].
  destruct (asElement (icon c1)) as [i|]; [|exists (elementAttributes c); by destruct c].
  destruct (_ || _ || _); unfold set_elementAttributes; eexists; reflexivity.
Qed.

Lemma reflects_same (K : ElementClass) (name : string) (c c' : Component) :
  fields c' = fields c -> beyond c' = beyond c ->
  elementAttributes c' = elementAttributes c ->
  reflects K name (attributes c') c c'.
Proof. intros Hf Hb He. repeat split; try done. intros f _. by rewrite Hf. Qed.

(** While the flag is up, the reaction to an attribute change is the one of
    BaseLabellable or nothing: the property assignment does not run. *)
Lemma callback_flagged (K : ElementClass) (name : string) (value : Value)
    (c : Component) :
  _reflectedAttribute c = true ->
  exists v ea,
    attributeChangedCallback K (toLowerCase name) value c
    = (if reacts K name
       then set_elementAttributes (fun _ => ea) (set_fields (insert "_renderedLabel" v) c)
       else c).
Proof.
  intros H. unfold attributeChangedCallback, reacts.
  destruct (labellable K && _).
  - apply _toggleIconAriaHidden_shape.
  - rewrite H. by exists VUndefined, ∅.
Qed.

Lemma reaction_reflects (K : ElementClass) (name : string) (value : Value)
    (c0 c : Component) (flag : bool) :
  _reflectedAttribute c = true ->
  fields c = fields c0 -> beyond c = beyond c0 ->
  elementAttributes c = elementAttributes c0 ->
  reflects K name (attributes c) c0
    (set_reflectedAttribute flag
       (if bool_decide (toLowerCase name ∈ observedAttributes K)
        then attributeChangedCallback K (toLowerCase name) value c
        else c)).
Proof.
  intros Hflag Hf Hb He.
  case_bool_decide; [|by apply (reflects_same K name c0 (set_reflectedAttribute flag c))].
  destruct (callback_flagged K name value c Hflag) as (v & ea & ->).
  destruct (reacts K name) eqn:Hr;
    [|by apply (reflects_same K name c0 (set_reflectedAttribute flag c))].
  split; [done|]. split; [done|]. split; [intros; congruence|].
  intros f Hne. cbn. rewrite lookup_insert_ne by done. by rewrite Hf.
Qed.

(** What [_reflectAttribute] does for a name that [setAttribute] accepts:
    it returns, and the attribute is the reflected one. *)
Lemma wp__reflectAttribute_reacting (K : ElementClass) (name : string) (value : Value)
    (Q : unit -> Component -> Prop) (c : Component) :
  validAttributeName name = true ->
  (forall c',
     attributes c' !! toLowerCase name = reflected name value c ->
     (forall other, other <> toLowerCase name ->
                    attributes c' !! other = attributes c !! other) ->
     reflects K name (attributes c') c c' ->
     Q tt c') ->
  wp (_reflectAttribute K name value) Q c.
Proof.
  intros Hname HQ.
  assert (attributes c !! toLowerCase name = reflected name value c -> Q tt c) as Hsame.
  { intros E. apply HQ; [done|done|by apply reflects_same]. }
  assert (forall v, reflected name value c = Some (String_of v) ->
            wp (modify (set_reflectedAttribute true);; setAttribute K name v;;
                modify (set_reflectedAttribute false)) Q c) as Hset.
  { intros v E. apply wp_bind, wp_modify, wp_bind.
    unfold setAttribute. rewrite Hname. apply wp_modify, wp_modify. cbv zeta.
    set (c1 := set_attributes _ _).
    pose proof (reaction_reflects K name (VString (String_of v)) c c1 false
                  eq_refl eq_refl eq_refl eq_refl) as Hr.
    pose proof Hr as (Ha & _). apply HQ; [| |by rewrite Ha].
    - rewrite Ha. subst c1. cbn. by rewrite lookup_insert_eq.
    - intros other Ho. rewrite Ha. subst c1. cbn. by rewrite lookup_insert_ne. }
  assert (forall v : Value,
            reflected name value c = Some (String_of v) ->
            wp (current <- gets (getAttribute name);;
                if bool_decide (current <> Some (String_of v))
                then modify (set_reflectedAttribute true);;
                     setAttribute K name v;; modify (set_reflectedAttribute false)
                else ret tt) Q c) as Hother.
  { intros v E. apply wp_bind, wp_gets. case_bool_decide as Hcur.
    - by apply Hset.
    - apply wp_ret, Hsame. by rewrite E. }
  destruct value as [| |b|n|s|shown element]; try by apply Hother.
  unfold _reflectAttribute. apply wp_bind, wp_gets. unfold hasAttribute.
  destruct (getAttribute name c) as [old|] eqn:Hold.
  - rewrite bool_decide_eq_true_2 by eauto. destruct b; simpl.
    + apply wp_ret, Hsame. unfold reflected. rewrite Hold. exact Hold.
    + apply wp_bind, wp_modify, wp_bind.
      unfold removeAttribute. apply wp_modify, wp_modify.
      change (attributes (set_reflectedAttribute true c) !! toLowerCase name)
        with (getAttribute name c).
      rewrite Hold. cbv zeta.
      set (c1 := set_attributes _ _).
      pose proof (reaction_reflects K name VNull c c1 false
                    eq_refl eq_refl eq_refl eq_refl) as Hr.
      pose proof Hr as (Ha & _). apply HQ; [| |by rewrite Ha].
      * rewrite Ha. subst c1. cbn. by rewrite lookup_delete_eq.
      * intros other Ho. rewrite Ha. subst c1. cbn. by rewrite lookup_delete_ne.
  - rewrite bool_decide_eq_false_2 by (intros [? ?]; done). destruct b; simpl.
    + apply (Hset (VString "")). unfold reflected. by rewrite Hold.
    + apply wp_ret, Hsame. exact Hold.
Qed.

(** A name to whose changes no class reacts while the flag is up. *)
Lemma reacts_other (K : ElementClass) (name : string) :
  bool_decide (toLowerCase name ∈ labelAttributes) = false -> reacts K name = false.
Proof. intros H. unfold reacts. rewrite H. apply andb_false_r. Qed.

(** For such a name only the attributes and the flag can differ
    afterwards. *)
Lemma wp__reflectAttribute (K : ElementClass) (name : string) (value : Value)
    (Q : unit -> Component -> Prop) (c : Component) :
  validAttributeName name = true -> reacts K name = false ->
  (forall attrs flag,
     attrs !! toLowerCase name = reflected name value c ->
     (forall other, other <> toLowerCase name -> attrs !! other = attributes c !! other) ->
     Q tt (mkComponent attrs (fields c) (classList c) (posted c) flag
             (tabIndex c) (childElements c) (ventListeners c) (labelClasses c)
             (icon c) (textContent c) (elementAttributes c))) ->
  wp (_reflectAttribute K name value) Q c.
Proof.
  intros Hname Hreacts HQ. apply wp__reflectAttribute_reacting; [done|].
  intros c' Hn Ho (_ & Hb & Hr & _). destruct (Hr Hreacts) as [Hf He].
  specialize (HQ (attributes c') (_reflectedAttribute c') Hn Ho).
  destruct c'. cbn in *. injection Hb as -> -> -> -> -> -> -> ->. by subst.
Qed.

(** The names the setters of the library reflect. *)
Ltac literal_name := first [ reflexivity | by apply reacts_other ].




(** ** Enumerated properties *)

Lemma exec_bind {S A B} (m : Eff S A) (f : A -> Eff S B) (σ : S) :
  exec (bind m f) σ =
    match result m σ with
    | Normal a => exec (f a) (exec m σ)
    | Abrupt _ => exec m σ
    end.
Proof. unfold exec, result, bind. by destruct (m σ) as [[a|e] σ']. Qed.

Lemma _reflectAttribute_fields (K : ElementClass) (name : string) (v : Value) :
  validAttributeName name = true -> reacts K name = false ->
  preserves fields (_reflectAttribute K name v).
Proof.
  intros Hname Hreacts c.
  destruct (wp__reflectAttribute K name v (fun _ c' => fields c' = fields c) c)
    as (a & c' & E & H); [done..|]. by rewrite E.
Qed.
#[export] Hint Extern 1 (preserves fields (_reflectAttribute _ _ _)) =>
  (apply _reflectAttribute_fields; [reflexivity|by apply reacts_other]) : frame.

Lemma postMessage_fields (message : string) : preserves fields (postMessage message).
Proof. unfold postMessage. frame. Qed.
Lemma vent_on_fields e sel : preserves fields (vent_on e sel).
Proof. unfold vent_on. frame. Qed.
Lemma vent_off_fields e sel : preserves fields (vent_off e sel).
Proof. unfold vent_off. frame. Qed.
Lemma _updateLabel_None_fields : preserves fields (_updateLabel None).
Proof. unfold _updateLabel. frame. Qed.
#[export] Hint Resolve postMessage_fields vent_on_fields vent_off_fields
  _updateLabel_None_fields : frame.

Section Enumerated.
Context (U : Utils) (O : OverlayEnums).
Context (HU : UtilsSpec U).
Context (K : ElementClass) (T : OverlayTemplate).

(** [validate.enumeration(E)(v) && v || d] is [v] when the validation
    accepts it and it is truthy, and [d] otherwise. *)
Lemma enumerated_cases (E : Enumeration) (v : Value) (d : string) :
  enumerated E v d = if validate_enumeration E v && truthy v then v else VString d.
Proof.
  unfold enumerated, JS.or, JS.and.
  destruct (validate_enumeration E v); cbn [truthy andb]; [|done].
  by destruct (truthy v).
Qed.

Lemma field_assignField (name : string) (v : Value) (c : Component) :
  field name (exec (assignField name v) c) = v.
Proof. unfold field, assignField, exec, modify. simpl. by rewrite lookup_insert_eq. Qed.

(** After a guarded assignment the field holds the new value, whether the
    guard let the assignment happen or not, and whatever the rest did. *)
Lemma guarded_assign_field (name : string) (v : Value)
    (rest : Eff Component unit) (c : Component) :
  preserves fields rest ->
  field name
    (exec (old <- gets (field name);;
           if validate_valueMustChange old v then assignField name v;; rest
           else ret tt) c) = v.
Proof.
  intros Hrest. rewrite exec_bind. unfold result, gets. simpl.
  rewrite valueMustChange_spec. case_bool_decide as E; simpl.
  - done.
  - rewrite exec_bind. unfold result, assignField, modify at 1. simpl.
    unfold field, exec. rewrite Hrest. simpl. by rewrite lookup_insert_eq.
Qed.

Lemma setter_field (p : Property) (value : Value) (c : Component) :
  let handle := match p with
                | Tracking => "_tracking" | ItemType => "_type"
                | Variant => "_variant" | Size => "_size"
                | TrapFocus => "_trapFocus" | ReturnFocus => "_returnFocus"
                | ScrollOnFocus => "_scrollOnFocus"
                end in
  field handle (exec (setter K T p value) c) = settled p value.
Proof.
  destruct p; simpl.
  - unfold set_tracking. by rewrite field_assignField.
  - unfold set_type. by rewrite guarded_assign_field by frame.
  - unfold set_variant, _updateProperty. rewrite guarded_assign_field; [done|frame].
  - unfold set_size, _updateProperty. by rewrite guarded_assign_field by frame.
  - unfold set_trapFocus, _updateProperty. rewrite guarded_assign_field; [done|frame].
  - unfold set_returnFocus. by rewrite field_assignField.
  - unfold set_scrollOnFocus. by rewrite field_assignField.
Qed.

(** What the setter settles on is truthy or the default: the getter, which
    falls back on the default, returns it. *)
Lemma or_settled (p : Property) (value : Value) :
  JS.or (settled p value) (VString (fallback p)) = settled p value.
Proof.
  unfold settled. rewrite enumerated_cases. unfold JS.or.
  destruct (validate_enumeration _ _); cbn [andb].
  - destruct (truthy (normalized p value)) eqn:Ht; [by rewrite Ht|].
    by destruct (truthy (VString (fallback p))).
  - by destruct (truthy (VString (fallback p))).
Qed.

(** C9.  For each of the enumerated properties [tracking], [type],
    [variant], [size], [trapFocus], [returnFocus] and [scrollOnFocus], what
    the getter returns after the setter, whether the setter returns or
    throws: the normalized input when [validate.enumeration] accepts it and
    it is truthy, and the documented default otherwise.  So the getter
    returns a member of the enumeration as far as [validate.enumeration]
    accepts members only; a value that it accepts and that is no member,
    as [constructor] for [type], is stored and returned. *)
Theorem enumerated_property_follows_validate (p : Property) (value : Value)
    (c : Component) :
  let v := normalized p value in
  getter p (exec (setter K T p value) c)
  = if validate_enumeration (enumeration p) v && truthy v
    then v else VString (fallback p).
Proof.
  intros v. pose proof (setter_field p value c) as Hf.
  pose proof (or_settled p value) as Hor.
  assert (settled p value
          = if validate_enumeration (enumeration p) v && truthy v
            then v else VString (fallback p)) as Hs
    by apply enumerated_cases.
  rewrite <- Hs.
  destruct p; simpl in Hf, Hor |- *;
    unfold get_tracking, get_type, get_variant, get_size, get_trapFocus,
           get_returnFocus, get_scrollOnFocus;
    rewrite Hf; try exact Hor.
  (* tracking: the attribute is only read when the field is falsy *)
  assert (truthy (settled Tracking value) = true) as Ht.
  { rewrite Hs. destruct (validate_enumeration _ _); cbn [andb]; [|done].
    by destruct (truthy v) eqn:E. }
  unfold JS.or at 2. rewrite Ht. exact Hor.
Qed.
End Enumerated.

Lemma sample_utils_spec : UtilsSpec sample_utils.
Proof. by split. Qed.

Lemma lookup_utils_spec : UtilsSpec lookup_utils.
Proof. by split. Qed.

(** The [variant] setter of BaseButton ends with an exception whenever it
    changes the stored value: the callback it hands to [_updateProperty]
    ends with [self._updateLabel()], and [_updateLabel] without a label
    reads [self] before its declaration. *)
Theorem variant_setter_throws (U : Utils) (K : ElementClass) (value : Value)
    (c : Component) :
  validate_valueMustChange (field "_variant" c)
    (enumerated variant (transform_toLowerCase value) "default") = true ->
  throws (set_variant K value) c.
Proof.
  intros Hchange. unfold set_variant, _updateProperty. cbv zeta.
  apply throws_bind_r, wp_gets. rewrite Hchange.
  repeat (apply throws_bind_always; intros).
  apply throws_throw.
Qed.

#[local] Existing Instance sample_utils.
#[local] Existing Instance sample_enums.

Lemma variant_setter_throws_witness :
  throws (set_variant sample_class (VString "PRIMARY")) newComponent.
Proof.
  apply (variant_setter_throws sample_utils sample_class (VString "PRIMARY") newComponent).
  reflexivity.
Defined.

Lemma enumerated_property_follows_validate_witness :
  @getter sample_enums ItemType
    (exec (@setter lookup_utils sample_enums sample_class sample_template ItemType
             (VString "Constructor")) newComponent)
  = VString "constructor" /\
  "constructor"%string ∉ members type.
Proof.
  split.
  - exact (enumerated_property_follows_validate lookup_utils sample_enums
             lookup_utils_spec sample_class sample_template ItemType
             (VString "Constructor") newComponent).
  - apply (bool_decide_eq_false_1 ("constructor"%string ∈ members type)). reflexivity.
Defined.

End ComponentFacts.


(** * Properties of content zones *)

Module ContentZoneFacts.
Import JS ContentZone EffFacts.



(** A [div] is refused where a [coral-button-label] is expected, and the
    host is left as it was. *)
Example setContentZone_wrong_tag :
  _setContentZone "label" (VObject "[object HTMLDivElement]" (Some 3))
                  sample_options sample_host
  = (Abrupt "DOMException: The new element is not of the expected type.",
     sample_host).
Proof. reflexivity. Qed.

End ContentZoneFacts.


(** * Properties of the connection callbacks *)

Module GlobalEventsFacts.
Import GlobalEvents EffFacts.



Lemma filter_id {A} (P : A -> Prop) `{!forall x, Decision (P x)} (l : list A) :
  (forall x, P x) -> filter P l = l.
Proof.
  intros HP. induction l as [|x l IH]; [done|].
  by rewrite filter_cons_True, IH.
Qed.

Lemma filter_twice {A} (f g : A -> bool) (l : list A) :
  filter (fun x => g x = true) (filter (fun x => f x = false) l)
  = filter (fun x => negb (f x) && g x = true) l.
Proof.
  rewrite list_filter_filter. apply list_filter_iff.
  intros x. destruct (f x), (g x); simpl; intuition congruence.
Qed.

(** The loops of the two functions. *)
Lemma wp_forEach_events_off (l : list EventListener) (Q : unit -> World -> Prop) w :
  Q tt (set_events (filter (fun x => unmatchedEvent l x = true)) w) ->
  wp (forEach events_off l) Q w.
Proof.
  revert w. induction l as [|e l IH]; intros w HQ; simpl.
  - apply wp_ret. unfold set_events in HQ. rewrite filter_id in HQ by done.
    by destruct w.
  - apply wp_bind. unfold events_off. apply wp_modify, IH.
    unfold set_events in *. simpl in *. by rewrite filter_twice.
Qed.

Lemma wp_forEach_events_on (l : list EventListener) (Q : unit -> World -> Prop) w :
  Q tt (set_events (fun evs => evs ++ l) w) ->
  wp (forEach events_on l) Q w.
Proof.
  revert w. induction l as [|e l IH]; intros w HQ; simpl.
  - apply wp_ret. unfold set_events in HQ. rewrite app_nil_r in HQ. by destruct w.
  - apply wp_bind. unfold events_on. apply wp_modify, IH.
    unfold set_events in *. simpl in *. by rewrite <- (assoc_L (++)).
Qed.
















(** A component that recorded a global key listener and has no [Keys]
    instance: [disconnectedCallback] throws, and so does [connectedCallback]
    after a disconnection.  Both loops over [_globalKeys] call [on] and [off]
    on [self._keys]. *)
Theorem global_keys_need_instance (w : World) (k : KeyListener) (l : list KeyListener) :
  _globalKeys (component w) = Some (k :: l) ->
  _keys (component w) = None ->
  throws disconnectedCallback w /\
  (_disconnected (component w) = Some true -> throws connectedCallback w).
Proof.
  destruct w as [evs [ge gk ks d r]]. simpl. intros -> ->. split.
  - unfold disconnectedCallback. apply throws_bind_r, wp_modify.
    unfold undelegateGlobalEvents.
    do 3 (apply throws_bind_r, wp_gets). simpl.
    apply throws_bind_r.
    assert (forall w', _keys (component w') = None ->
              throws (forEach keys_off (k :: l);; ret tt) w') as Hk.
    { intros w' Hw'. apply throws_bind_l. cbn [forEach]. apply throws_bind_l.
      unfold keys_off, withKeys. apply throws_bind_r, wp_gets. rewrite Hw'.
      apply throws_throw. }
    destruct ge as [es|]; [apply wp_forEach_events_off|apply wp_ret]; by apply Hk.
  - intros ->. unfold connectedCallback. apply throws_bind_r, wp_gets. simpl.
    apply throws_bind_l. unfold delegateGlobalEvents.
    do 3 (apply throws_bind_r, wp_gets). simpl.
    apply throws_bind_r.
    assert (forall w', _keys (component w') = None ->
              throws (forEach keys_on (k :: l);; ret tt) w') as Hk.
    { intros w' Hw'. apply throws_bind_l. cbn [forEach]. apply throws_bind_l.
      unfold keys_on. apply throws_bind_r, wp_gets. rewrite Hw'.
      apply throws_throw. }
    destruct ge as [es|]; [apply wp_forEach_events_on|apply wp_ret]; by apply Hk.
Qed.

Lemma global_keys_need_instance_witness :
  throws disconnectedCallback keyless_world /\
  (_disconnected (component keyless_world) = Some true ->
   throws connectedCallback keyless_world).
Proof.
  apply (global_keys_need_instance keyless_world
           (mkKeyListener "escape.CoralComponent" None 8) []); reflexivity.
Defined.

End GlobalEventsFacts.


(** * Class layering and messages *)

Module ClassesFacts.
Import JS Component Classes EffFacts ComponentFacts.

Lemma root_applyMixin (ms : list Mixin) (superClass : Class) :
  root (foldr applyMixin superClass ms) = root superClass.
Proof.
  induction ms as [|m ms IH]; simpl; [done|]. by destruct m.
Qed.

(** A setter of QuickActionsItem posts its message exactly when the value
    it stores changes. *)
Lemma item_setter_posted (U : Utils) (HU : UtilsSpec U) (K : ElementClass)
    (handle attribute message : string) (v : Value) (c : Component) :
  validAttributeName attribute = true -> reacts K attribute = false ->
  posted
    (exec (old <- gets (field handle);;
           if validate_valueMustChange old v
           then assignField handle v;; _reflectAttribute K attribute v;;
                postMessage message
           else ret tt) c)
  = if bool_decide (field handle c = v) then posted c else posted c ++ [message].
Proof.
  intros Hname Hreacts.
  match goal with |- posted (exec ?m c) = ?r =>
    destruct (wp_exec m (fun _ c' => posted c' = r) c) as (a & _ & Hp); [|done]
  end.
  apply wp_bind, wp_gets. rewrite valueMustChange_spec.
  case_bool_decide as E; simpl.
  - by apply wp_ret.
  - apply wp_bind. unfold assignField. apply wp_modify.
    apply wp_bind, wp__reflectAttribute; [done..|]. intros attrs flag _ _.
    unfold postMessage. by apply wp_modify.
Qed.

(** C6, as the code has it.  The classes are built by layering class bodies
    over [HTMLElement]: a mixin returns a class that extends the class it is
    given ([BaseButton(superClass)] extends [BaseLabellable(superClass)],
    which extends [superClass]), so every mixin stack over [HTMLElement] has
    [HTMLElement] at its root; [QuickActionsItem] is [Decorator] applied to a
    class that extends [BaseComponent(HTMLElement)].  [QuickActionsItem]
    does pass messages: it gives one to its Messenger whenever its content
    mutates and whenever the [href], [icon] or [type] setter changes the
    value it stores. *)
Theorem mixin_layering_and_messages (U : Utils) (HU : UtilsSpec U)
    (K : ElementClass) (superClass : Class) (ms : list Mixin)
    (value : Value) (c : Component) :
  superClassOf (BaseButton superClass) = Some (BaseLabellable superClass) /\
  superClassOf (BaseLabellable superClass) = Some superClass /\
  root (foldr applyMixin HTMLElement ms) = HTMLElement /\
  layers QuickActionsItem = ["Decorator"; "QuickActionsItem"; "BaseComponent"] /\
  root QuickActionsItem = HTMLElement /\
  resolve "_reflectAttribute" QuickActionsItem = Some "BaseComponent" /\
  posted (exec _onMutation c)
    = posted c ++ ["coral-quickactions-item:_contentchanged"] /\
  posted (exec (set_href K value) c)
    = (if bool_decide (field "_href" c = VString (transform_string value))
       then posted c
       else posted c ++ ["coral-quickactions-item:_hrefchanged"]) /\
  posted (exec (set_icon K value) c)
    = (if bool_decide (field "_icon" c = VString (transform_string value))
       then posted c
       else posted c ++ ["coral-quickactions-item:_iconchanged"]) /\
  posted (exec (set_type K value) c)
    = (if bool_decide (field "_type" c
                       = enumerated type
                           (VString (toLowerCase (transform_string value))) "button")
       then posted c
       else posted c ++ ["coral-quickactions-item:_typechanged"]).
Proof.
  split; [done|]. split; [done|].
  split; [apply (root_applyMixin ms HTMLElement)|].
  split; [done|]. split; [done|]. split; [done|]. split; [done|].
  split; [|split].
  - unfold set_href. apply item_setter_posted; [done|literal_name..].
  - unfold set_icon. apply item_setter_posted; [done|literal_name..].
  - unfold set_type. apply item_setter_posted; [done|literal_name..].
Qed.

#[local] Existing Instance sample_utils.

Lemma mixin_layering_and_messages_witness :
  superClassOf (BaseButton HTMLElement) = Some (BaseLabellable HTMLElement) /\
  superClassOf (BaseLabellable HTMLElement) = Some HTMLElement /\
  root (foldr applyMixin HTMLElement [MBaseButton; MBaseComponent]) = HTMLElement /\
  layers QuickActionsItem = ["Decorator"; "QuickActionsItem"; "BaseComponent"] /\
  root QuickActionsItem = HTMLElement /\
  resolve "_reflectAttribute" QuickActionsItem = Some "BaseComponent" /\
  posted (exec _onMutation newComponent)
    = posted newComponent ++ ["coral-quickactions-item:_contentchanged"] /\
  posted (exec (set_href sample_class (VString "/path")) newComponent)
    = (if bool_decide (field "_href" newComponent
                       = VString (transform_string (VString "/path")))
       then posted newComponent
       else posted newComponent ++ ["coral-quickactions-item:_hrefchanged"]) /\
  posted (exec (set_icon sample_class (VString "/path")) newComponent)
    = (if bool_decide (field "_icon" newComponent
                       = VString (transform_string (VString "/path")))
       then posted newComponent
       else posted newComponent ++ ["coral-quickactions-item:_iconchanged"]) /\
  posted (exec (set_type sample_class (VString "/path")) newComponent)
    = (if bool_decide (field "_type" newComponent
                       = enumerated type
                           (VString (toLowerCase (transform_string (VString "/path"))))
                           "button")
       then posted newComponent
       else posted newComponent ++ ["coral-quickactions-item:_typechanged"]).
Proof.
  apply (mixin_layering_and_messages sample_utils sample_utils_spec sample_class
           HTMLElement [MBaseButton; MBaseComponent] (VString "/path") newComponent).
Defined.

(** C6 as stated does not hold: the mutation observer of [QuickActionsItem]
    hands a message to the Messenger of the component. *)
Lemma onMutation_posts_counterexample : ~ never_posts _onMutation.
Proof. intros H. specialize (H newComponent). discriminate H. Qed.

End ClassesFacts.


(** * Properties of the sharing query *)

Module PlaygroundFacts.
Import Playground.

Local Open Scope Z_scope.

(** ** Checking a property on every number below a bound *)

Lemma table (P : Z -> bool) (n : nat) :
  forallb P (map Z.of_nat (seq 0 n)) = true ->
  forall b, 0 <= b < Z.of_nat n -> P b = true.
Proof.
  intros H b Hb. rewrite forallb_forall in H. apply H.
  apply in_map_iff. exists (Z.to_nat b). split; [lia|].
  apply in_seq. lia.
Qed.

(** ** Arrays of bytes as strings of decimal numbers *)

Lemma byte_decimal (b : Z) :
  byte b -> toByte (decimalChars b) = b /\ no_comma (decimalChars b) = true.
Proof.
  intros Hb.
  assert (forallb (fun b => (toByte (decimalChars b) =? b) && no_comma (decimalChars b))
                  (map Z.of_nat (seq 0 256)) = true) as Ht by (vm_compute; reflexivity).
  pose proof (table _ _ Ht b Hb) as H. simpl in H.
  apply andb_true_iff in H as [H1 H2]. split; [lia|done].
Qed.

Lemma split_no_comma (x : list ascii) : no_comma x = true -> split x = [x].
Proof.
  unfold no_comma. induction x as [|c x IH]; [done|].
  cbn [forallb split]. destruct (Ascii.eqb c comma); [done|].
  intros Hx. by rewrite IH.
Qed.

Lemma split_app_comma (x r : list ascii) :
  no_comma x = true -> split (x ++ comma :: r) = x :: split r.
Proof.
  unfold no_comma. induction x as [|c x IH].
  - intros _. cbn [app split]. by rewrite Ascii.eqb_refl.
  - cbn [forallb split app]. destruct (Ascii.eqb c comma); [done|].
    intros Hx. by rewrite IH.
Qed.

Lemma split_join (l : list (list ascii)) :
  l <> [] -> Forall (fun x => no_comma x = true) l -> split (join l) = l.
Proof.
  intros Hne Hl. induction Hl as [|x l Hx Hl IH]; [done|].
  destruct l as [|y l].
  - simpl. by apply split_no_comma.
  - change (join (x :: y :: l)) with (x ++ comma :: join (y :: l)).
    rewrite split_app_comma by done. by rewrite IH.
Qed.

Lemma toByte_decimal (bs : list Z) :
  Forall byte bs -> toByte <$> (decimalChars <$> bs) = bs.
Proof.
  induction 1 as [|b bs Hb _ IH]; [done|].
  rewrite !fmap_cons, IH. f_equal. by apply byte_decimal.
Qed.

Lemma decimal_no_comma (bs : list Z) :
  Forall byte bs -> Forall (fun x => no_comma x = true) (decimalChars <$> bs).
Proof.
  induction 1 as [|b bs Hb _ IH]; [constructor|].
  rewrite fmap_cons. constructor; [by apply byte_decimal|done].
Qed.

(** ** Characters and their codes *)

Lemma charCodeAt0_byte (c : ascii) : byte (charCodeAt0 c).
Proof.
  unfold byte, charCodeAt0. pose proof (nat_ascii_bounded c). lia.
Qed.

Lemma fromCharCode_charCodeAt0 (c : ascii) : fromCharCode (charCodeAt0 c) = c.
Proof.
  unfold fromCharCode. pose proof (charCodeAt0_byte c) as Hb. unfold byte in Hb.
  rewrite Z.mod_small by done. unfold charCodeAt0.
  rewrite Nat2Z.id. apply ascii_nat_embedding.
Qed.

Lemma fromCharCode_codes (s : list ascii) :
  fromCharCode <$> (charCodeAt0 <$> s) = s.
Proof.
  induction s as [|c s IH]; [done|].
  by rewrite !fmap_cons, IH, fromCharCode_charCodeAt0.
Qed.

Lemma codes_bytes (s : list ascii) : Forall byte (charCodeAt0 <$> s).
Proof.
  induction s as [|c s IH]; [constructor|].
  rewrite fmap_cons. constructor; [apply charCodeAt0_byte|done].
Qed.

(** ** Base64 *)

(** Induction on lists, three elements at a time. *)
Lemma list_ind3 {A} (P : list A -> Prop) :
  P [] -> (forall a, P [a]) -> (forall a b, P [a; b]) ->
  (forall a b c rest, P rest -> P (a :: b :: c :: rest)) ->
  forall l, P l.
Proof.
  intros H0 H1 H2 H3 l.
  assert (P l /\ (forall a, P (a :: l)) /\ (forall a b, P (a :: b :: l))) as [H _].
  { induction l as [|x l (IH0 & IH1 & IH2)]; [by repeat split|].
    split; [apply IH1|]. split; [intros a; apply IH2|]. intros a b. by apply H3. }
  exact H.
Qed.

(** Arithmetic with quotients and remainders by constants. *)
Ltac euclid := Z.div_mod_to_equations; lia.

Lemma encode_body (l : list Z) :
  encode l = (char_of_sextet <$> body l) ++ replicate (padding l) equals.
Proof.
  induction l as [|a|a b|a b c rest IH] using list_ind3; try done.
  cbn [encode body padding]. rewrite !fmap_cons. cbn [app]. by rewrite IH.
Qed.

Lemma body_sextets (l : list Z) : Forall byte l -> Forall sextet (body l).
Proof.
  unfold byte, sextet.
  induction l as [|a|a b|a b c rest IH] using list_ind3; intros Hl; cbn [body].
  - constructor.
  - inversion_clear Hl. repeat (constructor; [euclid|]). constructor.
  - inversion_clear Hl as [|?? Ha Hl']. inversion_clear Hl'.
    repeat (constructor; [euclid|]). constructor.
  - inversion_clear Hl as [|?? Ha Hl']. inversion_clear Hl' as [|?? Hb Hl''].
    inversion_clear Hl'' as [|?? Hc Hrest].
    repeat (constructor; [euclid|]). by apply IH.
Qed.

Lemma decode_body (l : list Z) : Forall byte l -> decode (body l) = l.
Proof.
  unfold byte.
  induction l as [|a|a b|a b c rest IH] using list_ind3; intros Hl; cbn [body decode].
  - done.
  - inversion_clear Hl. f_equal. euclid.
  - inversion_clear Hl as [|?? Ha Hl']. inversion_clear Hl'.
    f_equal; [euclid|]. f_equal. euclid.
  - inversion_clear Hl as [|?? Ha Hl']. inversion_clear Hl' as [|?? Hb Hl''].
    inversion_clear Hl'' as [|?? Hc Hrest].
    rewrite IH by done. f_equal; [euclid|]. f_equal; [euclid|]. f_equal. euclid.
Qed.

(** The shapes an encoding can have. *)
Lemma body_length (l : list Z) :
  exists k : nat,
    (padding l = 0%nat /\ length (body l) = (4 * k)%nat) \/
    (padding l = 1%nat /\ length (body l) = (4 * k + 3)%nat) \/
    (padding l = 2%nat /\ length (body l) = (4 * k + 2)%nat).
Proof.
  induction l as [|a|a b|a b c rest IH] using list_ind3.
  - exists 0%nat. by left.
  - exists 0%nat. right. by right.
  - exists 0%nat. right. by left.
  - destruct IH as [k IH]. exists (S k). cbn [body padding length]. lia.
Qed.

Lemma sextet_char (n : Z) :
  sextet n ->
  sextet_of_char (char_of_sextet n) = Some n /\
  char_of_sextet n <> equals /\
  is_whitespace (char_of_sextet n) = false /\
  char_of_sextet n <> ampersand /\
  char_of_sextet n <> percent.
Proof.
  intros Hn.
  assert (forallb (fun n =>
            bool_decide (sextet_of_char (char_of_sextet n) = Some n) &&
            negb (Ascii.eqb (char_of_sextet n) equals) &&
            negb (is_whitespace (char_of_sextet n)) &&
            negb (Ascii.eqb (char_of_sextet n) ampersand) &&
            negb (Ascii.eqb (char_of_sextet n) percent))
          (map Z.of_nat (seq 0 64)) = true) as Ht by (vm_compute; reflexivity).
  pose proof (table _ _ Ht n Hn) as H. simpl in H.
  repeat (apply andb_true_iff in H as [H ?]).
  repeat match goal with
         | H : negb _ = true |- _ => apply negb_true_iff in H
         | H : Ascii.eqb _ _ = false |- _ => apply Ascii.eqb_neq in H
         end.
  apply bool_decide_eq_true in H. done.
Qed.

Lemma sextets_chars (ns : list Z) :
  Forall sextet ns -> sextets (char_of_sextet <$> ns) = Some ns.
Proof.
  induction 1 as [|n ns Hn _ IH]; [done|].
  rewrite fmap_cons. cbn [sextets].
  destruct (sextet_char n Hn) as [-> _]. by rewrite IH.
Qed.

Lemma filter_Forall_id {A} (P : A -> Prop) `{!forall x, Decision (P x)} (l : list A) :
  Forall P l -> filter P l = l.
Proof.
  induction 1 as [|x l Hx _ IH]; [done|].
  by rewrite filter_cons_True, IH.
Qed.

(** An encoding has no white space. *)
Lemma encoding_no_whitespace (ns : list Z) (p : nat) :
  Forall sextet ns ->
  Forall (fun c => is_whitespace c = false)
         ((char_of_sextet <$> ns) ++ replicate p equals).
Proof.
  intros Hns. apply Forall_app. split.
  - apply Forall_fmap. eapply Forall_impl; [done|].
    intros n Hn. by apply sextet_char.
  - apply Forall_replicate. done.
Qed.

Lemma remove_padding_encoding (ns : list Z) (p k : nat) :
  Forall sextet ns ->
  (p = 0%nat /\ length ns = (4 * k)%nat) \/
  (p = 1%nat /\ length ns = (4 * k + 3)%nat) \/
  (p = 2%nat /\ length ns = (4 * k + 2)%nat) ->
  remove_padding ((char_of_sextet <$> ns) ++ replicate p equals)
  = char_of_sextet <$> ns.
Proof.
  intros Hns Hshape. unfold remove_padding.
  assert (Z.of_nat (length ((char_of_sextet <$> ns) ++ replicate p equals)) mod 4 = 0)
    as Hlen.
  { rewrite length_app, length_fmap, length_replicate.
    destruct Hshape as [[-> ->]|[[-> ->]|[-> ->]]].
    - replace (Z.of_nat (4 * k + 0)) with (Z.of_nat k * 4) by lia.
      apply Z.mod_mul. lia.
    - replace (Z.of_nat (4 * k + 3 + 1)) with ((Z.of_nat k + 1) * 4) by lia.
      apply Z.mod_mul. lia.
    - replace (Z.of_nat (4 * k + 2 + 2)) with ((Z.of_nat k + 1) * 4) by lia.
      apply Z.mod_mul. lia. }
  rewrite Hlen. change (0 =? 0) with true. cbv iota.
  rewrite rev_app_distr.
  assert (forall c, In c (rev (char_of_sextet <$> ns)) -> Ascii.eqb c equals = false)
    as Hchars.
  { intros c Hc. apply in_rev, list_elem_of_In, list_elem_of_fmap in Hc as (n & -> & Hn).
    apply Ascii.eqb_neq, sextet_char. rewrite Forall_forall in Hns. by apply Hns. }
  destruct Hshape as [[-> Hl]|[[-> Hl]|[-> Hl]]]; cbn [replicate rev app].
  - rewrite app_nil_r.
    destruct (rev (char_of_sextet <$> ns)) as [|x [|y r]] eqn:Hr.
    + done.
    + by rewrite (Hchars x) by (by left).
    + by rewrite (Hchars x) by (by left).
  - destruct (rev (char_of_sextet <$> ns)) as [|y r] eqn:Hr.
    + apply (f_equal (@length ascii)) in Hr.
      rewrite length_rev, length_fmap in Hr. simpl in Hr. lia.
    + cbn [app]. rewrite Ascii.eqb_refl, (Hchars y) by (by left).
      change (rev r ++ [y]) with (rev (y :: r)).
      rewrite <- Hr. apply rev_involutive.
  - rewrite !Ascii.eqb_refl. apply rev_involutive.
Qed.

(** [atob] undoes [btoa]. *)
Lemma atob_btoa (data : list ascii) : atob (btoa data) = Normal data.
Proof.
  unfold btoa. set (l := charCodeAt0 <$> data).
  assert (Forall byte l) as Hl by apply codes_bytes.
  pose proof (body_sextets l Hl) as Hns.
  destruct (body_length l) as [k Hshape].
  unfold atob. rewrite encode_body.
  rewrite filter_Forall_id by (by apply encoding_no_whitespace).
  rewrite (remove_padding_encoding _ _ k) by done.
  rewrite length_fmap.
  assert ((Z.of_nat (length (body l)) mod 4 =? 1) = false) as ->.
  { apply Z.eqb_neq.
    destruct Hshape as [[_ ->]|[[_ ->]|[_ ->]]].
    - replace (Z.of_nat (4 * k)) with (Z.of_nat k * 4) by lia.
      rewrite Z.mod_mul; lia.
    - replace (Z.of_nat (4 * k + 3)) with (3 + Z.of_nat k * 4) by lia.
      rewrite Z.mod_add; [|lia]. done.
    - replace (Z.of_nat (4 * k + 2)) with (2 + Z.of_nat k * 4) by lia.
      rewrite Z.mod_add; [|lia]. done. }
  rewrite sextets_chars by done. rewrite decode_body by done.
  subst l. by rewrite fromCharCode_codes.
Qed.

(** ** [_compress] and [_uncompress] *)

Lemma decimal_nonempty (b : Z) : byte b -> decimalChars b <> [].
Proof.
  intros Hb.
  assert (forallb (fun b => negb (Nat.eqb (length (decimalChars b)) 0))
                  (map Z.of_nat (seq 0 256)) = true) as Ht by (vm_compute; reflexivity).
  pose proof (table _ _ Ht b Hb) as H. simpl in H.
  intros Heq. rewrite Heq in H. discriminate.
Qed.

Lemma uncompress_compress `{D : Deflate} `{!DeflateSpec D} (code : string) :
  _uncompress (_compress code) = Normal code.
Proof.
  unfold _uncompress, _compress. cbv zeta.
  rewrite list_ascii_of_string_of_list_ascii, atob_btoa.
  pose proof (codes_bytes (list_ascii_of_string code)) as Hcode.
  pose proof (rawdeflate_bytes _ Hcode) as Hdef.
  destruct (rawdeflate (charCodeAt0 <$> list_ascii_of_string code)) as [|b bs] eqn:Hr.
  - (* the empty array: [''.split(',')] is [['']] *)
    destruct (rawdeflate_empty _ Hcode Hr) as [Hnil Hzero].
    apply fmap_nil_inv in Hnil.
    change (toByte <$> split (join (decimalChars <$> []))) with [0].
    rewrite Hzero. destruct code; [done|discriminate Hnil].
  - rewrite split_join; [|done|by apply decimal_no_comma].
    rewrite toByte_decimal by done. rewrite <- Hr.
    rewrite rawinflate_rawdeflate by (done || by rewrite Hr).
    by rewrite fromCharCode_codes, string_of_list_ascii_of_string.
Qed.

Lemma encode_nonempty (l : list Z) : l <> [] -> encode l <> [].
Proof. by destruct l as [|a [|b [|c r]]]. Qed.

Lemma encode_chars (l : list Z) (c : ascii) :
  Forall byte l -> c ∈ encode l -> c <> ampersand /\ c <> percent.
Proof.
  intros Hl. rewrite encode_body. intros [Hc|Hc]%elem_of_app.
  - apply list_elem_of_fmap in Hc as (n & -> & Hn).
    pose proof (body_sextets l Hl) as Hns. rewrite Forall_forall in Hns.
    by apply sextet_char, Hns.
  - apply elem_of_replicate in Hc as [-> _]. by split.
Qed.

Lemma compress_plain `{D : Deflate} `{!DeflateSpec D} (code : string) :
  plain_value (_compress code) /\ (code <> ""%string -> _compress code <> ""%string).
Proof.
  unfold plain_value, _compress. cbv zeta.
  rewrite list_ascii_of_string_of_list_ascii. unfold btoa.
  set (data := join _).
  pose proof (codes_bytes data) as Hdata.
  split; [split; intros Hc; by apply (encode_chars _ _ Hdata) in Hc as [? ?]|].
  intros Hcodene Hnil. apply (f_equal list_ascii_of_string) in Hnil.
  rewrite list_ascii_of_string_of_list_ascii in Hnil. simpl in Hnil.
  apply encode_nonempty in Hnil; [done|].
  intros Hd. apply fmap_nil_inv in Hd. subst data.
  pose proof (codes_bytes (list_ascii_of_string code)) as Hcode.
  pose proof (rawdeflate_bytes _ Hcode) as Hdef.
  destruct (rawdeflate (charCodeAt0 <$> list_ascii_of_string code)) as [|b bs] eqn:Hr.
  { destruct (rawdeflate_empty _ Hcode Hr) as [Hcnil _].
    apply fmap_nil_inv in Hcnil. apply Hcodene. by destruct code. }
  inversion_clear Hdef as [|?? Hb _].
  apply decimal_nonempty in Hb. rewrite fmap_cons in Hd. cbn [join] in Hd.
  destruct (decimalChars b) as [|x xs]; [done|].
  by destruct (decimalChars <$> bs).
Qed.

(** ** [share], [_parseQueryString] and [read] *)

Lemma assignKey_other (k v : string) (o : gmap string string) :
  k <> "__proto__"%string -> assignKey k v o = <[k := v]> o.
Proof. intros Hk. unfold assignKey. by apply String.eqb_neq in Hk as ->. Qed.

Lemma chars_append (a b : string) :
  list_ascii_of_string (a ++ b) = list_ascii_of_string a ++ list_ascii_of_string b.
Proof. induction a as [|c a IH]; [done|]. simpl. by f_equal. Qed.

Lemma share_chars `{Deflate} (st : Settings) (ps : list string) (q : string) :
  list_ascii_of_string
    (fold_left (fun query property =>
                  match shared st property with
                  | Some v => query ++ property ++ "=" ++ v ++ "&"
                  | None => query
                  end)%string ps q)
  = list_ascii_of_string q ++ chars (pairs st ps).
Proof.
  revert q. induction ps as [|p ps IH]; intros q; cbn [fold_left].
  - unfold pairs. cbn. by rewrite app_nil_r.
  - rewrite IH. unfold pairs. cbn [omap list_omap].
    destruct (shared st p) as [v|]; cbn [fmap option_fmap option_map chars]; [|done].
    rewrite !chars_append, <- !app_assoc. reflexivity.
Qed.

Lemma matches_value (k v w rest : list ascii) :
  ampersand ∉ w ->
  matches (InValue k v) (w ++ ampersand :: rest)
  = (string_of_list_ascii k, Some (string_of_list_ascii (v ++ w))) :: matches Between rest.
Proof.
  revert v. induction w as [|c w IH]; intros v Hw; cbn [app matches].
  - by rewrite Ascii.eqb_refl, app_nil_r.
  - apply not_elem_of_cons in Hw as [Hc Hw].
    destruct (Ascii.eqb_spec c ampersand) as [->|_]; [done|].
    rewrite IH by done. by rewrite <- app_assoc.
Qed.

Lemma matches_key (k w rest : list ascii) :
  forallb (fun c => negb (delimiter c)) w = true ->
  matches (InKey k) (w ++ equals :: rest) = matches (InValue (k ++ w) []) rest.
Proof.
  revert k. induction w as [|c w IH]; intros k; cbn [app matches forallb].
  - intros _. by rewrite Ascii.eqb_refl, app_nil_r.
  - intros [Hc Hw]%andb_true_iff. apply negb_true_iff in Hc. rewrite Hc.
    unfold delimiter in Hc. apply orb_false_iff in Hc as [[_ ->]%orb_false_iff _].
    rewrite IH by done. by rewrite <- app_assoc.
Qed.

Lemma matches_pair (k v : string) (rest : list ascii) :
  plain_key k -> ampersand ∉ list_ascii_of_string v ->
  matches Between
    (list_ascii_of_string k ++ equals :: list_ascii_of_string v ++ ampersand :: rest)
  = (k, Some v) :: matches Between rest.
Proof.
  intros [Hne Hk] Hv. destruct k as [|c k]; [done|].
  cbn [list_ascii_of_string forallb app matches] in *.
  apply andb_true_iff in Hk as [Hc Hk]. apply negb_true_iff in Hc. rewrite Hc.
  rewrite matches_key, matches_value by done. cbn [app string_of_list_ascii].
  by rewrite !string_of_list_ascii_of_string.
Qed.

Lemma matches_chars (kvs : list (string * string)) :
  Forall plain kvs ->
  matches Between (chars kvs) = (fun kv => (kv.1, Some kv.2)) <$> kvs.
Proof.
  induction 1 as [|[k v] kvs [Hk [Hv _]] _ IH]; [done|].
  cbn [chars]. rewrite matches_pair by done. by rewrite IH.
Qed.

Lemma parse_pairs `{R : URI} `{!URISpec R} (kvs : list (string * string))
    (o : gmap string string) :
  Forall plain kvs ->
  fold_left record_match ((fun kv => (kv.1, Some kv.2)) <$> kvs) (Normal o)
  = Normal (fold_left record kvs o).
Proof.
  intros Hkvs. revert o. induction Hkvs as [|[k v] kvs [_ [_ Hv]] _ IH]; intros o; [done|].
  rewrite fmap_cons. cbn [fold_left]. unfold record_match at 2. cbn [fst snd default].
  rewrite decodeURI_plain by done. apply IH.
Qed.

Lemma parse_share `{D : Deflate} `{R : URI} `{!URISpec R} (st : Settings) :
  Forall plain (pairs st PROPERTIES) ->
  _parseQueryString (share st) = Normal (fold_left record (pairs st PROPERTIES) ∅).
Proof.
  intros Hp. unfold _parseQueryString, share. rewrite share_chars.
  change (list_ascii_of_string "?") with [question]. cbn [app matches].
  change (delimiter question) with true. cbv iota.
  rewrite matches_chars by done. by apply parse_pairs.
Qed.

(** A character is not in a given string. *)
Ltac absent :=
  let Hin := fresh "Hin" in
  intros Hin; cbn [list_ascii_of_string] in Hin;
  repeat (apply elem_of_cons in Hin as [Hin|Hin]; [discriminate Hin|]);
  by apply elem_of_nil in Hin.

Ltac plain_pair :=
  split; [split; [done|reflexivity]|
          first [ assumption | split; absent ]].

Lemma pairs_code `{D : Deflate} `{!DeflateSpec D} (st : Settings) :
  code st <> ""%string -> plain_screen st ->
  Forall plain (pairs st PROPERTIES) /\
  fold_left record (pairs st PROPERTIES) ∅ !! "code"%string = Some (_compress (code st)).
Proof.
  intros Hcode Hscreen.
  destruct (compress_plain (code st)) as [Hplain _].
  unfold pairs, PROPERTIES. cbn [omap list_omap].
  change (shared st "livereload") with (if livereload st then Some "true"%string else None).
  change (shared st "screen")
    with (match screen st with
          | Some s => if String.eqb s "" then None else Some s
          | None => None
          end).
  change (shared st "code")
    with (if String.eqb (code st) "" then None else Some (_compress (code st))).
  apply String.eqb_neq in Hcode. rewrite Hcode.
  unfold plain_screen in Hscreen.
  destruct (livereload st), (screen st) as [s|];
    try (specialize (Hscreen s eq_refl); destruct (String.eqb s ""));
    cbn [fmap option_fmap option_map fold_left record fst snd];
    (split; [repeat (constructor; [plain_pair|]); constructor
            |unfold record at 1; cbn [fst snd];
             rewrite assignKey_other by discriminate; apply lookup_insert_eq]).
Qed.

Lemma read_property_other `{D : Deflate} (params : gmap string string)
    (cfg : gmap string JS.Value) (p : string) :
  String.eqb p "code" = false ->
  exists cfg', read_property params (Normal cfg) p = Normal cfg'.
Proof.
  intros Hp. unfold read_property. rewrite Hp. cbn [andb].
  destruct (params !! p); eauto.
Qed.

Lemma sample_deflate_spec : DeflateSpec sample_deflate.
Proof.
  split; cbn.
  - intros [|b bs] Hbs; [done|]. constructor; [unfold byte; lia|done].
  - by intros [|b bs].
  - by intros [|b bs].
Qed.

Lemma sample_uri_spec : URISpec sample_uri.
Proof. split. intros s Hs. cbn. by rewrite bool_decide_eq_false_2. Qed.

(** C10.  For a codec that satisfies [DeflateSpec] and a [decodeURI] that
    satisfies [URISpec], [_uncompress (_compress c)] returns [c] for every
    string [c] of one-byte characters, the empty string among them, and when
    the playground has some code (and a screen value without [&] and [%], as
    the three values of the enumeration are), [read] applied to the query of
    [share] returns a configuration whose [code] is the code of the
    playground. *)
Theorem compress_uncompress_share_read `{D : Deflate} `{R : URI}
    (HD : DeflateSpec D) (HR : URISpec R) (st : Settings) (c : string) :
  _uncompress (_compress c) = Normal c /\
  (code st <> ""%string -> plain_screen st ->
   exists config, read (share st) = Normal config /\
                  config !! "code"%string = Some (JS.VString (code st))).
Proof.
  split; [apply uncompress_compress|].
  intros Hcode Hscreen.
  destruct (pairs_code st Hcode Hscreen) as [Hplain Hlookup].
  destruct (compress_plain (code st)) as [_ Hne]. specialize (Hne Hcode).
  unfold read. rewrite parse_share by done.
  set (params := fold_left record (pairs st PROPERTIES) ∅) in *.
  case_bool_decide as Hempty.
  { rewrite Hempty, lookup_empty in Hlookup. discriminate. }
  unfold PROPERTIES. cbn [fold_left].
  destruct (read_property_other params ∅ "livereload" eq_refl) as [c1 ->].
  destruct (read_property_other params c1 "screen" eq_refl) as [c2 ->].
  unfold read_property. rewrite Hlookup.
  change (String.eqb "code" "code") with true. cbn [andb].
  apply String.eqb_neq in Hne. rewrite Hne. cbn [negb].
  rewrite uncompress_compress.
  eexists. split; [done|]. apply lookup_insert_eq.
Qed.

Lemma compress_uncompress_share_read_witness :
  @_uncompress sample_deflate (@_compress sample_deflate "")
  = Normal ""%string /\
  exists config, @read sample_deflate sample_uri (@share sample_deflate sample_settings)
                 = Normal config /\
                 config !! "code"%string = Some (JS.VString (code sample_settings)).
Proof.
  destruct (@compress_uncompress_share_read sample_deflate sample_uri
              sample_deflate_spec sample_uri_spec sample_settings "")
    as [Hround Hread].
  split; [exact Hround|]. apply Hread.
  - discriminate.
  - intros s Hs. injection Hs as <-. split; absent.
Defined.

End PlaygroundFacts.

(** * Properties of the overlay machinery over runs of calls *)

Module OverlayRunsFacts.
Import Overlay OverlayRuns EffFacts OverlayFacts.

Local Open Scope Z_scope.

Lemma hideEverythingBut_shell inst : steady shell (hideEverythingBut inst).
Proof. unfold hideEverythingBut. steady. Qed.
Lemma showEverything_shell : steady shell showEverything.
Proof. unfold showEverything. steady. Qed.
Lemma createElement_shell : steady shell createElement.
Proof. unfold createElement. steady. Qed.
Lemma setDisplay_shell el v : steady shell (setDisplay el v).
Proof. unfold setDisplay. steady. Qed.
#[export] Hint Resolve hideEverythingBut_shell showEverything_shell
  createElement_shell setDisplay_shell : frame.

Lemma createDocumentTabCaptureEls_shell : steady shell createDocumentTabCaptureEls.
Proof. unfold createDocumentTabCaptureEls. steady. Qed.
Lemma hideDocumentTabCaptureEls_shell : steady shell hideDocumentTabCaptureEls.
Proof. unfold hideDocumentTabCaptureEls. steady. Qed.
#[export] Hint Resolve createDocumentTabCaptureEls_shell
  hideDocumentTabCaptureEls_shell : frame.

Lemma shell_eq σ σ' :
  shell σ' = shell σ ->
  overlayStack σ' = overlayStack σ /\ backdropEl σ' = backdropEl σ /\
  bodyNoScroll σ' = bodyNoScroll σ.
Proof. unfold shell. intros [= ???]. done. Qed.

Lemma sound_shell σ σ' : shell σ' = shell σ -> sound σ -> sound σ'.
Proof.
  intros (Hs & Hb & Hn)%shell_eq. unfold sound. by rewrite Hs, Hb, Hn.
Qed.

Lemma pristine_sound σ : pristine σ -> sound σ.
Proof.
  intros (Hs & Hb & Hn). unfold sound. rewrite Hs, Hb, Hn. simpl.
  split; [constructor|]. split; [done|constructor].
Qed.

(** A computation of the tail of a method that leaves the shell alone keeps
    what holds of it. *)
Lemma wp_sound_steady (m : M unit) σ :
  steady shell m -> sound σ -> wp m (fun _ σ' => sound σ') σ.
Proof.
  intros Hm Hσ. eapply wp_steady; [apply Hm|].
  intros [] σ' E. by apply (sound_shell σ).
Qed.

Lemma pred_mod (z : Z) : z mod 10 = 0 -> (z - 1) mod 10 = 9.
Proof. intros H. Z.div_mod_to_equations. lia. Qed.

Lemma succ_mod (z : Z) : z mod 10 = 0 -> (z + 10) mod 10 = 0.
Proof. intros H. Z.div_mod_to_equations. lia. Qed.

Lemma getHighestZIndex_mod (s : list Overlay) :
  Forall (fun z => z mod 10 = 0) (zIndex <$> s) -> getHighestZIndex s mod 10 = 0.
Proof.
  intros Hs. unfold getHighestZIndex, top.
  destruct (last s) as [o|] eqn:Ho; [|done].
  rewrite Forall_fmap, Forall_forall in Hs. apply Hs.
  apply last_Some in Ho as [l' ->]. apply elem_of_app. right. apply list_elem_of_here.
Qed.

Lemma topmostBackdrop_Some (s : list Overlay) (o : Overlay) :
  topmostBackdrop s = Some o -> o ∈ s /\ backdrop o = true.
Proof.
  unfold topmostBackdrop. intros [Hin Hb]%find_some.
  split; [|done]. by apply list_elem_of_In, in_rev.
Qed.

(** [pop] keeps the invariant; the entry it returns comes from the stack. *)
Lemma wp_pop_sound (inst : Element) (Q : option Overlay -> State -> Prop) σ :
  sound σ ->
  (forall r σ',
     sound σ' -> backdropEl σ' = backdropEl σ ->
     (forall o, r = Some o ->
        instance o = inst /\ zIndex o mod 10 = 0 /\
        (backdrop o = true -> is_Some (backdropEl σ))) ->
     Q r σ') ->
  wp (pop inst) Q σ.
Proof.
  intros [Hz Hb] HQ.
  destruct (stack_split inst (overlayStack σ)) as [Hno|(l1 & o & l2 & Hs & Ho & Hl1)].
  - exists None, σ. split; [by apply pop_absent|].
    apply HQ; [done..|]. intros o [=].
  - exists (Some o), (set_stack (l1 ++ l2) σ). split; [by apply pop_found|].
    rewrite Hs, fmap_app, fmap_cons in Hz.
    apply Forall_app in Hz as [Hz1 Hz2]. inversion_clear Hz2 as [|?? Hzo Hz2'].
    assert (backdropEl σ = None ->
            Forall (fun b => b = false) (backdrop <$> l1) /\ backdrop o = false /\
            Forall (fun b => b = false) (backdrop <$> l2)) as Hflags.
    { intros E. rewrite E in Hb. destruct Hb as [_ Hb].
      rewrite Hs, fmap_app, fmap_cons in Hb.
      apply Forall_app in Hb as [Hb1 Hb2]. by inversion_clear Hb2. }
    apply HQ.
    + split; simpl.
      * rewrite fmap_app. by apply Forall_app.
      * destruct (backdropEl σ) as [bd|]; [done|].
        destruct Hb as [Hn _]. split; [done|].
        destruct (Hflags eq_refl) as (? & _ & ?).
        rewrite fmap_app. by apply Forall_app.
    + done.
    + intros o' [= <-]. repeat split; [done..|].
      intros Hbo. destruct (backdropEl σ) as [bd|]; [by eexists|].
      destruct (Hflags eq_refl) as (_ & ? & _). congruence.
Qed.

Lemma wp_doRepositionBackdrop_sound σ :
  sound σ -> wp doRepositionBackdrop (fun _ σ' => sound σ') σ.
Proof.
  intros Hσ. pose proof Hσ as [Hz Hb]. unfold doRepositionBackdrop.
  apply wp_bind, wp_gets.
  destruct (top (overlayStack σ)) as [t|]; [|by apply wp_ret].
  apply wp_bind. destruct (topmostBackdrop (overlayStack σ)) as [o|] eqn:Ho.
  - apply topmostBackdrop_Some in Ho as [Hin Hbo].
    destruct (backdropEl σ) as [bd|] eqn:Hbd.
    + eapply wp_setBackdropZIndex; [done|].
      apply wp_sound_steady; [auto with frame|].
      split; simpl; [done|]. split; [|apply Hb].
      apply pred_mod. rewrite Forall_fmap, Forall_forall in Hz. by apply Hz.
    + destruct Hb as [_ Hb]. rewrite Forall_fmap, Forall_forall in Hb.
      specialize (Hb o Hin). simpl in Hb. congruence.
  - apply wp_ret. by apply wp_sound_steady; [auto with frame|].
Qed.

Lemma wp_doBackdropHide_sound (bd : Backdrop) σ :
  sound σ -> backdropEl σ = Some bd ->
  wp doBackdropHide (fun _ σ' => sound σ') σ.
Proof.
  intros [Hz Hb] Hbd. unfold doBackdropHide. apply wp_bind, wp_modify.
  apply wp_bind. eapply wp_setBackdropIsOpen; [done|].
  apply wp_sound_steady; [auto with frame|].
  rewrite Hbd in Hb. split; simpl; [done|]. split; [apply Hb|done].
Qed.

Lemma wp_hideOrRepositionBackdrop_sound σ :
  sound σ -> wp hideOrRepositionBackdrop (fun _ σ' => sound σ') σ.
Proof.
  intros Hσ. unfold hideOrRepositionBackdrop. apply wp_bind, wp_gets.
  destruct (backdropEl σ) as [bd|] eqn:Hbd; [|by apply wp_ret].
  destruct (negb (bd_isOpen bd)); [by apply wp_ret|].
  apply wp_bind, wp_gets. apply wp_bind.
  assert (forall σ1, sound σ1 ->
            wp (s <- gets overlayStack;; n <- gets nodes;;
                match top s with
                | Some t =>
                    if trapFocusOn (node n (instance t)) &&
                       _requestedBackdrop (node n (instance t))
                    then createDocumentTabCaptureEls
                    else hideDocumentTabCaptureEls
                | None => hideDocumentTabCaptureEls
                end) (fun _ σ' => sound σ') σ1) as Htab.
  { intros σ1 H1. apply wp_bind, wp_gets, wp_bind, wp_gets.
    destruct (top (overlayStack σ1)) as [t|];
      [destruct (_ && _)|]; apply wp_sound_steady; auto with frame. }
  destruct (negb (existsb backdrop (overlayStack σ))).
  - eapply wp_mono; [by eapply wp_doBackdropHide_sound|]. intros [] σ1 H1. by apply Htab.
  - eapply wp_mono; [by apply wp_doRepositionBackdrop_sound|]. intros [] σ1 H1. by apply Htab.
Qed.

Lemma wp_doBackdropShow_sound (z : Z) (inst : Element) σ :
  Forall (fun z => z mod 10 = 0) (zIndex <$> overlayStack σ) ->
  z mod 10 = 0 ->
  wp (doBackdropShow z inst) (fun _ σ' => sound σ') σ.
Proof.
  intros Hs Hz. unfold doBackdropShow.
  apply wp_bind, wp_modify, wp_bind, wp_gets, wp_bind.
  assert (forall σ1 bd, overlayStack σ1 = overlayStack σ -> backdropEl σ1 = Some bd ->
            bodyNoScroll σ1 = true ->
            wp (setBackdropZIndex (z - 1);; setBackdropIsOpen true;;
                hideEverythingBut inst) (fun _ σ' => sound σ') σ1) as Hrest.
  { intros σ1 bd Hs1 Hbd Hn. apply wp_bind.
    eapply wp_setBackdropZIndex; [done|]. apply wp_bind.
    eapply wp_setBackdropIsOpen; [done|].
    apply wp_sound_steady; [auto with frame|].
    split; simpl; [by rewrite Hs1|]. split; [by apply pred_mod|done]. }
  simpl. destruct (backdropEl σ) as [bd|] eqn:Hbd.
  - apply wp_ret. by apply (Hrest _ bd).
  - apply wp_bind, wp_createElement, wp_bind, wp_modify, wp_modify.
    by eapply Hrest.
Qed.

Lemma wp_push_sound (inst : Element) σ :
  sound σ -> wp (push inst) (fun _ σ' => sound σ') σ.
Proof.
  intros Hσ. unfold push. apply wp_bind, wp_pop_sound; [done|].
  intros r σ1 [Hz1 Hb1] Hbd Hr.
  apply wp_bind, wp_gets, wp_bind, wp_modify, wp_bind, wp_modify.
  set (o := default (mkOverlay inst 0 false) r).
  set (z := getHighestZIndex (overlayStack σ1) + 10).
  assert (z mod 10 = 0) as Hz by (by apply succ_mod, getHighestZIndex_mod).
  match goal with |- wp _ _ ?σ2 => set (σ2' := σ2) end.
  assert (sound σ2') as H2.
  { subst σ2'. split; simpl.
    - rewrite fmap_app. apply Forall_app. split; [done|]. by repeat constructor.
    - destruct (backdropEl σ1) as [bd|] eqn:Hbd1; [done|].
      destruct Hb1 as [Hn Hb1]. split; [done|].
      rewrite fmap_app. apply Forall_app. split; [done|].
      repeat constructor. simpl. subst o. destruct r as [o|]; simpl; [|done].
      destruct (Hr o eq_refl) as (_ & _ & Hbo).
      destruct (backdrop o); [|done]. rewrite <- Hbd in Hbo.
      by destruct Hbo. }
  apply wp_bind. simpl.
  destruct (backdrop o).
  - eapply wp_mono; [by apply wp_doRepositionBackdrop_sound|].
    intros [] σ3 H3. by apply wp_ret.
  - apply wp_ret. by apply wp_ret.
Qed.

Lemma setEntryBackdrop_zIndex (self : Element) (v : bool) σ :
  zIndex <$> overlayStack (exec (setEntryBackdrop self v) σ)
  = zIndex <$> overlayStack σ.
Proof.
  pose proof (setEntryBackdrop_keys self v σ) as H. unfold stack_keys in H.
  rewrite !keys_of_zIndex. unfold exec. by rewrite H.
Qed.

Lemma get_elem (self : Element) (s : list Overlay) (overlay : Overlay) :
  get self s = Some overlay -> overlay ∈ s.
Proof. intros H%get_Some_index. by eapply list_elem_of_lookup_2. Qed.

Lemma wp_showBackdrop_sound (self : Element) σ :
  sound σ -> wp (_showBackdrop self) (fun _ σ' => sound σ') σ.
Proof.
  intros Hσ. pose proof Hσ as [Hz Hb]. unfold _showBackdrop.
  apply wp_bind, wp_gets. apply wp_bind.
  assert (forall σ1, sound σ1 ->
            wp (modify (fun σ => set_nodes (update self (with_requestedBackdrop true) (nodes σ)) σ);;
                n <- gets nodes;;
                (if negb (parentNode (node n self))
                 then modify (fun σ => set_nodes
                                (update self (with_showBackdropOnAttached true) (nodes σ)) σ)
                 else ret tt);;
                (if trapFocusOn (node n self) then createDocumentTabCaptureEls else ret tt))
               (fun _ σ' => sound σ') σ1) as Hrest.
  { intros σ1 H1. apply wp_sound_steady; [|done]. steady. }
  destruct (get self (overlayStack σ)) as [overlay|] eqn:Hget.
  - apply wp_bind. unfold setEntryBackdrop at 1. apply wp_modify.
    eapply wp_mono.
    + apply wp_doBackdropShow_sound.
      * pose proof (setEntryBackdrop_zIndex self true σ) as E.
        unfold exec, setEntryBackdrop, modify in E. simpl in E. simpl. by rewrite E.
      * apply get_elem in Hget. rewrite Forall_fmap, Forall_forall in Hz. by apply Hz.
    + intros [] σ1 H1. by apply Hrest.
  - apply wp_ret. by apply Hrest.
Qed.

Lemma alter_backdrop_false (i : nat) (s : list Overlay) :
  Forall (fun b => b = false) (backdrop <$> s) ->
  Forall (fun b => b = false)
         (backdrop <$> alter (fun o => mkOverlay (instance o) (zIndex o) false) i s).
Proof.
  revert i. induction s as [|o s IH]; intros i Hs; [done|].
  rewrite fmap_cons in Hs. inversion_clear Hs as [|?? Ho Hs'].
  destruct i as [|i]; simpl.
  - by constructor.
  - constructor; [done|]. by apply IH.
Qed.

Lemma wp_hideBackdrop_sound (self : Element) σ :
  sound σ -> wp (_hideBackdrop self) (fun _ σ' => sound σ') σ.
Proof.
  intros Hσ. pose proof Hσ as [Hz Hb]. unfold _hideBackdrop.
  apply wp_bind, wp_gets. apply wp_bind.
  assert (forall σ1, sound σ1 ->
            wp (modify (fun σ => set_nodes
                          (update self (with_requestedBackdrop false) (nodes σ)) σ))
               (fun _ σ' => sound σ') σ1) as Hrest.
  { intros σ1 H1. apply wp_sound_steady; [|done]. steady. }
  destruct (get self (overlayStack σ)) as [overlay|] eqn:Hget.
  - apply wp_bind. unfold setEntryBackdrop at 1. apply wp_modify.
    eapply wp_mono.
    + apply wp_hideOrRepositionBackdrop_sound.
      pose proof (setEntryBackdrop_zIndex self false σ) as E.
      unfold exec, setEntryBackdrop, modify in E. simpl in E.
      split; simpl; [by rewrite E|].
      destruct (backdropEl σ) as [bd|]; [done|].
      destruct Hb as [Hn Hb]. split; [done|].
      by apply alter_backdrop_false.
    + intros [] σ1 H1. by apply Hrest.
  - apply wp_ret. by apply Hrest.
Qed.

Lemma wp_popOverlay_sound (self : Element) σ :
  sound σ -> wp (_popOverlay self) (fun _ σ' => sound σ') σ.
Proof.
  intros Hσ. unfold _popOverlay. apply wp_bind, wp_pop_sound; [done|].
  intros r σ1 H1 _ _. by apply wp_hideOrRepositionBackdrop_sound.
Qed.

(** Every call keeps the invariant and returns. *)
Lemma wp_perform_sound (c : Call) σ :
  sound σ -> wp (perform c) (fun _ σ' => sound σ') σ.
Proof.
  intros Hσ. destruct c as [inst|inst|self|self|self|self]; simpl.
  - apply wp_bind. eapply wp_mono; [by apply wp_push_sound|].
    intros o σ1 H1. by apply wp_ret.
  - apply wp_bind, wp_pop_sound; [done|]. intros r σ1 H1 _ _. by apply wp_ret.
  - unfold _pushOverlay. apply wp_bind. eapply wp_mono; [by apply wp_push_sound|].
    intros o σ1 H1. by apply wp_ret.
  - by apply wp_popOverlay_sound.
  - by apply wp_showBackdrop_sound.
  - by apply wp_hideBackdrop_sound.
Qed.

Lemma exec_then_ret {A} (m : M A) σ : exec (m ;; ret tt) σ = exec m σ.
Proof. unfold exec, bind, ret. by destruct (m σ) as [[a|e] σ']. Qed.

Lemma perform_call (c : Call) σ : exec (perform c) σ = call c σ.
Proof. destruct c; simpl; try done; apply exec_then_ret. Qed.

Lemma call_sound (c : Call) σ :
  sound σ -> result (perform c) σ = Normal tt /\ sound (call c σ).
Proof.
  intros Hσ. destruct (wp_exec _ _ _ (wp_perform_sound c σ Hσ)) as ([] & Hr & Hs).
  by rewrite <- perform_call.
Qed.

Lemma run_sound (cs : list Call) σ : sound σ -> sound (run cs σ).
Proof.
  revert σ. induction cs as [|c cs IH]; intros σ Hσ; simpl; [done|].
  by apply IH, call_sound.
Qed.

(** No call on the overlay machinery throws: on a page where the module
    starts unused, after any calls of [push], [pop], [_pushOverlay],
    [_popOverlay], [_showBackdrop] and [_hideBackdrop], each of these calls
    returns.  In particular [backdropEl] is defined whenever its style is
    written. *)
Theorem overlay_calls_return (σ0 : State) (cs : list Call) (c : Call) :
  pristine σ0 -> result (perform c) (run cs σ0) = Normal tt.
Proof.
  intros H0. by apply call_sound, run_sound, pristine_sound.
Qed.

Lemma overlay_calls_return_witness :
  result (perform (PushOverlay 2)) (run [PushOverlay 2; ShowBackdrop 2; PopOverlay 2] page)
  = Normal tt.
Proof.
  apply (overlay_calls_return page [PushOverlay 2; ShowBackdrop 2; PopOverlay 2]%nat
           (PushOverlay 2%nat)).
  by repeat split.
Defined.

(** The backdrop never collides with an overlay: after any calls, the
    z-index of every entry of the stack is a multiple of ten and the
    z-index of the backdrop element, once it exists, is nine above a
    multiple of ten, so the two are never equal. *)
Theorem backdrop_never_collides (σ0 : State) (cs : list Call)
    (bd : Backdrop) (o : Overlay) :
  pristine σ0 ->
  backdropEl (run cs σ0) = Some bd ->
  o ∈ overlayStack (run cs σ0) ->
  zIndex o mod 10 = 0 /\ bd_zIndex bd mod 10 = 9 /\ bd_zIndex bd <> zIndex o.
Proof.
  intros H0 Hbd Ho.
  destruct (run_sound cs σ0 (pristine_sound _ H0)) as [Hz Hb].
  rewrite Hbd in Hb. destruct Hb as [Hb _].
  rewrite Forall_fmap, Forall_forall in Hz. specialize (Hz o Ho). simpl in Hz.
  repeat split; [done..|]. intros E. rewrite E in Hb. lia.
Qed.

Lemma backdrop_never_collides_witness :
  zIndex (mkOverlay 2 10020 true) mod 10 = 0 /\
  bd_zIndex (mkBackdrop 10 10009 true) mod 10 = 9 /\
  bd_zIndex (mkBackdrop 10 10009 true) <> zIndex (mkOverlay 2 10020 true).
Proof.
  apply (backdrop_never_collides page
           [PushOverlay 1; PushOverlay 2; ShowBackdrop 2; ShowBackdrop 1]%nat).
  - by repeat split.
  - reflexivity.
  - vm_compute. apply list_elem_of_further, list_elem_of_here.
Defined.

(** The body is locked against scrolling exactly while the backdrop is
    open. *)
Theorem noscroll_iff_backdrop_open (σ0 : State) (cs : list Call) :
  pristine σ0 ->
  bodyNoScroll (run cs σ0) = true <-> backdrop_open (run cs σ0).
Proof.
  intros H0. destruct (run_sound cs σ0 (pristine_sound _ H0)) as [_ Hb].
  unfold backdrop_open. destruct (backdropEl (run cs σ0)) as [bd|].
  - destruct Hb as [_ ->]. split; [by exists bd|]. by intros (? & [= <-] & ?).
  - destruct Hb as [-> _]. split; [done|]. by intros (? & [=] & _).
Qed.

Lemma noscroll_iff_backdrop_open_witness :
  bodyNoScroll (run [PushOverlay 2; ShowBackdrop 2] page) = true <->
  backdrop_open (run [PushOverlay 2; ShowBackdrop 2] page).
Proof.
  apply (noscroll_iff_backdrop_open page [PushOverlay 2; ShowBackdrop 2]%nat).
  by repeat split.
Defined.

(** Hiding twice is hiding once: a second [hideEverythingBut(instance)]
    changes no element, so the values stored by the first call for
    [showEverything] are kept. *)
Theorem hideEverythingBut_idempotent (inst : Element) (σ : State) :
  let σ1 := exec (hideEverythingBut inst) σ in
  let σ2 := exec (hideEverythingBut inst) σ1 in
  (forall e, node (nodes σ2) e = node (nodes σ1) e) /\
  shell σ2 = shell σ1 /\ bodyChildren σ2 = bodyChildren σ1 /\
  tabCaptureEls σ2 = tabCaptureEls σ1 /\ nextNode σ2 = nextNode σ1.
Proof.
  intros σ1 σ2. split; [|done].
  intros e. subst σ2. rewrite hideEverythingBut_node.
  assert (bodyChildren σ1 = bodyChildren σ) as -> by done.
  subst σ1. rewrite !hideEverythingBut_node.
  destruct (decide (e = inst)) as [->|Hne].
  - rewrite decide_True by done. by destruct (node (nodes σ) inst).
  - destruct (decide (e ∈ bodyChildren σ)); [|done]. apply hideNode_idemp.
Qed.

(** ** The tab capture elements of the document *)

Lemma others_insertFirst (a b : Element) (c : list Element) :
  others a b (insertFirst a c) = others a b c.
Proof.
  unfold others, insertFirst, removeChild.
  rewrite filter_cons_False by (intros [? _]; done).
  rewrite list_filter_filter. apply list_filter_iff. intros x. tauto.
Qed.

Lemma others_appendChild (a b : Element) (c : list Element) :
  others a b (appendChild b c) = others a b c.
Proof.
  unfold others, appendChild, removeChild.
  rewrite filter_app, filter_cons_False by (intros [_ ?]; done).
  rewrite filter_nil, app_nil_r.
  rewrite list_filter_filter. apply list_filter_iff. intros x. tauto.
Qed.

Lemma head_appendChild (a b : Element) (c : list Element) :
  a <> b -> head c = Some a -> head (appendChild b c) = Some a.
Proof.
  intros Hab Hc. destruct c as [|x c]; [done|]. injection Hc as ->.
  unfold appendChild, removeChild. by rewrite filter_cons_True.
Qed.

Lemma last_appendChild (b : Element) (c : list Element) :
  last (appendChild b c) = Some b.
Proof. unfold appendChild. apply last_snoc. Qed.

(** [createDocumentTabCaptureEls] leaves the top tab capture element first
    and the bottom one last among the children of the body, both displayed,
    and the other children in their order.  The two elements are created on
    the first call only; later calls move them back into place. *)
Theorem tab_capture_elements_frame_body (σ : State) :
  distinctTabCaptureEls σ ->
  wp createDocumentTabCaptureEls
     (fun _ σ' =>
        exists topEl bottomEl,
          tabCaptureEls σ' = Some (topEl, bottomEl) /\ topEl <> bottomEl /\
          head (bodyChildren σ') = Some topEl /\
          last (bodyChildren σ') = Some bottomEl /\
          others topEl bottomEl (bodyChildren σ')
          = others topEl bottomEl (bodyChildren σ) /\
          styleDisplay (node (nodes σ') topEl) = "inline"%string /\
          styleDisplay (node (nodes σ') bottomEl) = "inline"%string /\
          (is_Some (tabCaptureEls σ) ->
             tabCaptureEls σ' = tabCaptureEls σ /\ nextNode σ' = nextNode σ)) σ.
Proof.
  unfold distinctTabCaptureEls. intros Hd. unfold createDocumentTabCaptureEls.
  apply wp_bind, wp_gets.
  destruct (tabCaptureEls σ) as [[topEl bottomEl]|] eqn:Ht.
  - apply wp_bind, wp_gets, wp_bind.
    set (c1 := if bool_decide (head (bodyChildren σ) = Some topEl)
               then bodyChildren σ else insertFirst topEl (bodyChildren σ)).
    assert (head c1 = Some topEl) as Hhead.
    { subst c1. by case_bool_decide. }
    assert (others topEl bottomEl c1 = others topEl bottomEl (bodyChildren σ)) as Ho1.
    { subst c1. case_bool_decide; [done|apply others_insertFirst]. }
    apply (wp_mono _ (fun _ σ1 => σ1 = set_bodyChildren c1 σ)).
    { subst c1. case_bool_decide; [apply wp_ret|apply wp_modify]; by destruct σ. }
    intros [] σ1 ->. apply wp_bind, wp_gets, wp_bind. simpl.
    set (c2 := if bool_decide (last c1 = Some bottomEl)
               then c1 else appendChild bottomEl c1).
    assert (last c2 = Some bottomEl) as Hlast.
    { subst c2. case_bool_decide; [done|apply last_appendChild]. }
    assert (head c2 = Some topEl) as Hhead2.
    { subst c2. case_bool_decide; [done|by apply head_appendChild]. }
    assert (others topEl bottomEl c2 = others topEl bottomEl (bodyChildren σ)) as Ho2.
    { subst c2. case_bool_decide; [done|by rewrite others_appendChild]. }
    apply (wp_mono _ (fun _ σ2 => σ2 = set_bodyChildren c2 σ)).
    { subst c2. case_bool_decide; [apply wp_ret|apply wp_modify]; done. }
    intros [] σ2 ->. unfold setDisplay. apply wp_bind, wp_modify, wp_modify. simpl.
    exists topEl, bottomEl. repeat split; try done.
    + by rewrite node_update_ne, node_update_eq by done.
    + by rewrite node_update_eq.
  - apply wp_bind, wp_createElement, wp_bind, wp_modify.
    apply wp_bind, wp_createElement, wp_bind, wp_modify.
    apply wp_bind, wp_modify. unfold setDisplay. apply wp_bind, wp_modify, wp_modify.
    simpl. set (topEl := nextNode σ). set (bottomEl := S topEl).
    assert (topEl <> bottomEl) as Hne by (subst bottomEl; lia).
    exists topEl, bottomEl. repeat split; try done.
    + apply head_appendChild; done.
    + apply last_appendChild.
    + by rewrite others_appendChild, others_insertFirst.
    + by rewrite node_update_ne, node_update_eq by done.
    + by rewrite node_update_eq.
Qed.

Lemma tab_capture_elements_frame_body_witness :
  wp createDocumentTabCaptureEls
     (fun _ σ' =>
        exists topEl bottomEl,
          tabCaptureEls σ' = Some (topEl, bottomEl) /\ topEl <> bottomEl /\
          head (bodyChildren σ') = Some topEl /\
          last (bodyChildren σ') = Some bottomEl /\
          others topEl bottomEl (bodyChildren σ')
          = others topEl bottomEl (bodyChildren page) /\
          styleDisplay (node (nodes σ') topEl) = "inline"%string /\
          styleDisplay (node (nodes σ') bottomEl) = "inline"%string /\
          (is_Some (tabCaptureEls page) ->
             tabCaptureEls σ' = tabCaptureEls page /\ nextNode σ' = nextNode page))
     page.
Proof. apply (tab_capture_elements_frame_body page). exact I. Defined.

(** ** The top overlay *)

(** The top overlay is the one in front.  After any calls from an empty
    stack, [_isTopOverlay] holds of an overlay exactly when it has an entry
    in the stack whose z-index is the highest of the stack; and it holds of
    an overlay right after its [_pushOverlay]. *)
Theorem top_overlay_is_highest (σ0 : State) (cs : list Call) (self : Element) :
  overlayStack σ0 = [] ->
  let σ := run cs σ0 in
  (_isTopOverlay self σ = true <->
   exists o, o ∈ overlayStack σ /\ instance o = self /\
             forall o', o' ∈ overlayStack σ -> zIndex o' <= zIndex o) /\
  _isTopOverlay self (exec (_pushOverlay self) σ) = true.
Proof.
  intros Hempty σ.
  assert (stack_ok (overlayStack σ)) as [_ Hsorted].
  { apply run_ok. rewrite Hempty. apply stack_ok_nil. }
  split.
  - unfold _isTopOverlay, top.
    destruct (last (overlayStack σ)) as [t|] eqn:Hlast.
    + apply last_Some in Hlast as [l Hl]. rewrite Hl in *.
      rewrite fmap_app in Hsorted.
      assert (forall o', o' ∈ l ++ [t] -> zIndex o' <= zIndex t) as Hmax.
      { intros o' [Hin|Hin%list_elem_of_singleton]%elem_of_app; [|subst; lia].
        apply Z.lt_le_incl.
        apply (StronglySorted_app_1_elem_of _ _ _ _ _ Hsorted).
        - by apply list_elem_of_fmap_2.
        - by left. }
      rewrite bool_decide_eq_true. split.
      * intros Ht. exists t. split; [apply elem_of_app; right; by left|]. done.
      * intros (o & [Hin|Hin%list_elem_of_singleton]%elem_of_app & Hself & Ho);
          [|by subst].
        exfalso.
        assert (zIndex o < zIndex t) as Hlt.
        { apply (StronglySorted_app_1_elem_of _ _ _ _ _ Hsorted).
          - by apply list_elem_of_fmap_2.
          - by left. }
        specialize (Ho t ltac:(apply elem_of_app; right; by left)). lia.
    + split; [done|]. intros (o & Hin & _).
      apply last_None in Hlast. rewrite Hlast in Hin. by apply elem_of_nil in Hin.
  - unfold _isTopOverlay, top, _pushOverlay.
    rewrite exec_bind_frame by apply preserves_ret.
    rewrite push_stack. cbv zeta. rewrite last_snoc. by apply bool_decide_eq_true.
Qed.

Lemma top_overlay_is_highest_witness :
  let σ := run [Push 1; Push 2; Push 1] initial in
  (_isTopOverlay 1%nat σ = true <->
   exists o, o ∈ overlayStack σ /\ instance o = 1%nat /\
             forall o', o' ∈ overlayStack σ -> zIndex o' <= zIndex o) /\
  _isTopOverlay 1%nat (exec (_pushOverlay 1%nat) σ) = true.
Proof.
  apply (top_overlay_is_highest initial [Push 1; Push 2; Push 1] 1%nat).
  reflexivity.
Defined.

End OverlayRunsFacts.


(** * Properties of event delegation *)

Module DelegateFacts.
Import JS GlobalEvents Delegate EffFacts GlobalEventsFacts.

(** ** Strings *)

Lemma startsWith_app (p r : string) : startsWith p (p ++ r) = true.
Proof.
  unfold startsWith. induction p as [|c p IH]; simpl; [by destruct r|].
  destruct (ascii_dec c c); [done|congruence].
Qed.

Lemma startsWith_split (p s : string) :
  startsWith p s = true -> exists r, s = (p ++ r)%string.
Proof.
  unfold startsWith. revert s. induction p as [|c p IH]; intros s H.
  - by exists s.
  - destruct s as [|d s]; simpl in H; [done|].
    destruct (ascii_dec c d) as [->|]; [|done].
    destruct (IH s H) as [r ->]. by exists r.
Qed.

Lemma startsWith_starts (p s : string) : startsWith p s = starts p s.
Proof.
  unfold startsWith. revert s. induction p as [|a p IH]; intros s; [by destruct s|].
  destruct s as [|b s]; [done|]. simpl.
  destruct (ascii_dec a b) as [->|Hne].
  - by rewrite Ascii.eqb_refl, IH.
  - apply Ascii.eqb_neq in Hne. by rewrite Hne.
Qed.

Lemma substr_app (p r : string) : substr (String.length p) (p ++ r) = r.
Proof. induction p as [|c p IH]; [by destruct r|done]. Qed.

Lemma append_assoc (a b c : string) : ((a ++ b) ++ c = a ++ (b ++ c))%string.
Proof.
  induction a as [|x a IH]; [done|].
  change (String x ((a ++ b) ++ c) = String x (a ++ b ++ c))%string. by f_equal.
Qed.

(** A prefix without a dot that starts a namespaced string lies before the
    suffix. *)
Lemma prefix_before_suffix (p n : string) :
  any (Ascii.eqb ".") p = false ->
  startsWith p (n ++ suffix) = true -> exists r, n = (p ++ r)%string.
Proof.
  unfold startsWith. revert n. induction p as [|c p IH]; intros n Hp H.
  - by exists n.
  - cbn [any] in Hp. apply orb_false_iff in Hp as [Hc Hp].
    destruct n as [|d n]; simpl in H.
    + destruct (ascii_dec c "."%char) as [->|]; [|done].
      by rewrite Ascii.eqb_refl in Hc.
    + destruct (ascii_dec c d) as [->|]; [|done].
      destruct (IH n Hp H) as [r ->]. by exists r.
Qed.

(** Taking a prefix without a dot off a namespaced string leaves a
    namespaced string. *)
Lemma strip_namespaced (p s : string) :
  any (Ascii.eqb ".") p = false ->
  namespaced s ->
  namespaced (if startsWith p s then substr (String.length p) s else s).
Proof.
  intros Hp [n ->]. destruct (startsWith p (n ++ suffix)) eqn:E; [|by exists n].
  destruct (prefix_before_suffix p n Hp E) as [r ->].
  rewrite append_assoc, substr_app. by exists r.
Qed.

(** ** The loop *)

Lemma exec_each_cons {A} (f : A -> Eff Host unit) (x : A) (l : list A) (h : Host) :
  exec (each f (x :: l)) h =
    match result (f x) h with
    | Normal _ => exec (each f l) (exec (f x) h)
    | Abrupt _ => exec (f x) h
    end.
Proof.
  unfold exec, result. cbn [each]. unfold bind.
  by destruct (f x h) as [[[]|e] h'].
Qed.

(** What every step keeps, the loop keeps, wherever it stops. *)
Lemma each_keeps {A} (I : Host -> Prop) (f : A -> Eff Host unit) (l : list A) :
  (forall x h, I h -> I (exec (f x) h)) ->
  forall h, I h -> I (exec (each f l) h).
Proof.
  intros Hf. induction l as [|x l IH]; intros h Hh; [done|].
  rewrite exec_each_cons. destruct (result (f x) h); [apply IH|]; by apply Hf.
Qed.

Section Namespaced.
Context (obj : string -> Member) (querySelectorAll : string -> option (list Element)).
Context (newKeys : Keys).
Context (HnewKeys : Forall (fun k => namespaced (keyCombo k)) (combos newKeys)).

Lemma delegateEvent_namespaced (entry : string * Handler) (h : Host) :
  all_namespaced h ->
  all_namespaced (exec (delegateEvent obj querySelectorAll newKeys entry) h).
Proof.
  intros Hh. pose proof Hh as (Hv & Hge & Hgk & Hk).
  destruct entry as [eventInfo listener]. unfold delegateEvent.
  destruct (delegateEventSplitter eventInfo) as [[name sel]|]; [|done].
  destruct (getListenerFromMethodNameOrFunction _ _ _) as [[f|]|e]; [|done..].
  cbv zeta.
  set (e0 := (name ++ ".CoralComponent")%string).
  assert (namespaced e0) as H0 by (by exists name).
  set (e1 := if startsWith "global:" e0 then substr 7 e0 else e0).
  assert (namespaced e1) as H1 by (by apply (strip_namespaced "global:")).
  set (e2 := if startsWith "capture:" e1 then substr 8 e1 else e1).
  assert (namespaced e2) as H2 by (by apply (strip_namespaced "capture:")).
  set (e3 := if startsWith "key:" e2 then substr 4 e2 else e2).
  assert (namespaced e3) as H3 by (by apply (strip_namespaced "key:")).
  clearbody e3 e2 e1 e0.
  destruct (startsWith "key:" e2 && startsWith "capture:" e1); [done|].
  destruct (startsWith "resize" e3 && startsWith "capture:" e1); [done|].
  destruct (startsWith "global:" e0).
  - destruct (startsWith "key:" e2).
    + unfold exec, modify. simpl. repeat split; try done.
      unfold recordedKeys. simpl. apply Forall_app. split; [done|].
      by repeat constructor.
    + unfold exec, modify. simpl. repeat split; try done.
      unfold recordedEvents. simpl. apply Forall_app. split; [done|].
      by repeat constructor.
  - destruct (startsWith "key:" e2).
    + assert (Forall (fun k => namespaced (keyCombo k))
                     (combos (default newKeys (_keys (component (world h))))))
        as Hkeys.
      { unfold attachedKeys in Hk. by destruct (_keys (component (world h))). }
      unfold exec, inWorld, keys_on, bind, modify, gets. simpl.
      match goal with |- context [accepts ?k ?c] => destruct (accepts k c) end;
        simpl; repeat split; try done.
      unfold attachedKeys. simpl. apply Forall_app.
      split; [done|by repeat constructor].
    + destruct (startsWith "resize" e3).
      * destruct (if String.eqb sel "" then None else Some sel) as [s|]; [|done].
        destruct (querySelectorAll s); [|done].
        apply each_keeps; [|done]. by intros x h' Hh'.
      * unfold exec, modify. simpl. repeat split; try done.
        apply Forall_app. split; [done|]. by repeat constructor.
Qed.

(** Every listener [delegateEvents] registers or records is namespaced:
    when the names the component held before end in [.CoralComponent], so
    do the names it holds afterwards, whether the loop ends or throws. *)
Theorem delegated_listeners_are_namespaced (h : Host) :
  all_namespaced h ->
  all_namespaced (exec (delegateEvents obj querySelectorAll newKeys) h).
Proof.
  intros Hh. unfold delegateEvents.
  change (exec _ h) with (exec (each (delegateEvent obj querySelectorAll newKeys) (_events h)) h).
  apply each_keeps; [|done]. intros x h'. apply delegateEvent_namespaced.
Qed.
End Namespaced.

Lemma delegated_listeners_are_namespaced_witness :
  all_namespaced
    (exec (delegateEvents sample_obj (fun _ => Some []) sample_keys)
          (set_eventMap sample_map sample_host)).
Proof.
  apply (delegated_listeners_are_namespaced sample_obj (fun _ => Some []) sample_keys).
  - constructor.
  - repeat split; constructor.
Defined.

(** ** The event info *)

Lemma any_app (p : ascii -> bool) (a b : string) :
  any p (a ++ b) = any p a || any p b.
Proof.
  induction a as [|c a IH]; [done|].
  change (p c || any p (a ++ b)%string = (p c || any p a) || any p b).
  by rewrite IH, orb_assoc.
Qed.

Lemma span_solid (a rest : string) :
  solid a ->
  match rest with EmptyString => True | String c _ => is_space c = true end ->
  span (fun c => negb (is_space c)) (a ++ rest) = (a, rest).
Proof.
  unfold solid. induction a as [|c a IH]; intros Ha Hrest.
  - change (("" ++ rest)%string) with rest. destruct rest as [|d r]; [done|].
    simpl. by rewrite Hrest.
  - cbn [any] in Ha. apply orb_false_iff in Ha as [Hc Ha].
    change ((String c a ++ rest)%string) with (String c (a ++ rest)).
    cbn [span]. rewrite Hc. cbn [negb]. by rewrite IH.
Qed.

Lemma span_space_selector (sel : string) :
  plainSelector sel -> span is_space (String " " sel) = (" "%string, sel).
Proof.
  intros [_ Hsel]. cbn [span].
  change (is_space " ") with true. cbv iota.
  destruct sel as [|c r]; [done|]. cbn [span]. by rewrite Hsel.
Qed.

(** An event info made of a name, a space and a selector is split there. *)
Lemma splitter_name_selector (a sel : string) :
  solid a -> a <> ""%string -> plainSelector sel ->
  delegateEventSplitter (a ++ " " ++ sel) = Some (a, sel).
Proof.
  intros Ha Hne Hsel. unfold delegateEventSplitter.
  change ((" " ++ sel)%string) with (String " " sel).
  rewrite span_solid by done. rewrite span_space_selector by done.
  apply String.eqb_neq in Hne. rewrite Hne.
  by destruct Hsel as [-> _].
Qed.

Lemma solid_app (a b : string) : solid a -> solid b -> solid (a ++ b).
Proof. unfold solid. intros Ha Hb. by rewrite any_app, Ha, Hb. Qed.

Lemma app_nonempty (a b : string) : a <> ""%string -> (a ++ b)%string <> ""%string.
Proof. by destruct a. Qed.

(** Evaluates a step of the loop on an event info that starts with written
    prefixes. *)
Ltac evaluate_entry n :=
  unfold delegateEvent;
  rewrite splitter_name_selector by
    (first [ done | by apply app_nonempty | apply solid_app; done ]);
  cbv zeta; cbn [getListenerFromMethodNameOrFunction];
  rewrite !append_assoc;
  let X := fresh "X" in
  set (X := (n ++ ".CoralComponent")%string) in *; clearbody X;
  rewrite ?startsWith_starts in *.

(** The order of the prefixes matters.  [global:capture:NAME] records a
    global listener for the capturing phase under the name [NAME]; written
    the other way round, [capture:global:NAME] is not global: the listener
    is given to the component's own [_vent] for the capturing phase, under
    the name [global:NAME]. *)
Theorem prefix_order_matters (obj : string -> Member)
    (querySelectorAll : string -> option (list Element)) (newKeys : Keys)
    (n sel : string) (f : nat) (h : Host) :
  solid n -> plainSelector sel ->
  exec (delegateEvent obj querySelectorAll newKeys
          ("capture:global:" ++ n ++ " " ++ sel, HFunction f)%string) h
  = set_vent (fun l => l ++ [mkEventListener ("global:" ++ n ++ suffix)
                                             (selectorOf sel) f true]) h /\
  (startsWith "key:" (n ++ suffix) = false ->
   startsWith "resize" (n ++ suffix) = false ->
   exec (delegateEvent obj querySelectorAll newKeys
           ("global:capture:" ++ n ++ " " ++ sel, HFunction f)%string) h
   = set_world (set_component (fun c =>
       set_globalEvents
         (Some (default [] (_globalEvents c) ++
                [mkEventListener (n ++ suffix) (selectorOf sel) f true])) c)) h).
Proof.
  intros Hn Hsel. split.
  - rewrite <- (append_assoc "capture:global:" n). unfold suffix, selectorOf.
    evaluate_entry n. reflexivity.
  - intros Hkey Hresize. rewrite <- (append_assoc "global:capture:" n).
    unfold suffix in *.
    evaluate_entry n. unfold selectorOf.
    assert (starts "global:" ("global:capture:" ++ X) = true) as -> by reflexivity.
    assert (substr 7 ("global:capture:" ++ X) = ("capture:" ++ X)%string) as ->
      by reflexivity.
    assert (starts "capture:" ("capture:" ++ X) = true) as -> by reflexivity.
    assert (substr 8 ("capture:" ++ X) = X) as -> by reflexivity.
    rewrite Hkey. cbn [andb]. rewrite Hresize. cbn [andb]. reflexivity.
Qed.

Lemma prefix_order_matters_witness :
  exec (delegateEvent sample_obj (fun _ => Some []) sample_keys
          ("capture:global:change #overlay", HFunction 7)) sample_host
  = set_vent (fun l => l ++ [mkEventListener "global:change.CoralComponent"
                                             (Some "#overlay"%string) 7 true])
             sample_host /\
  (startsWith "key:" "change.CoralComponent" = false ->
   startsWith "resize" "change.CoralComponent" = false ->
   exec (delegateEvent sample_obj (fun _ => Some []) sample_keys
           ("global:capture:change #overlay", HFunction 7)) sample_host
   = set_world (set_component (fun c =>
       set_globalEvents
         (Some (default [] (_globalEvents c) ++
                [mkEventListener "change.CoralComponent"
                                 (Some "#overlay"%string) 7 true])) c)) sample_host).
Proof.
  apply (prefix_order_matters sample_obj (fun _ => Some []) sample_keys
           "change" "#overlay" 7 sample_host).
  - reflexivity.
  - split; reflexivity.
Defined.

(** With [capture:], a key listener and a resize listener are refused,
    global or not: the step of the loop throws for an event info that starts
    with [capture:key:], [global:capture:key:], [capture:resize] or
    [global:capture:resize]. *)
Theorem capture_refused_for_keys_and_resize (obj : string -> Member)
    (querySelectorAll : string -> option (list Element)) (newKeys : Keys)
    (n sel : string) (f : nat) (h : Host) :
  solid n -> plainSelector sel ->
  let step p := delegateEvent obj querySelectorAll newKeys
                  (p ++ n ++ " " ++ sel, HFunction f)%string in
  throws (step "capture:key:"%string) h /\
  throws (step "global:capture:key:"%string) h /\
  throws (step "capture:resize"%string) h /\
  throws (step "global:capture:resize"%string) h.
Proof.
  intros Hn Hsel step. subst step. unfold suffix, selectorOf. cbv beta.
  repeat split.
  - rewrite <- (append_assoc "capture:key:" n). evaluate_entry n.
    eexists _, _. reflexivity.
  - rewrite <- (append_assoc "global:capture:key:" n). evaluate_entry n.
    eexists _, _. reflexivity.
  - rewrite <- (append_assoc "capture:resize" n). evaluate_entry n.
    eexists _, _. reflexivity.
  - rewrite <- (append_assoc "global:capture:resize" n). evaluate_entry n.
    eexists _, _. reflexivity.
Qed.

Lemma capture_refused_for_keys_and_resize_witness :
  let step p := delegateEvent sample_obj (fun _ => Some []) sample_keys
                  (p ++ "a" ++ " " ++ "input", HFunction 5)%string in
  throws (step "capture:key:"%string) sample_host /\
  throws (step "global:capture:key:"%string) sample_host /\
  throws (step "capture:resize"%string) sample_host /\
  throws (step "global:capture:resize"%string) sample_host.
Proof.
  apply (capture_refused_for_keys_and_resize sample_obj (fun _ => Some []) sample_keys
           "a" "input" 5 sample_host).
  - reflexivity.
  - split; reflexivity.
Defined.

(** ** Errors *)

Lemma modify_returns (f : Host -> Host) (h : Host) : ~ throws (modify f) h.
Proof. by intros (e & h' & [=]). Qed.

Lemma each_modify_returns {A} (f : A -> Host -> Host) (l : list A) (h : Host) :
  ~ throws (each (fun x => modify (f x)) l) h.
Proof.
  revert h. induction l as [|x l IH]; intros h (e & h' & H).
  - discriminate H.
  - cbn [each] in H. unfold bind, modify in H. simpl in H.
    apply (IH (f x h)). by exists e, h'.
Qed.

(** An entry that makes [delegateEvents] throw has registered no listener:
    the state is as it was, except that a key entry whose combination is
    refused has created the [Keys] instance when the component had none. *)
Lemma failed_entry_registers_nothing (obj : string -> Member)
    (querySelectorAll : string -> option (list Element)) (newKeys : Keys)
    (entry : string * Handler) (h : Host) :
  throws (delegateEvent obj querySelectorAll newKeys entry) h ->
  exec (delegateEvent obj querySelectorAll newKeys entry) h = h \/
  (_keys (component (world h)) = None /\
   exec (delegateEvent obj querySelectorAll newKeys entry) h
   = set_world (set_component (set_keys (Some newKeys))) h).
Proof.
  destruct entry as [eventInfo listener]. unfold delegateEvent.
  destruct (delegateEventSplitter eventInfo) as [[name sel]|]; [|by left].
  destruct (getListenerFromMethodNameOrFunction _ _ _) as [[f|]|e]; [|by left..].
  cbv zeta.
  set (e0 := (name ++ ".CoralComponent")%string).
  set (e1 := if startsWith "global:" e0 then substr 7 e0 else e0).
  set (e2 := if startsWith "capture:" e1 then substr 8 e1 else e1).
  set (e3 := if startsWith "key:" e2 then substr 4 e2 else e2).
  clearbody e3 e2 e1 e0.
  destruct (startsWith "key:" e2 && startsWith "capture:" e1); [by left|].
  destruct (startsWith "resize" e3 && startsWith "capture:" e1); [by left|].
  destruct (startsWith "global:" e0).
  { destruct (startsWith "key:" e2); intros H; exfalso; revert H; apply modify_returns. }
  destruct (startsWith "key:" e2).
  - destruct h as [[evs [ge gk ks d r]] em v rl].
    unfold throws, exec, inWorld, keys_on, bind, modify, gets. simpl.
    destruct ks as [keys|]; simpl.
    + destruct (accepts keys e3); simpl; [by intros (? & ? & [=])|]. intros _. by left.
    + destruct (accepts newKeys e3); simpl; [by intros (? & ? & [=])|]. intros _.
      right. by split.
  - destruct (startsWith "resize" e3).
    + destruct (if String.eqb sel "" then None else Some sel) as [s|].
      * destruct (querySelectorAll s) as [els|]; [|by left].
        intros H. exfalso. revert H.
        apply (each_modify_returns
                 (fun el => set_resizeListeners (fun l => l ++ [(Some el, f)]))).
      * intros H. exfalso. revert H. apply modify_returns.
    + intros H. exfalso. revert H. apply modify_returns.
Qed.

Lemma each_app {A} (f : A -> Eff Host unit) (l1 l2 : list A) (h : Host) :
  result (each f l1) h = Normal tt ->
  each f (l1 ++ l2) h = each f l2 (exec (each f l1) h).
Proof.
  revert h. induction l1 as [|x l1 IH]; intros h Hr; [done|].
  cbn [each app] in *. unfold result, exec, bind in *.
  destruct (f x h) as [[[]|e] h1] eqn:E; simpl in *; [|done].
  by apply IH.
Qed.

(** [delegateEvents] stops at the first entry that throws: the listeners
    of the entries before it stay registered, the entries after it are not
    looked at, and that entry registers no listener.  The component is left
    as the entries before it left it, except that a key entry whose
    combination the [Keys] instance refuses has created the instance when the
    component had none. *)
Theorem delegateEvents_stops_at_first_error (obj : string -> Member)
    (querySelectorAll : string -> option (list Element)) (newKeys : Keys)
    (l1 l2 : list (string * Handler)) (entry : string * Handler) (h : Host) :
  let step := delegateEvent obj querySelectorAll newKeys in
  let h1 := exec (each step l1) h in
  _events h = l1 ++ entry :: l2 ->
  result (each step l1) h = Normal tt ->
  throws (step entry) h1 ->
  throws (delegateEvents obj querySelectorAll newKeys) h /\
  (exec (delegateEvents obj querySelectorAll newKeys) h = h1 \/
   (_keys (component (world h1)) = None /\
    exec (delegateEvents obj querySelectorAll newKeys) h
    = set_world (set_component (set_keys (Some newKeys))) h1)).
Proof.
  intros step h1 Hev Hl1 Hentry.
  pose proof (failed_entry_registers_nothing _ _ _ _ _ Hentry) as Hsame.
  destruct Hentry as (e & h' & He).
  assert (delegateEvents obj querySelectorAll newKeys h = (Abrupt e, h')) as E.
  { unfold delegateEvents, bind, gets. simpl. rewrite Hev.
    fold step. rewrite each_app by done. cbn [each]. unfold bind.
    fold h1. by rewrite He. }
  split; [by exists e, h'|].
  fold step in Hsame. unfold exec in Hsame |- *. rewrite E.
  rewrite He in Hsame. exact Hsame.
Qed.

Lemma delegateEvents_stops_at_first_error_witness :
  let step := delegateEvent sample_obj (fun _ => Some []) sample_keys in
  let h := set_eventMap [("click", HName "_onClick"); ("key:capture:a", HFunction 5);
                         ("key:b", HFunction 6)] sample_host in
  let h1 := exec (each step [("click", HName "_onClick")]) h in
  throws (delegateEvents sample_obj (fun _ => Some []) sample_keys) h /\
  (exec (delegateEvents sample_obj (fun _ => Some []) sample_keys) h = h1 \/
   (_keys (component (world h1)) = None /\
    exec (delegateEvents sample_obj (fun _ => Some []) sample_keys) h
    = set_world (set_component (set_keys (Some sample_keys))) h1)).
Proof.
  apply (delegateEvents_stops_at_first_error sample_obj (fun _ => Some []) sample_keys
           [("click", HName "_onClick")] [("key:b", HFunction 6)]
           ("key:capture:a", HFunction 5)).
  - reflexivity.
  - reflexivity.
  - eexists _, _. cbv. reflexivity.
Defined.

(** ** [_delegateEvents] and the [Keys] instance *)

Lemma forEach_events_on_returns (l : list EventListener) (w : World) :
  exists w', forEach events_on l w = (Normal tt, w') /\
             component w' = component w.
Proof.
  destruct (wp_forEach_events_on l (fun _ w' => component w' = component w) w)
    as ([] & w' & E & Hc); [done|].
  by exists w'.
Qed.

(** When the loop over [_globalKeys] returns, the [Keys] instance has
    accepted every combination. *)
Lemma forEach_keys_on_inv (l : list KeyListener) (w w' : World) :
  forEach keys_on l w = (Normal tt, w') ->
  _globalKeys (component w') = _globalKeys (component w) /\
  (l <> [] ->
   exists keys keys',
     _keys (component w) = Some keys /\ _keys (component w') = Some keys' /\
     accepts keys' = accepts keys /\
     Forall (fun k => accepts keys (keyCombo k) = true) l).
Proof.
  revert w. induction l as [|k l IH]; intros w H.
  - injection H as <-. by split.
  - cbn [forEach] in H. unfold bind in H.
    destruct (keys_on k w) as [[[]|e] w1] eqn:E; [|done].
    unfold keys_on, bind, gets in E. simpl in E.
    destruct (_keys (component w)) as [keys|] eqn:Hk; [|done].
    destruct (accepts keys (keyCombo k)) eqn:Ha; [|done].
    injection E as <-.
    destruct (IH _ H) as [Hg Hrest]. split; [by rewrite Hg|]. intros _.
    destruct l as [|k' l'].
    + injection H as <-. eexists keys, _. simpl. repeat split; try done.
      by constructor.
    + destruct Hrest as (keys1 & keys' & Hk1 & Hk' & Hacc & Hall); [done|].
      simpl in Hk1. injection Hk1 as <-. exists keys, keys'. simpl in *.
      repeat split; try done. by constructor.
Qed.

Lemma delegateGlobalEvents_keysReady (w w' : World) :
  delegateGlobalEvents w = (Normal tt, w') -> keysReady w'.
Proof.
  intros Hrun. destruct w as [evs [ge gk ks d r]].
  unfold delegateGlobalEvents, bind, gets in Hrun. simpl in Hrun.
  assert (exists w1, match ge with
                     | Some l => forEach events_on l
                     | None => ret tt
                     end (mkWorld evs (mkComponent ge gk ks d r)) = (Normal tt, w1) /\
                     component w1 = mkComponent ge gk ks d r) as (w1 & E1 & Hc1).
  { destruct ge as [l|]; [apply forEach_events_on_returns|]. by eexists. }
  rewrite E1 in Hrun.
  destruct (match gk with Some l => forEach keys_on l | None => ret tt end w1)
    as [[[]|e] w2] eqn:E2; [|done].
  assert (_globalKeys (component w2) = gk /\
          (default [] gk <> [] ->
           exists keys keys',
             ks = Some keys /\ _keys (component w2) = Some keys' /\
             accepts keys' = accepts keys /\
             Forall (fun k => accepts keys (keyCombo k) = true) (default [] gk)))
    as [Hg2 Hk2].
  { destruct gk as [l|]; simpl.
    - destruct (forEach_keys_on_inv l w1 w2 E2) as [Hg Hall].
      rewrite Hc1 in Hg, Hall. simpl in *. done.
    - injection E2 as <-. rewrite Hc1. done. }
  unfold keysReady, recordedKeys. intros Hne.
  destruct ks as [keys|].
  - unfold keys_init, withKeys, bind, gets, modify in Hrun. simpl in Hrun.
    destruct (_keys (component w2)) as [keys2|] eqn:Hw2; [|done].
    injection Hrun as <-. simpl in *. rewrite Hg2 in Hne |- *.
    destruct (Hk2 Hne) as (keys0 & keys' & [= <-] & [= <-] & Hacc & Hall).
    eexists. split; [done|]. simpl. by rewrite Hacc.
  - injection Hrun as <-. rewrite Hg2 in Hne. by destruct (Hk2 Hne) as (? & ? & ? & _).
Qed.

(** A component whose [_delegateEvents] returned has a [Keys] instance,
    which has accepted their key combinations, whenever it has recorded a
    global key listener; this is what the connection callbacks need in order
    not to throw.  Its event map is disposed of.  (A map with a [global:key:] entry and no [key:] entry, on a
    component without [Keys] instance, makes [_delegateEvents] throw.) *)
Theorem delegateEvents_leaves_keysReady (obj : string -> Member)
    (querySelectorAll : string -> option (list Element)) (newKeys : Keys)
    (extend : list (string * Handler) -> list (string * Handler) ->
              list (string * Handler))
    (eventMap : list (string * Handler)) (h : Host) :
  let m := _delegateEvents obj querySelectorAll newKeys extend eventMap in
  result m h = Normal tt ->
  keysReady (world (exec m h)) /\ _events (exec m h) = [].
Proof.
  intros m Hr. subst m. unfold _delegateEvents, result, exec, bind, modify in *.
  simpl in *.
  destruct (delegateEvents _ _ _ _) as [[[]|e] h1]; simpl in *; [|done].
  unfold inWorld in *.
  destruct (delegateGlobalEvents (world h1)) as [[[]|e] w'] eqn:Hw; simpl in *; [|done].
  split; [|done]. by apply (delegateGlobalEvents_keysReady (world h1)).
Qed.

Lemma delegateEvents_leaves_keysReady_witness :
  let m := _delegateEvents sample_obj (fun _ => Some []) sample_keys
             (fun a b => a ++ b) sample_map in
  keysReady (world (exec m sample_host)) /\ _events (exec m sample_host) = [].
Proof.
  apply (delegateEvents_leaves_keysReady sample_obj (fun _ => Some []) sample_keys
           (fun a b => a ++ b) sample_map sample_host).
  reflexivity.
Defined.

End DelegateFacts.


(** * Properties of the decorated callbacks *)

Module DecoratedFacts.
Import JS Decorated EffFacts.

(** The connection callbacks of a [QuickActionsItem] that is moved inside
    the document throw.  The browser then calls [disconnectedCallback] and
    [connectedCallback] while the element is connected and [_disconnected]
    is [false]: both take the branch of [Decorator] that calls
    [_updateCallback], which ends in a call of [super._updateCallback], a
    method that no class under the item declares.  Nothing has been done
    when the [TypeError] is raised: the Messenger is neither disconnected
    nor connected and the callbacks of [BaseComponent] do not run. *)
Theorem moved_item_callbacks_throw {S : Type}
    (isConnected : S -> bool) (_disconnected : S -> option bool)
    (_ignoreConnectedCallback : S -> Value)
    (messenger_connect messenger_disconnect : Eff S unit)
    (base_connectedCallback base_disconnectedCallback : Eff S unit) (s : S) :
  isConnected s = true -> _disconnected s = Some false ->
  let down := QuickActionsItem_disconnectedCallback isConnected _disconnected
                _ignoreConnectedCallback messenger_connect messenger_disconnect
                base_disconnectedCallback in
  let up := QuickActionsItem_connectedCallback isConnected _disconnected
              _ignoreConnectedCallback messenger_connect messenger_disconnect
              base_connectedCallback in
  Classes.resolve "_updateCallback" (Classes.BaseComponent Classes.HTMLElement) = None /\
  Classes.resolve "_updateCallback" Classes.QuickActionsItem = Some "Decorator"%string /\
  throws down s /\ exec down s = s /\
  throws up s /\ exec up s = s.
Proof.
  intros Hc Hd down up. subst down up.
  unfold QuickActionsItem_disconnectedCallback, QuickActionsItem_connectedCallback,
    disconnectedCallback, connectedCallback, _updateCallback, item_updateCallback.
  unfold throws, exec, bind, gets, throw. simpl. rewrite Hc, Hd. simpl.
  repeat split; try done; by eexists _, _.
Qed.

Lemma moved_item_callbacks_throw_witness :
  let down := QuickActionsItem_disconnectedCallback connected disconnected
                (fun _ => VUndefined) (called "connect") (called "disconnect")
                (called "BaseComponent.disconnectedCallback") in
  let up := QuickActionsItem_connectedCallback connected disconnected
              (fun _ => VUndefined) (called "connect") (called "disconnect")
              (called "BaseComponent.connectedCallback") in
  Classes.resolve "_updateCallback" (Classes.BaseComponent Classes.HTMLElement) = None /\
  Classes.resolve "_updateCallback" Classes.QuickActionsItem = Some "Decorator"%string /\
  throws down sample_item /\ exec down sample_item = sample_item /\
  throws up sample_item /\ exec up sample_item = sample_item.
Proof.
  apply (moved_item_callbacks_throw connected disconnected (fun _ => VUndefined)
           (called "connect") (called "disconnect")
           (called "BaseComponent.connectedCallback")
           (called "BaseComponent.disconnectedCallback") sample_item);
    reflexivity.
Defined.

End DecoratedFacts.


(** * Properties of the variant classes *)

Module ButtonFacts.
Import JS Component Button EffFacts ComponentFacts.

(** ** Where a computation ends *)

Lemma ends_bind {S A B} (m : Eff S A) (k : A -> Eff S B) (Q : S -> Prop) σ :
  wp m (fun a σ' => ends (k a) Q σ') σ -> ends (bind m k) Q σ.
Proof.
  intros (a & σ' & Hm & Hk). unfold ends, exec, bind in *. by rewrite Hm.
Qed.

Lemma ends_throw {S A} (e : string) (Q : S -> Prop) σ :
  Q σ -> ends (@throw S A e) Q σ.
Proof. done. Qed.

Lemma ends_ret {S A} (a : A) (Q : S -> Prop) σ : Q σ -> ends (@ret S A a) Q σ.
Proof. done. Qed.

(** ** Class lists *)

Lemma classList_remove_twice (a b : list string) (l : list string) :
  classList_remove b (classList_remove a l) = classList_remove (a ++ b) l.
Proof.
  unfold classList_remove. rewrite list_filter_filter.
  apply list_filter_iff. intros t. rewrite elem_of_app. tauto.
Qed.

Lemma classList_remove_absent (tokens l : list string) :
  Forall (fun t => t ∉ l) tokens -> classList_remove tokens l = l.
Proof.
  intros H. unfold classList_remove. apply OverlayFacts.filter_all.
  apply Forall_forall. intros t Ht Hin.
  rewrite Forall_forall in H. by apply (H t).
Qed.

Lemma classList_add_fresh (tokens l : list string) :
  NoDup tokens -> Forall (fun t => t ∉ l) tokens ->
  classList_add tokens l = l ++ tokens.
Proof.
  unfold classList_add. revert l.
  induction tokens as [|t tokens IH]; intros l Hnd Hfresh; cbn [fold_left].
  - by rewrite app_nil_r.
  - inversion_clear Hnd as [|?? Ht Hnd']. inversion_clear Hfresh as [|?? Htl Hfresh'].
    rewrite bool_decide_eq_false_2 by done.
    rewrite IH; [by rewrite <- (assoc_L (++))|done|].
    apply Forall_forall. intros x Hx [Hin|Hin%list_elem_of_singleton]%elem_of_app.
    + rewrite Forall_forall in Hfresh'. by apply (Hfresh' x).
    + by subst.
Qed.

Lemma removed_absent (tokens l : list string) (t : string) :
  t ∈ tokens -> t ∉ classList_remove tokens l.
Proof. unfold classList_remove. rewrite list_elem_of_filter. tauto. Qed.

(** ** The table of the variants *)

Lemma lookup_assoc_elem {A} (k : string) (l : list (string * A)) (v : A) :
  lookup_assoc k l = Some v -> (k, v) ∈ l.
Proof.
  unfold lookup_assoc. destruct (find _ l) as [[k' v']|] eqn:E; [|done].
  intros [= <-]. apply find_some in E as [Hin Hk]. simpl in Hk.
  apply String.eqb_eq in Hk. subst. by apply list_elem_of_In.
Qed.

(** Every entry of [VARIANT_MAP] lists classes of the family, each once;
    the entries of the action variants do not list [_coral-Button]. *)
Lemma VARIANT_MAP_entries (name : string) (classes : list string) :
  (name, classes) ∈ VARIANT_MAP ->
  NoDup classes /\ Forall (fun t => t ∈ variantFamily) classes /\
  (name = "action"%string \/ name = "quietaction"%string -> CLASSNAME ∉ classes).
Proof.
  intros Hin.
  assert (forallb (fun e => bool_decide
            (NoDup e.2 /\ Forall (fun t => t ∈ variantFamily) e.2 /\
             (e.1 = "action"%string \/ e.1 = "quietaction"%string -> CLASSNAME ∉ e.2)))
            VARIANT_MAP = true) as Ht by (vm_compute; reflexivity).
  rewrite forallb_forall in Ht. apply list_elem_of_In in Hin.
  specialize (Ht _ Hin). by apply bool_decide_eq_true in Ht.
Qed.

(** Every variant but the private one has an entry. *)
Lemma VARIANT_MAP_total (name : string) :
  name ∈ members variant -> name <> "_custom"%string ->
  is_Some (lookup_assoc name VARIANT_MAP).
Proof.
  intros Hin Hne.
  assert (forallb (fun m => bool_decide
            (m <> "_custom"%string -> is_Some (lookup_assoc m VARIANT_MAP)))
            (members variant) = true) as Ht by (vm_compute; reflexivity).
  rewrite forallb_forall in Ht. apply list_elem_of_In in Hin.
  specialize (Ht _ Hin). apply bool_decide_eq_true in Ht. by apply Ht.
Qed.

(** The element is in the written list. *)
Ltac in_list := repeat first [ apply list_elem_of_here | apply list_elem_of_further ].

(** ** The setter *)

(** When the [variant] setter changes the variant to a member of the
    enumeration, the classes of the family that the element had are taken
    off and the classes of the new variant are put at the end of the class
    list, each once; the other classes stay as they are, in their order.
    The class list of the label is not touched: the setter ends in
    [_updateLabel()] without a label, which throws before it reads the
    label. *)
Theorem variant_classes_replaced (U : Utils) (K : ElementClass) (value : Value)
    (c : Component) (name : string) :
  enumerated variant (transform_toLowerCase value) "default" = VString name ->
  name ∈ members variant ->
  validate_valueMustChange (field "_variant" c) (VString name) = true ->
  let c' := exec (set_variant K value) c in
  classList c' = classList_remove variantFamily (classList c) ++ classesOf name /\
  labelClasses c' = labelClasses c /\
  field "_variant" c' = VString name.
Proof.
  intros Hv Hname Hchange.
  set (v := enumerated variant (transform_toLowerCase value) "default") in *.
  cbv zeta.
  change (ends (set_variant K value)
            (fun c' => classList c' = classList_remove variantFamily (classList c)
                                       ++ classesOf name /\
                       labelClasses c' = labelClasses c /\
                       field "_variant" c' = VString name) c).
  unfold set_variant. cbv zeta. fold v. rewrite Hv in *. unfold _updateProperty.
  apply ends_bind, wp_gets. rewrite Hchange.
  apply ends_bind. unfold assignField. apply wp_modify.
  apply ends_bind, wp__reflectAttribute; [literal_name..|]. intros attrs flag _ _.
  apply ends_bind, wp_modify, ends_bind, wp_modify.
  cbn [set_classList set_fields classList fields]. 
  set (l := classList_remove ALL_VARIANT_CLASSES
              (classList_remove [CLASSNAME; ACTION_CLASSNAME] (classList c))).
  assert (l = classList_remove variantFamily (classList c)) as Hl
    by apply classList_remove_twice.
  assert (forall t, t ∈ variantFamily -> t ∉ l) as Hfresh.
  { intros t Ht. rewrite Hl. by apply removed_absent. }
  assert (CLASSNAME ∈ variantFamily) as HC by (cbv; in_list).
  apply ends_bind.
  case_bool_decide as Hcustom.
  - injection Hcustom as ->. apply wp_modify, ends_throw. simpl.
    rewrite classList_remove_absent by (repeat constructor; by apply Hfresh).
    split; [|split; [done|]].
    + rewrite <- Hl. unfold classesOf. by rewrite app_nil_r.
    + unfold field. simpl. by rewrite lookup_insert_eq.
  - assert (name <> "_custom"%string) as Hne by congruence.
    destruct (VARIANT_MAP_total name Hname Hne) as [classes Hclasses].
    cbn [String_of]. rewrite Hclasses.
    destruct (VARIANT_MAP_entries name classes (lookup_assoc_elem _ _ _ Hclasses))
      as (Hnd & Hfam & Haction).
    assert (classList_add classes l = l ++ classes) as Hadd.
    { apply classList_add_fresh; [done|].
      eapply Forall_impl; [done|]. intros t Ht. by apply Hfresh. }
    apply wp_bind, wp_modify.
    assert (classesOf name = classes) as -> by (unfold classesOf; by rewrite Hclasses).
    assert (forall c0 : Component,
              classList c0 = l ++ classes ->
              labelClasses c0 = labelClasses c ->
              field "_variant" c0 = VString name ->
              ends (_updateLabel None)
                   (fun c' => classList c' = classList_remove variantFamily (classList c)
                                              ++ classes /\
                              labelClasses c' = labelClasses c /\
                              field "_variant" c' = VString name) c0) as Hend.
    { intros c0 H1 H2 H3. apply ends_throw. by rewrite H1, Hl. }
    case_bool_decide as Hact.
    + apply wp_modify, Hend; simpl; [|done|].
      * fold l. rewrite Hadd.
        apply classList_remove_absent. repeat constructor.
        intros [Hin|Hin]%elem_of_app; [by apply (Hfresh CLASSNAME)|].
        apply Haction; [|done]. destruct Hact as [[= ->]|[= ->]]; auto.
      * unfold field. simpl. by rewrite lookup_insert_eq.
    + apply wp_ret, Hend; simpl; [by fold l|done|].
      unfold field. simpl. by rewrite lookup_insert_eq.
Qed.

#[local] Existing Instance sample_utils.

Lemma variant_classes_replaced_witness :
  let c' := exec (set_variant sample_class (VString "QuietAction")) sample_button in
  classList c' = classList_remove variantFamily (classList sample_button)
                 ++ classesOf "quietaction" /\
  labelClasses c' = labelClasses sample_button /\
  field "_variant" c' = VString "quietaction".
Proof.
  apply (variant_classes_replaced sample_utils sample_class
           (VString "QuietAction") sample_button "quietaction").
  - reflexivity.
  - cbv. in_list.
  - reflexivity.
Defined.

End ButtonFacts.

(** * Properties of the playground element *)

Module PlaygroundElementFacts.
Import JS Component Button Playground PlaygroundElement.
Import EffFacts ComponentFacts PlaygroundFacts ButtonFacts.

Local Open Scope Z_scope.

(** ** Queries written by hand *)

Lemma not_delimiter (c : ascii) :
  negb (delimiter c) = true ->
  delimiter c = false /\ Ascii.eqb c equals = false /\ Ascii.eqb c ampersand = false.
Proof.
  intros Hc%negb_true_iff. split; [done|]. unfold delimiter in Hc.
  by apply orb_false_iff in Hc as [[_ ?]%orb_false_iff ?].
Qed.

Lemma matches_value_end (k v w : list ascii) :
  ampersand ∉ w ->
  matches (InValue k v) w = [(string_of_list_ascii k, Some (string_of_list_ascii (v ++ w)))].
Proof.
  revert v. induction w as [|c w IH]; intros v Hw; cbn [matches].
  - by rewrite app_nil_r.
  - apply not_elem_of_cons in Hw as [Hc Hw].
    destruct (Ascii.eqb_spec c ampersand) as [->|_]; [done|].
    rewrite IH by done. by rewrite <- app_assoc.
Qed.

Lemma matches_key_end (k w : list ascii) :
  forallb (fun c => negb (delimiter c)) w = true ->
  matches (InKey k) w = [(string_of_list_ascii (k ++ w), None)].
Proof.
  revert k. induction w as [|c w IH]; intros k; cbn [matches forallb].
  - intros _. by rewrite app_nil_r.
  - intros [Hc Hw]%andb_true_iff. apply not_delimiter in Hc as (Hd & -> & _).
    rewrite Hd, IH by done. by rewrite <- app_assoc.
Qed.

Lemma matches_key_amp (k w rest : list ascii) :
  forallb (fun c => negb (delimiter c)) w = true ->
  matches (InKey k) (w ++ ampersand :: rest)
  = (string_of_list_ascii (k ++ w), None) :: matches Between rest.
Proof.
  revert k. induction w as [|c w IH]; intros k; cbn [app matches forallb].
  - intros _. by rewrite app_nil_r.
  - intros [Hc Hw]%andb_true_iff. apply not_delimiter in Hc as (Hd & -> & _).
    rewrite Hd, IH by done. by rewrite <- app_assoc.
Qed.

(** The matches of one entry that is followed by [&], and of the last
    entry when nothing follows it. *)
Lemma matches_written (kv : string * option string) (rest : list ascii) :
  legible kv ->
  matches Between (written kv ++ ampersand :: rest) = kv :: matches Between rest.
Proof.
  destruct kv as [k [v|]]; intros [[Hne Hk] Hv]; unfold written; cbn [fst snd] in *.
  - rewrite <- app_assoc. cbn [app]. destruct Hv as [Hv _].
    by rewrite (matches_pair k v rest).
  - destruct k as [|c k]; [done|].
    cbn [list_ascii_of_string forallb app matches] in *.
    apply andb_true_iff in Hk as [Hc Hk]. apply not_delimiter in Hc as (-> & _ & _).
    rewrite matches_key_amp by done. cbn [app].
    cbn [string_of_list_ascii]. by rewrite string_of_list_ascii_of_string.
Qed.

Lemma matches_written_end (kv : string * option string) :
  legible kv -> matches Between (written kv) = [kv].
Proof.
  destruct kv as [k [v|]]; intros [[Hne Hk] Hv]; unfold written; cbn [fst snd] in *;
    (destruct k as [|c k]; [done|]);
    cbn [list_ascii_of_string forallb app matches] in *;
    apply andb_true_iff in Hk as [Hc Hk]; apply not_delimiter in Hc as (-> & _ & _).
  - destruct Hv as [Hv _].
    rewrite matches_key, matches_value_end by done. cbn [app].
    cbn [string_of_list_ascii]. by rewrite !string_of_list_ascii_of_string.
  - rewrite matches_key_end by done. cbn [app].
    cbn [string_of_list_ascii]. by rewrite string_of_list_ascii_of_string.
Qed.

Lemma matches_queryChars (closed : bool) (kvs : list (string * option string)) :
  Forall legible kvs -> matches Between (queryChars closed kvs) = kvs.
Proof.
  induction 1 as [|kv kvs Hkv Hkvs IH]; [done|].
  cbn [queryChars]. destruct kvs as [|kv' kvs].
  - destruct closed.
    + by rewrite matches_written.
    + rewrite app_nil_r. by apply matches_written_end.
  - rewrite matches_written by done. by rewrite IH.
Qed.

Lemma undefined_plain : percent ∉ list_ascii_of_string "undefined".
Proof. absent. Qed.

Lemma parse_matches `{R : URI} `{!URISpec R} (kvs : list (string * option string))
    (o : gmap string string) :
  Forall legible kvs ->
  fold_left record_match kvs (Normal o) = Normal (fold_left store kvs o).
Proof.
  intros Hkvs. revert o. induction Hkvs as [|[k v] kvs [_ Hv] _ IH]; intros o; [done|].
  cbn [fold_left]. unfold record_match at 2. cbn [fst snd] in *.
  rewrite decodeURI_plain; [exact (IH (store o (k, v)))|].
  destruct v as [v|]; [apply Hv|apply undefined_plain].
Qed.

Lemma store_proto (kvs : list (string * option string)) (o : gmap string string) :
  fold_left store kvs o !! "__proto__"%string = o !! "__proto__"%string.
Proof.
  revert o. induction kvs as [|[k' v] kvs IH]; intros o; [done|].
  cbn [fold_left]. rewrite IH. unfold store, assignKey. cbn [fst snd].
  destruct (String.eqb_spec k' "__proto__") as [->|Hne]; [done|].
  by rewrite lookup_insert_ne.
Qed.

Lemma store_lookup (kvs : list (string * option string)) (o : gmap string string)
    (k : string) :
  k <> "__proto__"%string ->
  fold_left store kvs o !! k = from_option Some (o !! k) (lastValue kvs k).
Proof.
  intros Hk.
  revert o. induction kvs as [|[k' v] kvs IH] using rev_ind; intros o; [done|].
  rewrite fold_left_app. cbn [fold_left]. unfold store at 1. cbn [fst snd].
  unfold lastValue. rewrite filter_app.
  destruct (decide (k' = k)) as [->|Hne].
  - rewrite assignKey_other by done.
    rewrite lookup_insert_eq, filter_cons_True by done.
    rewrite filter_nil, last_snoc. done.
  - assert (assignKey k' (default "undefined"%string v) (fold_left store kvs o) !! k
            = fold_left store kvs o !! k) as ->.
    { unfold assignKey. destruct (String.eqb k' "__proto__"); [done|].
      by rewrite lookup_insert_ne. }
    rewrite filter_cons_False by done.
    rewrite filter_nil, app_nil_r. apply IH.
Qed.

Lemma stored_lookup (kvs : list (string * option string)) (k : string) :
  fold_left store kvs ∅ !! k = stored kvs k.
Proof.
  unfold stored. destruct (String.eqb_spec k "__proto__") as [->|Hne].
  - by rewrite store_proto.
  - rewrite store_lookup, lookup_empty by done. by destruct (lastValue kvs k).
Qed.

Lemma parse_query `{R : URI} `{!URISpec R} (closed : bool)
    (kvs : list (string * option string)) :
  Forall legible kvs ->
  _parseQueryString (query closed kvs) = Normal (fold_left store kvs ∅).
Proof.
  intros Hkvs. unfold _parseQueryString, query.
  cbn [list_ascii_of_string]. rewrite list_ascii_of_string_of_list_ascii.
  cbn [matches]. change (delimiter question) with true. cbv iota.
  rewrite matches_queryChars by done. by apply parse_matches.
Qed.

(** A query written by hand is read as it is written: every key of the
    list but [__proto__] is an own property of the object, with the text of
    its last entry, and a key written without [=] has the text [undefined].
    The object has no other own property: the entries of [__proto__] are
    lost. *)
Theorem parse_handwritten_query `{R : URI} (HR : URISpec R) (closed : bool)
    (kvs : list (string * option string)) :
  Forall legible kvs ->
  exists o, _parseQueryString (query closed kvs) = Normal o /\
            forall k, o !! k = stored kvs k.
Proof.
  intros Hkvs. eexists. split; [by apply parse_query|].
  intros k. apply stored_lookup.
Qed.

Lemma parse_handwritten_query_witness :
  exists o, @_parseQueryString sample_uri
              (query false [("screen", Some "horizontal"); ("livereload", None);
                            ("__proto__", Some "x");
                            ("screen", Some "vertical")]%string) = Normal o /\
            forall k, o !! k
                      = stored [("screen", Some "horizontal"); ("livereload", None);
                                ("__proto__", Some "x");
                                ("screen", Some "vertical")]%string k.
Proof.
  apply (@parse_handwritten_query sample_uri sample_uri_spec).
  repeat (constructor; [split; [split; [done|reflexivity]|
                                first [ exact I | split; absent ]]|]).
  constructor.
Defined.

(** ** [read] after [share] *)






(** Membership in [PROPERTIES], by cases. *)
Lemma PROPERTIES_cases (p : string) :
  bool_decide (p ∈ PROPERTIES)
  = String.eqb p "livereload" || String.eqb p "screen" || String.eqb p "code".
Proof.
  destruct (String.eqb_spec p "livereload") as [->|Hl]; [done|].
  destruct (String.eqb_spec p "screen") as [->|Hs]; [done|].
  destruct (String.eqb_spec p "code") as [->|Hc]; [done|].
  apply bool_decide_eq_false_2. unfold PROPERTIES.
  rewrite !elem_of_cons, elem_of_nil. tauto.
Qed.

Lemma read_property_plain `{D : Deflate} (params : gmap string string)
    (cfg : gmap string Value) (p : string) :
  String.eqb p "code" = false ->
  read_property params (Normal cfg) p = Normal (<[p := param params p]> cfg).
Proof.
  intros Hp. unfold read_property. rewrite Hp. cbn [andb].
  by destruct (params !! p).
Qed.

(** The loop of [read] over the three properties. *)
Lemma read_properties `{D : Deflate} (params : gmap string string) (c : Value) :
  match params !! "code"%string with
  | Some v => if String.eqb v "" then c = VString ""
              else exists s, _uncompress v = Normal s /\ c = VString s
  | None => c = VUndefined
  end ->
  exists config,
    fold_left (read_property params) PROPERTIES (Normal ∅) = Normal config /\
    forall p, config !! p
              = if String.eqb p "code" then Some c
                else if bool_decide (p ∈ PROPERTIES) then Some (param params p) else None.
Proof.
  intros Hc. unfold PROPERTIES at 1. cbn [fold_left].
  rewrite (read_property_plain params ∅ "livereload") by done.
  rewrite (read_property_plain params _ "screen") by done.
  set (c2 := <["screen"%string := _]> _).
  assert (read_property params (Normal c2) "code" = Normal (<["code"%string := c]> c2)) as ->.
  { unfold read_property, param. change (String.eqb "code" "code") with true. cbn [andb].
    destruct (params !! "code"%string) as [v|]; [|by subst c].
    destruct (String.eqb v "") eqn:Hv; cbn [negb].
    - apply String.eqb_eq in Hv. by subst v c.
    - by destruct Hc as (s & -> & ->). }
  eexists. split; [done|]. intros p. rewrite (PROPERTIES_cases p).
  destruct (String.eqb_spec p "code") as [->|Hcode]; [apply lookup_insert_eq|].
  rewrite lookup_insert_ne by done. subst c2. rewrite orb_false_r.
  destruct (String.eqb_spec p "screen") as [->|Hs].
  { rewrite orb_true_r. apply lookup_insert_eq. }
  rewrite lookup_insert_ne by done. rewrite orb_false_r.
  destruct (String.eqb_spec p "livereload") as [->|Hl]; [apply lookup_insert_eq|].
  by rewrite lookup_insert_ne.
Qed.




(** ** The timers of [_debounceTrigger] *)

Lemma wp_onHost {A} (m : Eff Component A) (Q : A -> Page -> Prop) (p : Page) :
  wp m (fun a c => Q a (set_host (fun _ => c) p)) (host p) -> wp (onHost m) Q p.
Proof.
  intros (a & c & Hm & HQ). exists a, (set_host (fun _ => c) p).
  unfold onHost. by rewrite Hm.
Qed.

Lemma wp_setTimeout (callback : Callback) (Q : Z -> Page -> Prop) (p : Page) :
  Q (nextTimer p)
    (set_nextTimer (nextTimer p + 1)
       (set_timers (fun l => l ++ [(nextTimer p, callback)]) p)) ->
  wp (setTimeout callback) Q p.
Proof. intros HQ. by eexists _, _. Qed.

Lemma debounced_cons (t : Z * Callback) (l : list (Z * Callback)) :
  debounced (t :: l)
  = match t.2 with
    | TriggerEvent event => (t.1, event) :: debounced l
    | CloseShareTip => debounced l
    end.
Proof. unfold debounced. cbn. by destruct t as [? []]. Qed.

Lemma debounced_filter (h : Z) (l : list (Z * Callback)) :
  debounced (filter (fun t => t.1 <> h) l) = filter (fun x => x.1 <> h) (debounced l).
Proof.
  induction l as [|[i cb] l IH]; [done|].
  destruct (decide (i = h)) as [->|Hne].
  - rewrite filter_cons_False by (cbn; tauto). rewrite IH, debounced_cons.
    destruct cb; cbn [fst snd]; [|done]. by rewrite filter_cons_False by (cbn; tauto).
  - rewrite filter_cons_True by done. rewrite !debounced_cons.
    destruct cb; cbn [fst snd]; [|done].
    rewrite filter_cons_True by done. by rewrite <- IH.
Qed.

Lemma elem_of_debounced (h : Z) (event : string) (l : list (Z * Callback)) :
  (h, event) ∈ debounced l <-> (h, TriggerEvent event) ∈ l.
Proof.
  unfold debounced. rewrite list_elem_of_omap. split.
  - intros ([i [e|]] & Hin & Heq); cbn in Heq; [|done]. by injection Heq as -> ->.
  - intros Hin. by exists (h, TriggerEvent event).
Qed.

Lemma one_callback (l : list (Z * Callback)) (h : Z) (a b : Callback) :
  NoDup l.*1 -> (h, a) ∈ l -> (h, b) ∈ l -> a = b.
Proof.
  induction l as [|[i c] l IH]; intros Hnd Ha Hb; [by apply elem_of_nil in Ha|].
  rewrite fmap_cons in Hnd. apply NoDup_cons in Hnd as [Hi Hnd].
  apply elem_of_cons in Ha as [Ha|Ha], Hb as [Hb|Hb].
  - congruence.
  - injection Ha as -> ->. exfalso. apply Hi. apply list_elem_of_fmap. by exists (i, b).
  - injection Hb as -> ->. exfalso. apply Hi. apply list_elem_of_fmap. by exists (i, a).
  - by apply IH.
Qed.

Lemma filter_handles (P : Z * Callback -> Prop) `{!forall x, Decision (P x)}
    (l : list (Z * Callback)) (n : Z) :
  NoDup l.*1 -> Forall (fun t => t.1 < n) l ->
  NoDup (filter P l).*1 /\ Forall (fun t => t.1 < n) (filter P l).
Proof.
  intros Hnd Hlt. split.
  - eapply sublist_NoDup; [exact Hnd|]. apply fmap_sublist, sublist_filter.
  - rewrite Forall_forall in *. intros t [_ Ht]%list_elem_of_filter. by apply Hlt.
Qed.

Lemma fresh_handle (l : list (Z * Callback)) (n : Z) (callback : Callback) :
  NoDup l.*1 -> Forall (fun t => t.1 < n) l ->
  NoDup (l ++ [(n, callback)]).*1 /\
  Forall (fun t => t.1 < n + 1) (l ++ [(n, callback)]).
Proof.
  intros Hnd Hlt. split.
  - rewrite fmap_app. apply NoDup_app. split; [done|]. split; [|apply NoDup_singleton].
    intros h Hh Hn. apply list_elem_of_fmap in Hn as ([i c] & -> & Hin).
    apply list_elem_of_singleton in Hin. injection Hin as -> ->.
    apply list_elem_of_fmap in Hh as ([i c] & Hi & Hin). cbn in Hi. subst i.
    rewrite Forall_forall in Hlt. specialize (Hlt _ Hin). cbn in Hlt. lia.
  - apply Forall_app. split; [|constructor; [cbn; lia|constructor]].
    eapply Forall_impl; [exact Hlt|]. cbn. intros. lia.
Qed.

Lemma tidy_clock (p p' : Page) : clock p' = clock p -> tidy p -> tidy p'.
Proof. unfold clock, tidy. intros [= -> -> ->]. done. Qed.

Lemma tidy_sample_page : tidy sample_page.
Proof. repeat split; constructor. Qed.

(** What leaves the timers and [_timeout] alone. *)
Lemma assignField_clock (name : string) (v : Value) :
  name <> "_timeout"%string -> steady clock (onHost (assignField name v)).
Proof.
  intros Hne p. apply wp_onHost, wp_modify. unfold clock, field. cbn.
  by rewrite lookup_insert_ne.
Qed.

Lemma _reflectAttribute_clock (K : ElementClass) (name : string) (v : Value) :
  validAttributeName name = true -> reacts K name = false ->
  steady clock (onHost (_reflectAttribute K name v)).
Proof. intros Hn Hr p. apply wp_onHost, wp__reflectAttribute; [done..|]. done. Qed.

Lemma classList_clock (f : list string -> list string) :
  steady clock (onHost (modify (set_classList f))).
Proof. intros p. by apply wp_onHost, wp_modify. Qed.

Lemma trigger_clock (eventName : string) : steady clock (trigger eventName).
Proof. unfold trigger. steady. Qed.

#[local] Hint Resolve classList_clock trigger_clock : frame.
#[local] Hint Extern 2 (steady clock (onHost (_reflectAttribute _ _ _))) =>
  (apply _reflectAttribute_clock; literal_name) : frame.
#[local] Hint Extern 2 (steady clock (onHost (assignField _ _))) =>
  (apply assignField_clock; discriminate) : frame.

(** [_debounceTrigger] leaves its own timer as the one pending timer of
    the kind. *)
Lemma wp__debounceTrigger (event : string) (Q : unit -> Page -> Prop) (p : Page) :
  tidy p ->
  (forall p', tidy p' -> debounced (timers p') = [(nextTimer p, event)] -> Q tt p') ->
  wp (_debounceTrigger event) Q p.
Proof.
  intros (Hnd & Hlt & Hto) HQ. unfold _debounceTrigger.
  apply wp_bind, wp_gets, wp_bind.
  set (t := field "_timeout" (host p)) in *.
  assert (wp (if bool_decide (t <> VNull) then clearTimeout t else ret tt)
             (fun _ p1 => host p1 = host p /\ nextTimer p1 = nextTimer p /\
                          NoDup (timers p1).*1 /\
                          Forall (fun x => x.1 < nextTimer p) (timers p1) /\
                          debounced (timers p1) = []) p) as Hclear.
  { destruct t as [| |b|handle|s|shown element]; try case_bool_decide;
      try (by apply wp_ret).
    apply wp_modify. cbn.
    destruct (filter_handles (fun t => t.1 <> handle) (timers p) (nextTimer p))
      as [? ?]; [done..|].
    repeat split; try done.
    destruct Hto as [e He]. rewrite debounced_filter, He.
    by rewrite filter_cons_False by (cbn; tauto). }
  eapply wp_mono; [exact Hclear|]. cbn beta.
  intros _ p1 (Hh & Hn & Hnd1 & Hlt1 & Hd1).
  apply wp_bind, wp_setTimeout, wp_onHost, wp_modify. cbn.
  rewrite Hn in *.
  destruct (fresh_handle (timers p1) (nextTimer p) (TriggerEvent event)) as [? ?];
    [done..|].
  assert (debounced (timers p1 ++ [(nextTimer p, TriggerEvent event)])
          = [(nextTimer p, event)]) as Hd.
  { unfold debounced in *. by rewrite omap_app, Hd1. }
  apply HQ; [|exact Hd].
  repeat split; cbn; try done.
  unfold field. cbn. rewrite lookup_insert_eq. cbn. by exists event.
Qed.

Lemma wp_fire (handle : Z) (p : Page) :
  tidy p -> wp (fire handle) (fun _ p' => tidy p') p.
Proof.
  intros Htidy. pose proof Htidy as (Hnd & Hlt & Hto). unfold fire.
  apply wp_bind, wp_gets.
  destruct (list_find _ (timers p)) as [[i [h callback]]|] eqn:Hfind;
    [|by apply wp_ret].
  apply list_find_Some in Hfind as (Hi%list_elem_of_lookup_2 & Hh & _).
  cbn in Hh. subst h. cbn [fmap option_fmap option_map snd].
  apply wp_bind, wp_modify.
  destruct (filter_handles (fun t => t.1 <> handle) (timers p) (nextTimer p))
    as [Hnd' Hlt']; [done..|].
  destruct callback as [event|]; cbn [call].
  - apply wp_bind, wp_onHost, wp_modify.
    eapply wp_steady; [apply trigger_clock|]. intros _ p' Hp'.
    eapply tidy_clock; [exact Hp'|].
    repeat split; cbn; try done.
    unfold field. cbn. rewrite lookup_insert_eq. cbn.
    rewrite debounced_filter.
    apply elem_of_debounced in Hi.
    destruct (field "_timeout" (host p));
      try (rewrite Hto in Hi; by apply elem_of_nil in Hi).
    destruct Hto as [e He]. rewrite He in Hi |- *.
    apply list_elem_of_singleton in Hi. injection Hi as -> ->.
    by rewrite filter_cons_False by (cbn; tauto).
  - apply wp_modify. repeat split; cbn; try done.
    rewrite debounced_filter.
    destruct (field "_timeout" (host p)); try (by rewrite Hto).
    destruct Hto as [e He]. exists e. rewrite He.
    rewrite filter_cons_True; [done|]. cbn. intros ->.
    assert ((handle, e) ∈ debounced (timers p)) as Hin by (rewrite He; by left).
    apply elem_of_debounced in Hin.
    by pose proof (one_callback _ _ _ _ Hnd Hi Hin).
Qed.

Lemma wp_set_livereload (value : Value) (p : Page) :
  tidy p ->
  wp (set_livereload value)
     (fun _ p' => tidy p' /\ pendingEvents p' = [SETTINGSCHANGE]) p.
Proof.
  intros Htidy. unfold set_livereload. apply wp_bind.
  destruct (truthy value).
  - apply wp_bind. eapply (wp_steady clock); [steady|]. intros _ p1 H1.
    apply wp_bind. eapply (wp_steady clock); [steady|]. intros _ p2 H2.
    apply wp_bind. eapply (wp_steady clock); [steady|]. intros _ p3 H3.
    apply wp__debounceTrigger.
    { eapply tidy_clock; [|exact Htidy]. congruence. }
    intros p4 H4 _. apply wp__debounceTrigger; [done|].
    intros p5 H5 Hd. split; [done|]. unfold pendingEvents. by rewrite Hd.
  - apply wp_bind. eapply (wp_steady clock); [steady|]. intros _ p1 H1.
    apply wp_bind. eapply (wp_steady clock); [steady|]. intros _ p2 H2.
    eapply (wp_steady clock); [steady|]. intros _ p3 H3.
    apply wp__debounceTrigger.
    { eapply tidy_clock; [|exact Htidy]. congruence. }
    intros p5 H5 Hd. split; [done|]. unfold pendingEvents. by rewrite Hd.
Qed.

(** What the [screen] setter stores. *)
Lemma stored_screen `{U : Utils} (value : Value) (p : Page) :
  get_screen
    (set_host (fun _ => set_fields
                 (insert "_screen"%string
                    (enumerated SCREEN_ENUM
                       (VString (toLowerCase (transform_string value))) "vertical"))
                 (host p)) p)
  = VString (screenOf value).
Proof.
  unfold get_screen, field. cbn. rewrite lookup_insert_eq. cbn.
  rewrite enumerated_cases. unfold screenOf. cbv zeta.
  by destruct (validate_enumeration _ _ && _).
Qed.

Lemma wp_set_screen `{U : Utils} (K : ElementClass) (value : Value) (p : Page) :
  tidy p -> validToken (screenClass (screenOf value)) = true ->
  wp (set_screen K value)
     (fun _ p' => tidy p' /\ pendingEvents p' = [SETTINGSCHANGE]) p.
Proof.
  intros Htidy Htoken. unfold set_screen. cbv zeta.
  apply wp_bind, wp_onHost, wp_modify, wp_bind, wp_gets.
  rewrite stored_screen. set (p1 := set_host _ p).
  assert (clock p1 = clock p) as H1.
  { unfold clock, field. cbn. by rewrite lookup_insert_ne. }
  apply wp_bind. eapply (wp_steady clock); [steady|]. intros _ p2 H2.
  apply wp_bind. eapply (wp_steady clock); [steady|]. intros _ p3 H3.
  apply wp_bind. eapply (wp_steady clock); [steady|]. intros _ p4 H4.
  unfold classList_add_token. cbn [String_of].
  change (CLASS_NAME ++ "--" ++ screenOf value)%string with (screenClass (screenOf value)).
  rewrite Htoken.
  apply wp_bind. eapply (wp_steady clock); [steady|]. intros _ p5 H5.
  apply wp_bind. eapply (wp_steady clock); [steady|]. intros _ p6 H6.
  apply wp__debounceTrigger.
  { eapply tidy_clock; [|exact Htidy]. congruence. }
  intros p7 H7 Hd. split; [done|]. unfold pendingEvents. by rewrite Hd.
Qed.

(** The [screen] setter keeps the timers tidy, also when [classList.add]
    refuses the class and the setter ends there. *)
Lemma set_screen_tidy `{U : Utils} (K : ElementClass) (value : Value) (p : Page) :
  tidy p -> tidy (exec (set_screen K value) p).
Proof.
  intros Htidy.
  destruct (validToken (screenClass (screenOf value))) eqn:Htoken.
  { by destruct (wp_exec _ _ _ (wp_set_screen K value p Htidy Htoken)) as (_ & _ & H & _). }
  change (ends (set_screen K value) tidy p). unfold set_screen. cbv zeta.
  apply ends_bind, wp_onHost, wp_modify, ends_bind, wp_gets.
  rewrite stored_screen. set (p1 := set_host _ p).
  assert (clock p1 = clock p) as H1.
  { unfold clock, field. cbn. by rewrite lookup_insert_ne. }
  apply ends_bind. eapply (wp_steady clock); [steady|]. intros _ p2 H2.
  apply ends_bind. eapply (wp_steady clock); [steady|]. intros _ p3 H3.
  apply ends_bind. eapply (wp_steady clock); [steady|]. intros _ p4 H4.
  unfold classList_add_token. cbn [String_of].
  change (CLASS_NAME ++ "--" ++ screenOf value)%string with (screenClass (screenOf value)).
  rewrite Htoken.
  destruct (String.eqb _ _); unfold ends, exec, bind, throw; cbn;
    (eapply tidy_clock; [|exact Htidy]; congruence).
Qed.

Lemma wp_request (event : string) (p : Page) :
  tidy p ->
  wp (_debounceTrigger event) (fun _ p' => tidy p' /\ pendingEvents p' = [event]) p.
Proof.
  intros Htidy. apply wp__debounceTrigger; [done|].
  intros p' H' Hd. split; [done|]. unfold pendingEvents. by rewrite Hd.
Qed.

Lemma wp_tidy {A} (m : Eff Page A) (P : Page -> Prop) (p : Page) :
  wp m (fun _ p' => tidy p' /\ P p') p -> tidy (exec m p).
Proof. intros H. by destruct (wp_exec _ _ _ H) as (_ & _ & ? & _). Qed.

Lemma wp_tidy_only {A} (m : Eff Page A) (p : Page) :
  wp m (fun _ p' => tidy p') p -> tidy (exec m p).
Proof. intros H. by destruct (wp_exec _ _ _ H) as (_ & _ & ?). Qed.

(** Whatever happens to the playground keeps the timers tidy. *)
Lemma perform_tidy `{U : Utils} (K : ElementClass) (a : Action) (p : Page) :
  tidy p -> tidy (exec (perform K a) p).
Proof.
  intros Htidy. destruct a; cbn [perform].
  - eapply wp_tidy. by apply wp_set_livereload.
  - by apply set_screen_tidy.
  - apply wp_tidy_only. unfold onEditorChange. apply wp_bind, wp_gets.
    destruct (truthy _).
    + eapply wp_mono; [by apply wp_request|]. by intros _ p' [? _].
    + apply wp_modify. by eapply tidy_clock.
  - eapply wp_tidy. by apply wp_request.
  - apply wp_tidy_only.
    unfold _onShareClick. apply wp_bind, wp_modify, wp_bind, wp_setTimeout, wp_ret.
    destruct Htidy as (Hnd & Hlt & Hto).
    destruct (fresh_handle (timers p) (nextTimer p) CloseShareTip) as [? ?]; [done..|].
    assert (debounced (timers p ++ [(nextTimer p, CloseShareTip)]) = debounced (timers p))
      as Hd by (unfold debounced; rewrite omap_app; cbn; apply app_nil_r).
    split; [done|]. split; [done|].
    change (match field "_timeout" (host p) with
            | VNumber handle =>
                exists event,
                  debounced (timers p ++ [(nextTimer p, CloseShareTip)]) = [(handle, event)]
            | _ => debounced (timers p ++ [(nextTimer p, CloseShareTip)]) = []
            end).
    by rewrite Hd.
  - eapply wp_tidy. by apply wp_set_livereload.
  - by apply set_screen_tidy.
  - apply wp_tidy_only. unfold onAnimationFrame. apply wp_bind, wp_gets.
    destruct (truthy _).
    + eapply wp_mono; [by apply wp_request|]. by intros _ p' [? _].
    + by apply wp_ret.
  - apply wp_tidy_only. by apply wp_fire.
Qed.

Lemma run_tidy `{U : Utils} (K : ElementClass) (actions : list Action) (p : Page) :
  tidy p -> tidy (run K actions p).
Proof.
  revert p. induction actions as [|a actions IH]; intros p Htidy; [done|].
  cbn [run fold_left]. apply IH. by apply perform_tidy.
Qed.

Lemma tidy_pending (p : Page) : tidy p -> (length (pendingEvents p) <= 1)%nat.
Proof.
  intros (_ & _ & Hto). unfold pendingEvents.
  destruct (field "_timeout" (host p)); try (rewrite Hto; cbn; lia).
  destruct Hto as [e ->]. cbn. lia.
Qed.

(** A request replaces the pending one.  From a state in which the timers
    are tidy (the handles of the pending timers are distinct and older than
    the next one, and [_timeout] holds the handle of the one pending timer of
    [_debounceTrigger], if there is one) and whatever happens to the
    playground then, at most one debounced event is pending, and after
    [_debounceTrigger(event)] it is that event.  So the code run that the
    [livereload] setter requests when the value is truthy is always cancelled
    by the request for [settingschange] that follows it: after the setter, as
    after the [screen] setter when [classList.add] accepts the class of the
    screen, the one pending event is [coral-playground:settingschange]. *)
Theorem debounce_keeps_last_request (U : Utils) (K : ElementClass)
    (actions : list Action) (event : string) (value : Value) (p : Page) :
  tidy p ->
  let q := run K actions p in
  (length (pendingEvents q) <= 1)%nat /\
  pendingEvents (exec (_debounceTrigger event) q) = [event] /\
  pendingEvents (exec (set_livereload value) q) = [SETTINGSCHANGE] /\
  (validToken (screenClass (screenOf value)) = true ->
   pendingEvents (exec (set_screen K value) q) = [SETTINGSCHANGE]).
Proof.
  intros Hp q.
  assert (tidy q) as Htidy by (by apply run_tidy).
  split; [by apply tidy_pending|].
  split; [|split].
  - by destruct (wp_exec _ _ _ (wp_request event q Htidy)) as (_ & _ & _ & H).
  - by destruct (wp_exec _ _ _ (wp_set_livereload value q Htidy)) as (_ & _ & _ & H).
  - intros Htoken.
    by destruct (wp_exec _ _ _ (wp_set_screen K value q Htidy Htoken)) as (_ & _ & _ & H).
Qed.

#[local] Existing Instance sample_utils.

Lemma debounce_keeps_last_request_witness :
  let q := run sample_class [SetLivereload (VBool true); ShareClick; Fire 2; EditorChange]
             sample_page in
  (length (pendingEvents q) <= 1)%nat /\
  pendingEvents (exec (_debounceTrigger CODERUN) q) = [CODERUN] /\
  pendingEvents (exec (set_livereload (VString "Horizontal")) q) = [SETTINGSCHANGE] /\
  (validToken (screenClass (screenOf (VString "Horizontal"))) = true ->
   pendingEvents (exec (set_screen sample_class (VString "Horizontal")) q)
   = [SETTINGSCHANGE]).
Proof.
  apply (debounce_keeps_last_request sample_utils sample_class
           [SetLivereload (VBool true); ShareClick; Fire 2; EditorChange]
           CODERUN (VString "Horizontal") sample_page).
  apply tidy_sample_page.
Defined.

(** ** The setters *)

Lemma _debounceTrigger_beside (event : string) : steady beside (_debounceTrigger event).
Proof.
  unfold _debounceTrigger.
  apply steady_bind; [steady|]. intros t.
  apply steady_bind.
  { case_bool_decide; [|steady]. unfold clearTimeout. destruct t; steady. }
  intros _. apply steady_bind.
  { intros p. by apply wp_setTimeout. }
  intros handle p. apply wp_onHost, wp_modify. unfold beside. cbn.
  by rewrite delete_insert_eq.
Qed.

Lemma beside_field (p p' : Page) (name : string) :
  beside p' = beside p -> name <> "_timeout"%string ->
  field name (host p') = field name (host p).
Proof.
  unfold beside, field. intros [= Hf _ _ _ _ _] Hne.
  by rewrite <- (lookup_delete_ne (fields (host p')) "_timeout" name),
             <- (lookup_delete_ne (fields (host p)) "_timeout" name), Hf.
Qed.

(** A text for [livereload] turns live reload on, whatever it says.  When
    the last entry of [livereload] in a query has a text that is not empty
    ([false] and [0] among them, and [undefined] for the bare key), the
    configuration that [read] returns turns live reload on in the setter. *)
Theorem livereload_text_enables `{D : Deflate} `{R : URI} (HR : URISpec R)
    (closed : bool) (kvs : list (string * option string)) (text : string) (p : Page) :
  Forall legible kvs ->
  lastValue kvs "code" = None ->
  lastValue kvs "livereload" = Some text -> text <> ""%string ->
  exists config,
    read (query closed kvs) = Normal config /\
    config !! "livereload"%string = Some (VString text) /\
    let p' := exec (set_livereload (configValue config "livereload")) p in
    get_livereload p' = VBool true /\ checked p' = true /\
    runVisibility p' = "hidden"%string.
Proof.
  intros Hkvs Hcode Hlive Htext. unfold read. rewrite parse_query by done.
  set (params := fold_left store kvs ∅).
  assert (forall k, params !! k = stored kvs k) as Hparams.
  { intros k. apply stored_lookup. }
  rewrite bool_decide_eq_false_2.
  2:{ intros Hempty. specialize (Hparams "livereload"%string).
      rewrite Hempty, lookup_empty in Hparams.
      change (stored kvs "livereload") with (lastValue kvs "livereload") in Hparams.
      rewrite Hlive in Hparams. discriminate. }
  destruct (read_properties params VUndefined) as (config & -> & Hconfig).
  { rewrite Hparams. change (stored kvs "code") with (lastValue kvs "code").
    by rewrite Hcode. }
  exists config. split; [done|].
  assert (config !! "livereload"%string = Some (VString text)) as Hl.
  { rewrite Hconfig. change (String.eqb "livereload" "code") with false. cbv iota.
    rewrite bool_decide_eq_true_2 by (cbv; in_list). unfold param. rewrite Hparams.
    change (stored kvs "livereload") with (lastValue kvs "livereload").
    by rewrite Hlive. }
  split; [done|]. unfold configValue. rewrite Hl. cbn [default from_option Datatypes.id].
  assert (wp (set_livereload (VString text))
             (fun _ p' => get_livereload p' = VBool true /\ checked p' = true /\
                          runVisibility p' = "hidden"%string) p) as Hwp.
  { unfold set_livereload.
    assert (truthy (VString text) = true) as ->.
    { cbn. by apply String.eqb_neq in Htext as ->. }
    apply wp_bind, wp_bind, wp_onHost, wp_modify, wp_bind, wp_modify, wp_bind, wp_modify.
    eapply (wp_steady beside); [apply _debounceTrigger_beside|]. intros _ p1 H1.
    eapply (wp_steady beside); [apply _debounceTrigger_beside|]. intros _ p2 H2.
    rewrite H1 in H2. split.
    - unfold get_livereload. rewrite (beside_field _ _ _ H2) by done.
      unfold field. cbn. by rewrite lookup_insert_eq.
    - by injection H2 as _ _ _ -> -> _. }
  by destruct (wp_exec _ _ _ Hwp) as (_ & _ & H).
Qed.

Lemma livereload_text_enables_witness :
  exists config,
    @read sample_deflate sample_uri (query false [("livereload", Some "false")]%string)
    = Normal config /\
    config !! "livereload"%string = Some (VString "false") /\
    let p' := exec (set_livereload (configValue config "livereload")) sample_page in
    get_livereload p' = VBool true /\ checked p' = true /\
    runVisibility p' = "hidden"%string.
Proof.
  apply (@livereload_text_enables sample_deflate sample_uri sample_uri_spec false
           [("livereload", Some "false")]%string "false" sample_page).
  - repeat (constructor; [split; [split; [done|reflexivity]|split; absent]|]).
    constructor.
  - reflexivity.
  - reflexivity.
  - discriminate.
Defined.

Lemma screen_member (s : string) :
  s ∈ members SCREEN_ENUM ->
  truthy (VString s) = true /\ screenClass s ∈ SCREEN_CLASSES.
Proof.
  intros Hs. split.
  - unfold members, SCREEN_ENUM in Hs. cbn in Hs.
    rewrite !elem_of_cons, elem_of_nil in Hs.
    by destruct Hs as [->|[->|[->|[]]]].
  - unfold SCREEN_CLASSES. by apply (list_elem_of_fmap_2 (fun v => screenClass v)).
Qed.

Lemma none_left (tokens l : list string) :
  filter (fun c => c ∈ tokens) (classList_remove tokens l) = [].
Proof.
  unfold classList_remove. induction l as [|x l IH]; [done|].
  destruct (decide (x ∈ tokens)).
  - by rewrite filter_cons_False by tauto.
  - rewrite filter_cons_True by done. by rewrite filter_cons_False.
Qed.

(** The [screen] setter stores the lower-cased text of its value when
    [validate.enumeration] accepts it and it is not empty, and [vertical]
    otherwise.  When [classList.add] accepts the class of the stored text
    (it has no white space), the setter returns; the property, the attribute
    and the control show the stored text, and the class is added to what is
    left of the class list once the classes of the three screens are taken
    off.  When the stored text is a screen of the enumeration, its class is
    the last class of the element and its only class of a screen. *)
Theorem screen_setter_normalises (U : Utils) (K : ElementClass)
    (value : Value) (p : Page) :
  let s := screenOf value in
  validToken (screenClass s) = true ->
  let p' := exec (set_screen K value) p in
  result (set_screen K value) p = Normal tt /\
  get_screen p' = VString s /\
  getAttribute "screen" (host p') = Some s /\
  screenValue p' = VString s /\
  classList (host p')
  = classList_add [screenClass s]
      (classList_remove SCREEN_CLASSES (classList (host p))) /\
  (s ∈ members SCREEN_ENUM ->
   classList (host p')
   = classList_remove SCREEN_CLASSES (classList (host p)) ++ [screenClass s] /\
   filter (fun c => c ∈ SCREEN_CLASSES) (classList (host p')) = [screenClass s]).
Proof.
  intros s Htoken p'.
  set (l := classList_remove SCREEN_CLASSES (classList (host p))).
  assert (wp (set_screen K value)
             (fun _ p' => get_screen p' = VString s /\
                          getAttribute "screen" (host p') = Some s /\
                          screenValue p' = VString s /\
                          classList (host p') = classList_add [screenClass s] l) p) as Hwp.
  { assert (enumerated SCREEN_ENUM (VString (toLowerCase (transform_string value)))
                       "vertical" = VString s) as Henum.
    { rewrite enumerated_cases. subst s. unfold screenOf. cbv zeta.
      by destruct (validate_enumeration _ _ && _). }
    unfold set_screen. cbv zeta. rewrite Henum.
    apply wp_bind, wp_onHost, wp_modify, wp_bind, wp_gets.
    assert (get_screen (set_host (fun _ => set_fields (insert "_screen"%string (VString s))
                                                      (host p)) p) = VString s) as ->.
    { unfold get_screen, field. cbn. by rewrite lookup_insert_eq. }
    apply wp_bind, wp_onHost, wp__reflectAttribute; [literal_name..|].
    intros attrs flag Hattr _.
    apply wp_bind, wp_modify, wp_bind, wp_onHost, wp_modify.
    unfold classList_add_token. cbn [String_of].
    change (CLASS_NAME ++ "--" ++ s)%string with (screenClass s).
    rewrite Htoken.
    apply wp_bind, wp_onHost, wp_modify, wp_bind, wp_modify.
    eapply (wp_steady beside); [apply _debounceTrigger_beside|]. intros _ p1 H1.
    split.
    { unfold get_screen. rewrite (beside_field _ _ _ H1) by done.
      unfold field. cbn. by rewrite lookup_insert_eq. }
    injection H1 as _ Ha Hc _ _ Hv.
    split; [|split].
    - unfold getAttribute. rewrite Ha. exact Hattr.
    - exact Hv.
    - rewrite Hc. reflexivity. }
  destruct (wp_exec _ _ _ Hwp) as ([] & Hr & H1 & H2 & H3 & H4).
  fold p' in H1, H2, H3, H4.
  split; [done|]. split; [done|]. split; [done|]. split; [done|]. split; [done|].
  intros Hs. destruct (screen_member s Hs) as [_ Hclass].
  assert (classList_add [screenClass s] l = l ++ [screenClass s]) as Hadd.
  { apply classList_add_fresh; [apply NoDup_singleton|].
    constructor; [|constructor]. by apply removed_absent. }
  rewrite H4, Hadd. split; [done|].
  rewrite filter_app, filter_cons_True, filter_nil by done.
  assert (filter (fun c => c ∈ SCREEN_CLASSES) l = []) as ->; [|done].
  apply none_left.
Qed.

Lemma screen_setter_normalises_witness :
  let p' := exec (set_screen sample_class (VString "Horizontal")) sample_page in
  result (set_screen sample_class (VString "Horizontal")) sample_page = Normal tt /\
  get_screen p' = VString "horizontal" /\
  getAttribute "screen" (host p') = Some "horizontal"%string /\
  screenValue p' = VString "horizontal" /\
  classList (host p')
  = classList_add [screenClass "horizontal"]
      (classList_remove SCREEN_CLASSES (classList (host sample_page))) /\
  ("horizontal"%string ∈ members SCREEN_ENUM ->
   classList (host p')
   = classList_remove SCREEN_CLASSES (classList (host sample_page))
     ++ [screenClass "horizontal"] /\
   filter (fun c => c ∈ SCREEN_CLASSES) (classList (host p'))
   = [screenClass "horizontal"]).
Proof.
  apply (screen_setter_normalises sample_utils sample_class
           (VString "Horizontal") sample_page).
  reflexivity.
Defined.

End PlaygroundElementFacts.

(** * Properties of [LazyCollection] *)

Module LazyCollectionFacts.
Import JS Delegate LazyCollection EffFacts DelegateFacts.




Lemma scoped (rest : string) :
  negb (String.eqb (SCOPE_SELECTOR ++ rest) "")
  && startsWith SCOPE_SELECTOR (SCOPE_SELECTOR ++ rest) = true.
Proof. by rewrite startsWith_app. Qed.





(** Two ways in which [_initialise] ends with a [TypeError], each time it
    is called.  A selector that starts with [:scope > ] needs a container:
    without one nothing is changed.  And a collection that has a container
    but neither a selector nor a tag name is marked as a live collection
    before the upper case of the missing selector is asked for. *)
Theorem initialise_type_errors (containerInitialise : Eff Collection unit)
    (σ : Collection) :
  _initialised σ = false -> containerReady σ ->
  let m := _initialise containerInitialise in
  (_container σ = None ->
   (exists rest, _itemSelector σ = Some (SCOPE_SELECTOR ++ rest)%string) ->
   throws m σ /\ exec m σ = σ) /\
  (is_Some (_container σ) -> _itemSelector σ = None -> _itemTagName σ = None ->
   throws m σ /\
   exec m σ = set_liveCollection (VBool true) (set_allItemsSelector None σ) /\
   throws m (exec m σ)).
Proof.
  intros Hinit Hready m. split.
  - intros Hc [rest Hsel].
    assert (m σ = (Abrupt "TypeError: Cannot read properties of undefined (reading 'id')", σ))
      as Hm.
    { subst m. unfold _initialise, bind, gets, ret.
      repeat (cbv beta iota zeta; rewrite ?Hc, ?Hinit, ?Hsel, ?scoped; cbn [negb]).
      done. }
    split; [by eexists _, _|]. unfold exec. by rewrite Hm.
  - intros [c Hc] Hsel Htag.
    assert (forall τ, _initialised τ = false -> _container τ = Some c ->
                      _itemSelector τ = None -> _itemTagName τ = None ->
              m τ = (Abrupt "TypeError: Cannot read properties of undefined (reading 'toUpperCase')",
                     set_liveCollection (VBool true) (set_allItemsSelector None τ))) as Hm.
    { intros τ Hi Hk Hs Ht. subst m. unfold _initialise, bind, gets.
      unfold containerReady in Hready. rewrite Hc in Hready.
      assert ((if negb (container_initialised c) && container_initialise c
               then containerInitialise else ret tt) = ret tt) as Hskip.
      { destruct Hready as [-> | ->]; [done|by rewrite andb_false_r]. }
      unfold ret in *.
      repeat (cbv beta iota zeta; rewrite ?Hk, ?Hskip, ?Hi, ?Hs, ?Ht; cbn [negb]).
      unfold modify. cbn. rewrite Hk, Ht. cbn. done. }
    assert (exec m σ = set_liveCollection (VBool true) (set_allItemsSelector None σ))
      as Hexec by (unfold exec; by rewrite (Hm σ)).
    split; [eexists _, _; by apply Hm|]. split; [done|].
    rewrite Hexec. eexists _, _. by apply Hm.
Qed.

Lemma initialise_type_errors_witness :
  let m := _initialise (ret tt) in
  throws m sample_orphan /\ exec m sample_orphan = sample_orphan /\
  throws m sample_unnamed /\ _liveCollection (exec m sample_unnamed) = VBool true.
Proof.
  destruct (initialise_type_errors (ret tt) sample_orphan eq_refl I) as [H1 _].
  destruct (initialise_type_errors (ret tt) sample_unnamed eq_refl (or_introl eq_refl))
    as [_ H2].
  destruct H1 as [T1 E1]; [reflexivity|by exists "coral-tab"%string|].
  destruct H2 as (T2 & E2 & _); [by eexists|reflexivity|reflexivity|].
  split; [exact T1|]. split; [exact E1|]. split; [exact T2|].
  rewrite E2. reflexivity.
Defined.

End LazyCollectionFacts.

(** * Properties of [set] *)

Module SetPropertyFacts.
Import JS Component PlaygroundElement SetProperty.
Import EffFacts ComponentFacts PlaygroundElementFacts.

Local Open Scope Z_scope.

(** ** A button *)

Lemma _reflectAttribute_field (K : ElementClass) (name attribute : string) (v : Value) :
  validAttributeName attribute = true -> reacts K attribute = false ->
  preserves (field name) (_reflectAttribute K attribute v).
Proof.
  intros Hn Hr c. unfold field. by rewrite (_reflectAttribute_fields K attribute v Hn Hr c).
Qed.

Lemma set_variant_field `{U : Utils} (K : ElementClass) (value : Value) (name : string) :
  name <> "_variant"%string -> preserves (field name) (set_variant K value).
Proof.
  intros Hne. unfold set_variant, _updateProperty. cbv zeta.
  apply preserves_bind; [apply preserves_gets|]. intros old.
  destruct (validate_valueMustChange _ _); [|apply preserves_ret].
  apply preserves_bind.
  { apply preserves_modify. intros c. unfold field. cbn. by rewrite lookup_insert_ne. }
  intros _. apply preserves_bind; [apply _reflectAttribute_field; literal_name|]. intros _.
  unfold _updateLabel. frame.
Qed.

Lemma set_variant_throws `{U : Utils} (K : ElementClass) (value : Value) (c : Component) :
  validate_valueMustChange (field "_variant" c)
    (enumerated variant (transform_toLowerCase value) "default") = true ->
  throws (set_variant K value) c.
Proof.
  intros Hchange. unfold set_variant, _updateProperty. cbv zeta.
  apply throws_bind_r, wp_gets. rewrite Hchange.
  repeat (apply throws_bind_always; intros).
  apply throws_throw.
Qed.

(** A silent [set] that fails leaves the component silenced.  When
    [set('variant', value, true)] changes the variant of a button, the
    setter throws after [_silenced] is set and before it is reset: the call
    throws, [_silenced] stays [true], and an event that the button triggers
    afterwards is not dispatched. *)
Theorem failed_silent_set_stays_silenced (U : Utils) (K : ElementClass)
    (others : string -> Value -> Eff Component unit)
    (isContentZone : string -> Component -> bool)
    (updateContentZone : string -> Value -> Eff Component unit)
    (value : Value) (c : Component) (page : Page) (eventName : string) :
  isContentZone "variant"%string c = false ->
  validate_valueMustChange (field "_variant" c)
    (enumerated variant (transform_toLowerCase value) "default") = true ->
  let m := BaseButton_set K others isContentZone updateContentZone
             "variant" value (VBool true) in
  throws m c /\
  field "_silenced" (exec m c) = VBool true /\
  (host page = exec m c -> triggered (exec (trigger eventName) page) = triggered page).
Proof.
  intros Hzone Hchange m.
  set (c1 := set_fields (insert "_silenced"%string (VBool true)) c).
  assert (field "_variant" c1 = field "_variant" c) as Hsame.
  { unfold field. subst c1. cbn. by rewrite lookup_insert_ne. }
  assert (throws (set_variant K value) c1) as (e & c2 & Hthrow).
  { apply set_variant_throws. by rewrite Hsame. }
  assert (field "_silenced" c2 = VBool true) as Hsilenced.
  { pose proof (set_variant_field K value "_silenced" ltac:(done) c1) as H.
    rewrite Hthrow in H. cbn in H. rewrite H. unfold field. subst c1. cbn.
    by rewrite lookup_insert_eq. }
  assert (m c = (Abrupt e, c2)) as Hm.
  { subst m. unfold BaseButton_set, set, setProperty, bind, gets, assignField, modify.
    rewrite Hzone. fold c1. unfold BaseButton_assign.
    change (String.eqb "variant" "variant") with true. cbv iota.
    by rewrite Hthrow. }
  split; [by exists e, c2|].
  unfold exec. rewrite Hm. cbn [snd]. split; [done|].
  intros Hpage. unfold trigger, bind, gets. rewrite Hpage, Hsilenced. done.
Qed.

#[local] Existing Instance sample_utils.

Lemma failed_silent_set_stays_silenced_witness :
  let m := BaseButton_set sample_class (fun _ _ => ret tt) (fun _ _ => false)
             (fun _ _ => ret tt) "variant" (VString "PRIMARY") (VBool true) in
  throws m newComponent /\
  field "_silenced" (exec m newComponent) = VBool true /\
  (host (set_host (fun _ => exec m newComponent) sample_page) = exec m newComponent ->
   triggered (exec (trigger "click") (set_host (fun _ => exec m newComponent) sample_page))
   = triggered (set_host (fun _ => exec m newComponent) sample_page)).
Proof.
  apply (failed_silent_set_stays_silenced sample_utils sample_class (fun _ _ => ret tt)
           (fun _ _ => false) (fun _ _ => ret tt) (VString "PRIMARY") newComponent
           (set_host (fun _ => exec (BaseButton_set sample_class (fun _ _ => ret tt)
                                       (fun _ _ => false) (fun _ _ => ret tt)
                                       "variant" (VString "PRIMARY") (VBool true))
                                    newComponent) sample_page)
           "click").
  - reflexivity.
  - reflexivity.
Defined.

(** ** A playground *)

Lemma wp_conj {S A} (m : Eff S A) (Q1 Q2 : A -> S -> Prop) (σ : S) :
  wp m Q1 σ -> wp m Q2 σ -> wp m (fun a σ' => Q1 a σ' /\ Q2 a σ') σ.
Proof.
  intros (a & σ' & Hm & H1) (a' & σ'' & Hm' & H2).
  rewrite Hm in Hm'. injection Hm' as <- <-. by exists a, σ'.
Qed.

Lemma assignField_quiet (name : string) (v : Value) :
  name <> "_silenced"%string -> steady quiet (onHost (assignField name v)).
Proof.
  intros Hne p. apply wp_onHost, wp_modify. unfold quiet, field. cbn.
  by rewrite lookup_insert_ne.
Qed.

Lemma _reflectAttribute_quiet (K : ElementClass) (name : string) (v : Value) :
  validAttributeName name = true -> reacts K name = false ->
  steady quiet (onHost (_reflectAttribute K name v)).
Proof. intros Hn Hr p. apply wp_onHost, wp__reflectAttribute; [done..|]. done. Qed.

Lemma classList_quiet (f : list string -> list string) :
  steady quiet (onHost (modify (set_classList f))).
Proof. intros p. by apply wp_onHost, wp_modify. Qed.

Lemma setTimeout_quiet (callback : Callback) : steady quiet (setTimeout callback).
Proof. intros p. by apply wp_setTimeout. Qed.

Lemma clearTimeout_quiet (handle : Value) : steady quiet (clearTimeout handle).
Proof. unfold clearTimeout. destruct handle; steady. Qed.

#[local] Hint Resolve classList_quiet setTimeout_quiet clearTimeout_quiet : frame.
#[local] Hint Extern 2 (steady quiet (onHost (_reflectAttribute _ _ _))) =>
  (apply _reflectAttribute_quiet; literal_name) : frame.
#[local] Hint Extern 2 (steady quiet (onHost (assignField _ _))) =>
  (apply assignField_quiet; discriminate) : frame.

Lemma set_livereload_quiet (value : Value) : steady quiet (set_livereload value).
Proof. unfold set_livereload. steady. Qed.

Lemma _debounceTrigger_quiet (event : string) : steady quiet (_debounceTrigger event).
Proof. unfold _debounceTrigger. steady. Qed.

Lemma set_screen_quiet `{U : Utils} (K : ElementClass) (value : Value) (p : Page) :
  validToken (screenClass (screenOf value)) = true ->
  wp (set_screen K value) (fun _ p' => quiet p' = quiet p) p.
Proof.
  intros Htoken. unfold set_screen. cbv zeta.
  apply wp_bind, wp_onHost, wp_modify, wp_bind, wp_gets.
  rewrite stored_screen. set (p1 := set_host _ p).
  assert (quiet p1 = quiet p) as H1.
  { unfold quiet, field. cbn. by rewrite lookup_insert_ne. }
  apply wp_bind. eapply (wp_steady quiet); [steady|]. intros _ p2 H2.
  apply wp_bind. eapply (wp_steady quiet); [steady|]. intros _ p3 H3.
  apply wp_bind. eapply (wp_steady quiet); [steady|]. intros _ p4 H4.
  unfold classList_add_token. cbn [String_of].
  change (CLASS_NAME ++ "--" ++ screenOf value)%string with (screenClass (screenOf value)).
  rewrite Htoken.
  apply wp_bind. eapply (wp_steady quiet); [steady|]. intros _ p5 H5.
  apply wp_bind. eapply (wp_steady quiet); [steady|]. intros _ p6 H6.
  eapply (wp_steady quiet); [apply _debounceTrigger_quiet|]. intros _ p7 H7.
  congruence.
Qed.

(** The timer of a pending event dispatches it when the component is not
    silenced. *)
Lemma fire_dispatches (handle : Z) (event : string) (p : Page) :
  tidy p -> debounced (timers p) = [(handle, event)] ->
  truthy (field "_silenced" (host p)) = false ->
  triggered (exec (fire handle) p) = triggered p ++ [event].
Proof.
  intros (Hnd & _ & _) Hd Hsilenced.
  assert ((handle, TriggerEvent event) ∈ timers p) as Hin.
  { apply elem_of_debounced. rewrite Hd. by left. }
  destruct (list_find_elem_of (fun t => t.1 = handle) (timers p) _ Hin eq_refl)
    as [[i [h callback]] Hfind].
  pose proof Hfind as (Hi%list_elem_of_lookup_2 & Hh & _)%list_find_Some.
  cbn in Hh. subst h.
  assert (callback = TriggerEvent event) as -> by apply (one_callback _ _ _ _ Hnd Hi Hin).
  assert (wp (fire handle) (fun _ p' => triggered p' = triggered p ++ [event]) p) as Hwp.
  { unfold fire. apply wp_bind, wp_gets. rewrite Hfind.
    cbn [fmap option_fmap option_map snd call].
    apply wp_bind, wp_modify, wp_bind, wp_onHost, wp_modify.
    unfold trigger. apply wp_bind, wp_gets.
    assert (field "_silenced"
              (host (set_host (fun _ => set_fields (insert "_timeout"%string VNull)
                                          (host (set_timers (filter (fun t => t.1 <> handle)) p)))
                       (set_timers (filter (fun t => t.1 <> handle)) p)))
            = field "_silenced" (host p)) as ->.
    { unfold field. cbn. by rewrite lookup_insert_ne. }
    rewrite Hsilenced. by apply wp_modify. }
  by destruct (wp_exec _ _ _ Hwp) as (_ & _ & H).
Qed.

(** A silent [set] does not silence the events of a playground.  The
    setters of [screen] and [livereload] ask for their event through
    [_debounceTrigger], and [set] resets [_silenced] as soon as the setter
    returns: from a state in which the timers are tidy, after
    [set(property, value, true)] nothing has been dispatched, [_silenced] is
    [false] and [coral-playground:settingschange] is pending; it is
    dispatched when its timer fires.  (For [screen], when [classList.add]
    accepts the class of the screen.) *)
Theorem silent_set_still_dispatches (U : Utils) (K : ElementClass)
    (others : string -> Value -> Eff Page unit)
    (property : string) (value : Value) (p : Page) :
  property = "livereload"%string \/
  (property = "screen"%string /\ validToken (screenClass (screenOf value)) = true) ->
  tidy p ->
  let m := Playground_set K others property value (VBool true) in
  let p1 := exec m p in
  result m p = Normal tt /\
  triggered p1 = triggered p /\
  field "_silenced" (host p1) = VBool false /\
  pendingEvents p1 = [SETTINGSCHANGE] /\
  exists handle,
    triggered (exec (fire handle) p1) = triggered p ++ [SETTINGSCHANGE].
Proof.
  intros Hproperty Htidy m p1.
  assert (forall q, tidy q ->
            wp (Playground_assign K others property value)
               (fun _ q' => (tidy q' /\ pendingEvents q' = [SETTINGSCHANGE]) /\
                            quiet q' = quiet q) q) as Hsetter.
  { intros q Hq. unfold Playground_assign.
    destruct Hproperty as [-> | [-> Htoken]].
    - change (String.eqb "livereload" "livereload") with true. cbv iota.
      apply wp_conj; [by apply wp_set_livereload|apply set_livereload_quiet].
    - change (String.eqb "screen" "livereload") with false.
      change (String.eqb "screen" "screen") with true. cbv iota.
      apply wp_conj; [by apply wp_set_screen|by apply set_screen_quiet]. }
  assert (wp m (fun _ q => tidy q /\ pendingEvents q = [SETTINGSCHANGE] /\
                           triggered q = triggered p /\
                           field "_silenced" (host q) = VBool false) p) as Hwp.
  { subst m. unfold Playground_set, set, setProperty.
    apply wp_bind, wp_gets. cbv iota.
    apply wp_bind, wp_onHost, wp_modify.
    set (q0 := set_host _ p).
    assert (tidy q0) as H0.
    { eapply tidy_clock; [|exact Htidy]. unfold clock, field. subst q0. cbn.
      by rewrite lookup_insert_ne. }
    apply wp_bind. eapply wp_mono; [apply (Hsetter q0 H0)|]. cbn beta.
    intros _ q1 [[H1 Hpending] Hquiet]. apply wp_onHost, wp_modify.
    injection Hquiet as _ Htriggered.
    split; [|split; [|split]].
    - eapply tidy_clock; [|exact H1]. unfold clock, field. cbn.
      by rewrite lookup_insert_ne.
    - exact Hpending.
    - cbn. by rewrite Htriggered.
    - unfold field. cbn. by rewrite lookup_insert_eq. }
  destruct (wp_exec _ _ _ Hwp) as ([] & Hres & H1 & Hpending & Htriggered & Hsilenced).
  fold p1 in H1, Hpending, Htriggered, Hsilenced.
  do 4 (split; [done|]).
  unfold pendingEvents in Hpending.
  destruct (debounced (timers p1)) as [|[handle event] [|? ?]] eqn:Hd; try done.
  injection Hpending as ->. exists handle.
  rewrite <- Htriggered. apply fire_dispatches; [done..|]. by rewrite Hsilenced.
Qed.

Lemma silent_set_still_dispatches_witness :
  let p := run sample_class [SetLivereload (VBool true); Fire 2] sample_page in
  let m := Playground_set sample_class (fun _ _ => ret tt) "screen"
             (VString "horizontal") (VBool true) in
  let p1 := exec m p in
  result m p = Normal tt /\
  triggered p1 = triggered p /\
  field "_silenced" (host p1) = VBool false /\
  pendingEvents p1 = [SETTINGSCHANGE] /\
  exists handle,
    triggered (exec (fire handle) p1) = triggered p ++ [SETTINGSCHANGE].
Proof.
  apply (silent_set_still_dispatches sample_utils sample_class (fun _ _ => ret tt)
           "screen" (VString "horizontal")
           (run sample_class [SetLivereload (VBool true); Fire 2] sample_page)).
  - right. split; reflexivity.
  - apply run_tidy, tidy_sample_page.
Defined.

End SetPropertyFacts.

(** * What [_setContentZone] installs *)

Module ContentZoneInstallFacts.
Import JS ContentZone ContentZoneInstall EffFacts.




Lemma detach_not_child (e p : Element) (d : Dom) :
  childOfParent d -> parentOf d !! e = Some p -> e ∉ children (detach e d) p.
Proof.
  intros _ Hp. unfold detach, children. rewrite Hp. cbn.
  rewrite lookup_insert_eq. cbn. rewrite list_elem_of_filter. tauto.
Qed.





End ContentZoneInstallFacts.


(** * The connection callbacks of the playground *)

Module PlaygroundConnectionFacts.
Import JS Component PlaygroundElement PlaygroundConnection.

#[local] Existing Instance sample_utils.


End PlaygroundConnectionFacts.
